(** * Team entry optimizers of track-xc-result-processor

    A shallow embedding of
      - [src/common/result-utils.ts]   (event classification),
      - [src/track/optimizer-types.ts] (input and output records),
      - [src/track/team-entry-optimizer-simple.ts],
      - [src/track/team-entry-optimizer-advanced.ts],
    followed by the properties of the optimizers.

    Conventions of the embedding.
      - A JavaScript [number] that holds a rank, a place or a point count is
        an integer [Z] (the ranking files of this repository number the
        rows 1, 2, 3, ...); the length of an array is a [nat].
      - A JavaScript [Map] iterates in insertion order and the optimizers
        depend on that order, so a [Map] is an association list kept in
        insertion order ([JSMap]); a [Set] of strings is a duplicate-free
        list in insertion order.
      - [Array.prototype.sort] is stable; with a consistent comparator its
        result is the stable sorted permutation, computed here by stable
        insertion ([sortBy]).
      - A thrown exception is the [Throw] result of the [Exc] monad; the
        dereference of [undefined] behind a TypeScript non-null assertion
        [e!] is [Throw TypeError].
      - [loadRankings] reads untyped JSON: every way it can throw (the
        directory guard, [readdirSync], [readFileSync], [JSON.parse],
        [data.categories.find] and its callback) is an outcome of the
        file system model.  What it returns is typed by its declared
        return type [EventRankingData[]].
      - [String.prototype.localeCompare] depends on the host's collation
        and is a parameter of the optimizers. *)

From Stdlib Require Import ZArith List Bool String Ascii Lia Permutation
  Sorted Arith.
Import ListNotations.

Local Open Scope string_scope.
Local Open Scope Z_scope.
Local Open Scope list_scope.

(* ================================================================= *)
(** ** Exceptions *)

Inductive Error : Type :=
| DirNotFound (dir : string)    (* Error(`Rankings directory not found: ...`) *)
| ReaddirError (dir : string)   (* readdirSync throws: ENOTDIR, EACCES, ... *)
| ReadFileError (dir file : string)
                                (* readFileSync throws: EISDIR, EACCES, ... *)
| SyntaxError (file : string)   (* JSON.parse on a malformed file *)
| TypeError.                    (* property access on undefined or null *)

Inductive Exc (A : Type) : Type :=
| Ok (a : A)
| Throw (e : Error).

Arguments Ok {A} a.
Arguments Throw {A} e.

Definition bind {A B : Type} (m : Exc A) (k : A -> Exc B) : Exc B :=
  match m with
  | Ok a => k a
  | Throw e => Throw e
  end.

Notation "x <- m ;; k" := (bind m (fun x => k))
  (at level 61, m at next level, right associativity).

(** [e!] : the value when defined; a later property access throws when not. *)
Definition nonNull {A : Type} (o : option A) : Exc A :=
  match o with
  | Some a => Ok a
  | None => Throw TypeError
  end.

(** A [for ... of] loop (or [reduce]) whose body may throw. *)
Fixpoint foldM {A S : Type} (f : S -> A -> Exc S) (l : list A) (s : S)
  : Exc S :=
  match l with
  | [] => Ok s
  | x :: rest => s' <- f s x ;; foldM f rest s'
  end.

(* ================================================================= *)
(** ** JavaScript containers *)

Module JSMap.
Section Defs.
Context {V : Type}.

Definition t : Type := list (string * V).

Definition empty : t := [].

Fixpoint get (k : string) (m : t) : option V :=
match m with
| [] => None
| (k', v) :: rest => if String.eqb k' k then Some v else get k rest
end.

Definition has (k : string) (m : t) : bool :=
match get k m with Some _ => true | None => false end.

(** [m.set(k, v)]: an existing key keeps its position, a new key goes
  last. *)
Fixpoint set (k : string) (v : V) (m : t) : t :=
match m with
| [] => [(k, v)]
| (k', v') :: rest =>
    if String.eqb k' k then (k', v) :: rest else (k', v') :: set k v rest
end.

Definition keys (m : t) : list string := map fst m.
Definition values (m : t) : list V := map snd m.
Definition entries (m : t) : list (string * V) := m.

(** The idiom
    [if (!m.has(k)) m.set(k, init);  mutate(m.get(k)!)]
  where [mutate] changes the stored object in place: the entry of [k]
  is created with [init] when absent and then replaced, at its
  position, by its mutated value. *)
Definition update (k : string) (init : V) (mutate : V -> V) (m : t) : t :=
let m1 := if has k m then m else set k init m in
match get k m1 with
| Some v => set k (mutate v) m1
| None => m1
end.
End Defs.
Arguments t : clear implicits.

(** The grouping loop
      [for (x of l) { if (!m.has(key x)) m.set(key x, init); add x to m.get(key x)! }]. *)
Definition group {X V : Type} (key : X -> string) (init : V)
    (add : X -> V -> V) (l : list X) (m : t V) : t V :=
  fold_left (fun m x => update (key x) init (add x) m) l m.
End JSMap.

Module JSSet.
Definition t : Type := list string.

Definition empty : t := [].

Definition has (x : string) (s : t) : bool := existsb (String.eqb x) s.

Definition add (x : string) (s : t) : t := if has x s then s else s ++ [x].
End JSSet.

(** [arr.includes(x)] on an array of strings. *)
Definition includes (x : string) (arr : list string) : bool :=
  existsb (fun e => String.eqb e x) arr.

(** [arr.find(p)]. *)
Definition find_first {A : Type} (p : A -> bool) (arr : list A) : option A :=
  List.find p arr.

(** [arr.sort(cmp)]: [a] stays before [b] unless [cmp(a, b) > 0]. *)
Section Sort.
Context {A : Type} (cmp : A -> A -> Z).

Fixpoint insertBy (x : A) (l : list A) : list A :=
  match l with
  | [] => [x]
  | y :: rest =>
      if cmp x y <=? 0 then x :: y :: rest else y :: insertBy x rest
  end.

Fixpoint sortBy (l : list A) : list A :=
  match l with
  | [] => []
  | x :: rest => insertBy x (sortBy rest)
  end.
End Sort.

(** [s.split(' ')]. *)
Fixpoint splitSpace (s : string) : list string :=
  match s with
  | EmptyString => [EmptyString]
  | String c rest =>
      if Ascii.eqb c " "%char then EmptyString :: splitSpace rest
      else match splitSpace rest with
           | [] => [String c EmptyString]
           | w :: ws => String c w :: ws
           end
  end.

(** [parts.join(' ')]. *)
Definition joinSpace (parts : list string) : string := String.concat " " parts.

(** [s.startsWith(p)] and [s.endsWith(p)]. *)
Definition startsWith (p s : string) : bool := String.prefix p s.

Definition endsWith (p s : string) : bool :=
  let n := String.length s in
  let k := String.length p in
  if (k <=? n)%nat then String.eqb (String.substring (n - k) k s) p else false.

(* ================================================================= *)
(** ** src/common/result-utils.ts *)

Module ResultUtils.

Definition trackEvents : list string :=
  ["60"; "100"; "200"; "400"; "800"; "1600"; "3200";
   "4x100"; "4x200"; "4x400"; "4x800"].

Definition isTrackEvent (eventAbbr : string) : bool :=
  includes eventAbbr trackEvents.

Definition isFieldEvent (eventAbbr : string) : bool :=
  negb (isTrackEvent eventAbbr).

End ResultUtils.

(* ================================================================= *)
(** ** src/track/optimizer-types.ts *)

Record AthleteEntry : Type := mkAthleteEntry {
  athlete : string;
  firstName : string;
  lastName : string;
  events : list string;
  projectedPoints : Z
}.

(** The element type of [EventEntry.athletes]. *)
Record EventAthlete : Type := mkEventAthlete {
  ea_athlete : string;
  ea_projectedPlace : Z;
  ea_projectedPoints : Z;
  ea_currentRank : Z
}.

Record EventEntry : Type := mkEventEntry {
  event : string;
  ee_eventName : string;
  athletes : list EventAthlete
}.

Record OptimizationResult : Type := mkOptimizationResult {
  school : string;
  or_gender : string;
  or_grade : string;
  totalProjectedPoints : Z;
  athleteEntries : list AthleteEntry;
  eventBreakdown : list EventEntry
}.

(** The element type of [EventRankingData.rankings]. *)
Record Ranking : Type := mkRanking {
  rank : Z;
  r_athlete : string;
  team : string
}.

Record EventRankingData : Type := mkEventRankingData {
  eventAbbr : string;
  eventName : string;
  gender : string;
  grade : string;
  rankings : list Ranking
}.

(* ================================================================= *)
(** ** The ranking files read by [loadRankings] *)

(** One element of [data.categories] in a parsed ranking file. *)
Record FileCategory : Type := mkFileCategory {
  fc_gender : string;
  fc_grade : string;
  fc_rankings : list Ranking
}.

(** The fields of a parsed ranking file that the optimizers read, for a
    file whose [categories] is an array.  An element of the array is a
    category object or [null] ([None]). *)
Record RankingFile : Type := mkRankingFile {
  rf_eventAbbr : string;       (* data.eventAbbr *)
  rf_event : string;           (* data.event *)
  categories : list (option FileCategory)
}.

(** What [JSON.parse(fs.readFileSync(filePath, 'utf-8'))] and
    [data.categories] give for a directory entry. *)
Inductive FileContent : Type :=
| Unreadable                  (* readFileSync throws: the entry is a
                                 directory, or cannot be read *)
| Malformed                   (* the content is not JSON *)
| NoCategories                (* JSON, but [data] is null or
                                 [data.categories] is not an array *)
| Parsed (data : RankingFile).

(** What [fs.readdirSync(rankingsDir)] gives for a path that exists: it
    throws (the path is a file, or cannot be listed), or the entries in
    [readdirSync] order. *)
Inductive DirContent : Type :=
| NotListable
| Listing (entries : list (string * FileContent)).

(** The file system as [loadRankings] sees it: [None] for a path for
    which [fs.existsSync] is false. *)
Definition FileSystem : Type := string -> option DirContent.

(** [categories.find(cat => cat.gender === gender && cat.grade === grade)]:
    the callback throws at a [null] element that the search reaches. *)
Fixpoint findCategory (gender grade : string)
    (cats : list (option FileCategory)) : Exc (option FileCategory) :=
  match cats with
  | [] => Ok None
  | None :: _ => Throw TypeError
  | Some cat :: rest =>
      if String.eqb (fc_gender cat) gender && String.eqb (fc_grade cat) grade
      then Ok (Some cat)
      else findCategory gender grade rest
  end.

(** [entry.athletes.push(a)]: the entry after the in-place push. *)
Definition pushAthlete (entry : EventEntry) (a : EventAthlete) : EventEntry :=
  {| event := event entry;
     ee_eventName := ee_eventName entry;
     athletes := athletes entry ++ [a] |}.

(** [entry.athletes.sort(cmp)]: the entry after the in-place sort. *)
Definition sortAthletes (cmp : EventAthlete -> EventAthlete -> Z)
    (entry : EventEntry) : EventEntry :=
  {| event := event entry;
     ee_eventName := ee_eventName entry;
     athletes := sortBy cmp (athletes entry) |}.

(** The two lookups of [generateReport] for an event of an athlete:
      [eventData = result.eventBreakdown.find(e => e.event === event)],
      [athleteData = eventData?.athletes.find(a => a.athlete === athlete.athlete)]. *)
Definition findAthleteData (result : OptimizationResult) (a : AthleteEntry)
    (ev : string) : option (EventEntry * EventAthlete) :=
  match find_first (fun e => String.eqb (event e) ev) (eventBreakdown result) with
  | Some eventData =>
      match find_first (fun x => String.eqb (ea_athlete x) (athlete a))
                       (athletes eventData) with
      | Some athleteData => Some (eventData, athleteData)
      | None => None
      end
  | None => None
  end.

(** [const [first, ...rest] = parts] ([split] never returns an empty
    array). *)
Definition firstAndRest (parts : list string) : string * list string :=
  match parts with
  | [] => (EmptyString, [])
  | first :: rest => (first, rest)
  end.

(* ================================================================= *)
(** ** src/track/team-entry-optimizer-simple.ts *)

Module SimpleTeamEntryOptimizer.

Definition POINTS_TABLE : list (Z * Z) :=
  [(1, 8); (2, 6); (3, 4); (4, 2); (5, 1)].

(** [POINTS_TABLE[place] || 0]. *)
Definition pointsAt (place : Z) : Z :=
  match find_first (fun kv => fst kv =? place) POINTS_TABLE with
  | Some kv => if snd kv =? 0 then 0 else snd kv
  | None => 0
  end.

Definition loadRankings (fs : FileSystem)
    (rankingsDir season gender grade : string)
  : Exc (list EventRankingData) :=
  match fs rankingsDir with
  | None => Throw (DirNotFound rankingsDir)
  | Some NotListable => Throw (ReaddirError rankingsDir)
  | Some (Listing listing) =>
      let files :=
        filter (fun f =>
                  startsWith ("event_rankings_" ++ season ++ "_")%string (fst f)
                  && endsWith ".json" (fst f)) listing in
      foldM (fun rankings f =>
               data <- match snd f with
                       | Unreadable =>
                           Throw (ReadFileError rankingsDir (fst f))
                       | Malformed => Throw (SyntaxError (fst f))
                       | NoCategories => Throw TypeError
                       | Parsed data => Ok data
                       end ;;
               category <- findCategory gender grade (categories data) ;;
               match category with
               | Some cat =>
                   Ok (rankings ++
                       [ {| eventAbbr := rf_eventAbbr data;
                            eventName := rf_event data;
                            gender := gender;
                            grade := grade;
                            rankings := fc_rankings cat |} ])
               | None => Ok rankings
               end) files []
  end.

Definition isValidCombination (events : list string) : bool :=
  if (4 <? List.length events)%nat then false
  else
    let has1600 := includes "1600" events in
    let has800 := includes "800" events in
    if has1600 && has800 then
      let runningEvents := filter ResultUtils.isTrackEvent events in
      let otherRunning :=
        filter (fun e => negb (String.eqb e "1600")
                         && negb (String.eqb e "800")) runningEvents in
      if (1 <? List.length otherRunning)%nat then false
      else if (List.length events =? 4)%nat then
        let fieldEvents := filter ResultUtils.isFieldEvent events in
        if (List.length fieldEvents =? 0)%nat then false else true
      else true
    else true.

(** [getTrackEvents(events, exclude1600800 = false)]; [None] is the
    omitted argument. *)
Definition getTrackEvents (events : list EventRankingData)
    (exclude1600800 : option bool) : list EventRankingData :=
  let exclude1600800 :=
    match exclude1600800 with
    | Some b => b
    | None => false
    end in
  filter (fun e =>
            if negb (ResultUtils.isTrackEvent (eventAbbr e)) then false
            else if exclude1600800
                    && (String.eqb (eventAbbr e) "1600"
                        || String.eqb (eventAbbr e) "800")
            then false
            else true) events.

Definition getFieldEvents (events : list EventRankingData)
  : list EventRankingData :=
  filter (fun e => ResultUtils.isFieldEvent (eventAbbr e)) events.

(** The values [{ rank, points }] of the per-athlete map. *)
Record Score : Type := mkScore {
  s_rank : Z;
  s_points : Z
}.

(** The first loop of [optimize]: the map [athleteScores]. *)
Definition athleteScores (allRankings : list EventRankingData)
    (teamName : string) : JSMap.t (JSMap.t Score) :=
  fold_left
    (fun scores eventData =>
       fold_left
         (fun scores ranking =>
            if String.eqb (team ranking) teamName then
              let points := pointsAt (rank ranking) in
              JSMap.update (r_athlete ranking) JSMap.empty
                (JSMap.set (eventAbbr eventData)
                           {| s_rank := rank ranking; s_points := points |})
                scores
            else scores)
         (rankings eventData) scores)
    allRankings JSMap.empty.

(** The comparator of [sortedEvents]. *)
Definition compareEvents (a b : string * Score) : Z :=
  if negb (s_points (snd b) =? s_points (snd a))
  then s_points (snd b) - s_points (snd a)
  else s_rank (snd a) - s_rank (snd b).

(** The greedy selection loop over [sortedEvents]. *)
Fixpoint selectEvents (sortedEvents : list (string * Score))
    (selectedEvents : list string) : list string :=
  match sortedEvents with
  | [] => selectedEvents
  | (event, _) :: rest =>
      if (4 <=? List.length selectedEvents)%nat then selectedEvents
      else
        let testEvents := selectedEvents ++ [event] in
        if isValidCombination testEvents
        then selectEvents rest (selectedEvents ++ [event])
        else selectEvents rest selectedEvents
  end.

(** The body of the loop "Add to event breakdown". *)
Definition addToBreakdown (allRankings : list EventRankingData)
    (athlete : string) (eventScores : JSMap.t Score)
    (eventEntries : JSMap.t EventEntry) (event : string)
  : Exc (JSMap.t EventEntry) :=
  score <- nonNull (JSMap.get event eventScores) ;;
  let eventData :=
    find_first (fun e => String.eqb (eventAbbr e) event) allRankings in
  eventEntries <-
    (if negb (JSMap.has event eventEntries) then
       eventData <- nonNull eventData ;;
       Ok (JSMap.set event
             {| event := event;
                ee_eventName := eventName eventData;
                athletes := [] |} eventEntries)
     else Ok eventEntries) ;;
  entry <- nonNull (JSMap.get event eventEntries) ;;
  Ok (JSMap.set event
        (pushAthlete entry
           {| ea_athlete := athlete;
              ea_projectedPlace := s_rank score;
              ea_projectedPoints := s_points score;
              ea_currentRank := s_rank score |})
        eventEntries).

(** The body of the loop over [athletes]. *)
Definition processAthlete (allRankings : list EventRankingData)
    (scores : JSMap.t (JSMap.t Score))
    (state : list AthleteEntry * JSMap.t EventEntry) (athlete : string)
  : Exc (list AthleteEntry * JSMap.t EventEntry) :=
  let (athleteEntries, eventEntries) := state in
  eventScores <- nonNull (JSMap.get athlete scores) ;;
  let sortedEvents := sortBy compareEvents (JSMap.entries eventScores) in
  let selectedEvents := selectEvents sortedEvents [] in
  totalPoints <-
    foldM (fun sum event =>
             score <- nonNull (JSMap.get event eventScores) ;;
             Ok (sum + s_points score)) selectedEvents 0 ;;
  if (0 <? List.length selectedEvents)%nat then
    let (firstName, lastNameParts) := firstAndRest (splitSpace athlete) in
    let athleteEntries :=
      athleteEntries ++
      [ {| athlete := athlete;
           firstName := firstName;
           lastName := joinSpace lastNameParts;
           events := selectedEvents;
           projectedPoints := totalPoints |} ] in
    eventEntries <-
      foldM (addToBreakdown allRankings athlete eventScores)
            selectedEvents eventEntries ;;
    Ok (athleteEntries, eventEntries)
  else Ok (athleteEntries, eventEntries).

(** "Sort athletes", "Sort event breakdowns" and the returned object.
    The elements of [eventBreakdown] are the objects held by the map
    [eventEntries], so the in-place sort of each [event.athletes] is seen
    through the returned array. *)
Definition buildResult (localeCompare : string -> string -> Z)
    (teamName gender grade : string)
    (state : list AthleteEntry * JSMap.t EventEntry) : OptimizationResult :=
  let (athleteEntries, eventEntries) := state in
  let athleteEntries :=
    sortBy (fun a b => projectedPoints b - projectedPoints a)
           athleteEntries in
  let eventBreakdown :=
    sortBy (fun a b => localeCompare (event a) (event b))
           (JSMap.values eventEntries) in
  let eventBreakdown :=
    map (sortAthletes
           (fun a b => ea_projectedPlace a - ea_projectedPlace b))
        eventBreakdown in
  let totalPoints :=
    fold_left (fun sum a => sum + projectedPoints a) athleteEntries 0 in
  {| school := teamName;
     or_gender := gender;
     or_grade := grade;
     totalProjectedPoints := totalPoints;
     athleteEntries := athleteEntries;
     eventBreakdown := eventBreakdown |}.

(** [optimize] once the rankings are loaded. *)
Definition optimizeRankings (localeCompare : string -> string -> Z)
    (allRankings : list EventRankingData) (teamName gender grade : string)
  : Exc OptimizationResult :=
  let scores := athleteScores allRankings teamName in
  let athletes := JSMap.keys scores in
  state <- foldM (processAthlete allRankings scores) athletes
                 ([], JSMap.empty) ;;
  Ok (buildResult localeCompare teamName gender grade state).

Definition optimize (localeCompare : string -> string -> Z)
    (fs : FileSystem) (rankingsDir season teamName gender grade : string)
  : Exc OptimizationResult :=
  allRankings <- loadRankings fs rankingsDir season gender grade ;;
  optimizeRankings localeCompare allRankings teamName gender grade.

(** [generateReport]: the array [lines], then the joined text.  Numbers
    are interpolated through [showNumber]. *)
Definition reportLines (showNumber : Z -> string)
    (result : OptimizationResult) : list string :=
  [ "═══════════════════════════════════════════════════════════";
    "  OPTIMIZED TEAM ENTRY (SIMPLE METHOD)";
    "═══════════════════════════════════════════════════════════";
    EmptyString;
    ("School: " ++ school result)%string;
    ("Gender: " ++ or_gender result)%string;
    ("Grade: " ++ or_grade result)%string;
    ("Projected Total Points: "
     ++ showNumber (totalProjectedPoints result))%string;
    EmptyString ]
  ++ [ "─────────────────────────────────────────────────────────";
       "ATHLETE ENTRIES";
       "─────────────────────────────────────────────────────────";
       EmptyString ]
  ++ flat_map
       (fun a =>
          [ (athlete a ++ " - " ++ showNumber (projectedPoints a)
             ++ " points")%string ]
          ++ flat_map
               (fun ev =>
                  match findAthleteData result a ev with
                  | Some (eventData, athleteData) =>
                      [ ("  - " ++ ee_eventName eventData ++ ": Rank "
                         ++ showNumber (ea_currentRank athleteData) ++ " → "
                         ++ showNumber (ea_projectedPoints athleteData)
                         ++ " pts")%string ]
                  | None => []
                  end) (events a)
          ++ [ EmptyString ])
       (athleteEntries result)
  ++ [ "─────────────────────────────────────────────────────────";
       "EVENT BREAKDOWN";
       "─────────────────────────────────────────────────────────";
       EmptyString ]
  ++ flat_map
       (fun e =>
          [ (ee_eventName e ++ " (" ++ event e ++ ")")%string ]
          ++ map (fun a =>
                    ("  " ++ showNumber (ea_projectedPlace a) ++ ". "
                     ++ ea_athlete a ++ " - "
                     ++ showNumber (ea_projectedPoints a) ++ " pts")%string)
                 (athletes e)
          ++ [ EmptyString ])
       (eventBreakdown result).

Definition generateReport (showNumber : Z -> string)
    (result : OptimizationResult) : string :=
  String.concat (String (ascii_of_nat 10) EmptyString)
                (reportLines showNumber result).

End SimpleTeamEntryOptimizer.

(* ================================================================= *)
(** ** src/track/team-entry-optimizer-advanced.ts *)

Module AdvancedTeamEntryOptimizer.

Definition POINTS_TABLE : list (Z * Z) :=
  [(1, 8); (2, 6); (3, 4); (4, 2); (5, 1)].

(** [POINTS_TABLE[place] || 0]. *)
Definition pointsAt (place : Z) : Z :=
  match find_first (fun kv => fst kv =? place) POINTS_TABLE with
  | Some kv => if snd kv =? 0 then 0 else snd kv
  | None => 0
  end.

Record AthleteEventScore : Type := mkAthleteEventScore {
  aes_athlete : string;
  aes_team : string;
  aes_event : string;
  aes_rank : Z;
  aes_projectedPlace : Z;
  aes_points : Z
}.

Definition loadRankings (fs : FileSystem)
    (rankingsDir season gender grade : string)
  : Exc (list EventRankingData) :=
  match fs rankingsDir with
  | None => Throw (DirNotFound rankingsDir)
  | Some NotListable => Throw (ReaddirError rankingsDir)
  | Some (Listing listing) =>
      let files :=
        filter (fun f =>
                  startsWith ("event_rankings_" ++ season ++ "_")%string (fst f)
                  && endsWith ".json" (fst f)) listing in
      foldM (fun rankings f =>
               data <- match snd f with
                       | Unreadable =>
                           Throw (ReadFileError rankingsDir (fst f))
                       | Malformed => Throw (SyntaxError (fst f))
                       | NoCategories => Throw TypeError
                       | Parsed data => Ok data
                       end ;;
               category <- findCategory gender grade (categories data) ;;
               match category with
               | Some cat =>
                   Ok (rankings ++
                       [ {| eventAbbr := rf_eventAbbr data;
                            eventName := rf_event data;
                            gender := gender;
                            grade := grade;
                            rankings := fc_rankings cat |} ])
               | None => Ok rankings
               end) files []
  end.

Definition isValidCombination (events : list string) : bool :=
  if (4 <? List.length events)%nat then false
  else
    let has1600 := includes "1600" events in
    let has800 := includes "800" events in
    if has1600 && has800 then
      let runningEvents := filter ResultUtils.isTrackEvent events in
      let otherRunning :=
        filter (fun e => negb (String.eqb e "1600")
                         && negb (String.eqb e "800")) runningEvents in
      if (1 <? List.length otherRunning)%nat then false
      else if (List.length events =? 4)%nat then
        let fieldEvents := filter ResultUtils.isFieldEvent events in
        if (List.length fieldEvents =? 0)%nat then false else true
      else true
    else true.

(** The map [teamAthletes] built for one event. *)
Definition teamAthletes (eventData : EventRankingData)
  : JSMap.t (list string) :=
  fold_left
    (fun teams ranking =>
       JSMap.update (team ranking) []
         (fun athletes => athletes ++ [r_athlete ranking]) teams)
    (rankings eventData) JSMap.empty.

Definition predictCompetition (allRankings : list EventRankingData)
  : JSMap.t JSSet.t :=
  fold_left
    (fun likelyEntries eventData =>
       fold_left
         (fun likelyEntries entry =>
            let athletes := snd entry in
            let topAthletes :=
              firstn (Nat.min 3 (List.length athletes)) athletes in
            fold_left
              (fun likelyEntries athlete =>
                 JSMap.update athlete JSSet.empty
                   (JSSet.add (eventAbbr eventData)) likelyEntries)
              topAthletes likelyEntries)
         (JSMap.entries (teamAthletes eventData)) likelyEntries)
    allRankings JSMap.empty.

Definition calculateProjectedPlace (athlete event : string)
    (currentRank : Z) (likelyEntries : JSMap.t JSSet.t)
    (eventRankings : EventRankingData) : Z :=
  let competitorsAhead :=
    fold_left
      (fun competitorsAhead ranking =>
         if rank ranking <? currentRank then
           match JSMap.get (r_athlete ranking) likelyEntries with
           | Some athleteEvents =>
               if JSSet.has event athleteEvents
               then competitorsAhead + 1
               else competitorsAhead
           | None => competitorsAhead
           end
         else competitorsAhead)
      (rankings eventRankings) 0 in
  competitorsAhead + 1.

(** The loop of [optimize] that fills the map [athleteOptions]. *)
Definition athleteOptions (allRankings : list EventRankingData)
    (likelyEntries : JSMap.t JSSet.t) (teamName : string)
  : JSMap.t (list AthleteEventScore) :=
  fold_left
    (fun options eventData =>
       fold_left
         (fun options ranking =>
            if String.eqb (team ranking) teamName then
              let projectedPlace :=
                calculateProjectedPlace (r_athlete ranking)
                  (eventAbbr eventData) (rank ranking) likelyEntries
                  eventData in
              let points := pointsAt projectedPlace in
              JSMap.update (r_athlete ranking) []
                (fun l =>
                   l ++ [ {| aes_athlete := r_athlete ranking;
                             aes_team := teamName;
                             aes_event := eventAbbr eventData;
                             aes_rank := rank ranking;
                             aes_projectedPlace := projectedPlace;
                             aes_points := points |} ])
                options
            else options)
         (rankings eventData) options)
    allRankings JSMap.empty.

(** The comparator of [sortedOptions]. *)
Definition compareOptions (a b : AthleteEventScore) : Z :=
  if negb (aes_points b =? aes_points a)
  then aes_points b - aes_points a
  else aes_projectedPlace a - aes_projectedPlace b.

(** The greedy selection loop: [selectedEvents] and [selectedScores]. *)
Fixpoint selectOptions (sortedOptions : list AthleteEventScore)
    (selected : list string * list AthleteEventScore)
  : list string * list AthleteEventScore :=
  match sortedOptions with
  | [] => selected
  | option :: rest =>
      let (selectedEvents, selectedScores) := selected in
      if (4 <=? List.length selectedEvents)%nat then selected
      else
        let testEvents := selectedEvents ++ [aes_event option] in
        if isValidCombination testEvents
        then selectOptions rest
               (selectedEvents ++ [aes_event option],
                selectedScores ++ [option])
        else selectOptions rest selected
  end.

(** The body of the loop "Add to event breakdown". *)
Definition addToBreakdown (allRankings : list EventRankingData)
    (athlete : string) (eventEntries : JSMap.t EventEntry)
    (score : AthleteEventScore) : Exc (JSMap.t EventEntry) :=
  let eventData :=
    find_first (fun e => String.eqb (eventAbbr e) (aes_event score))
               allRankings in
  eventEntries <-
    (if negb (JSMap.has (aes_event score) eventEntries) then
       eventData <- nonNull eventData ;;
       Ok (JSMap.set (aes_event score)
             {| event := aes_event score;
                ee_eventName := eventName eventData;
                athletes := [] |} eventEntries)
     else Ok eventEntries) ;;
  entry <- nonNull (JSMap.get (aes_event score) eventEntries) ;;
  Ok (JSMap.set (aes_event score)
        (pushAthlete entry
           {| ea_athlete := athlete;
              ea_projectedPlace := aes_projectedPlace score;
              ea_projectedPoints := aes_points score;
              ea_currentRank := aes_rank score |})
        eventEntries).

(** The body of the loop over [athleteOptions.entries()]. *)
Definition processAthlete (allRankings : list EventRankingData)
    (state : list AthleteEntry * JSMap.t EventEntry)
    (entry : string * list AthleteEventScore)
  : Exc (list AthleteEntry * JSMap.t EventEntry) :=
  let (athleteEntries, eventEntries) := state in
  let (athlete, options) := entry in
  let sortedOptions := sortBy compareOptions options in
  let (selectedEvents, selectedScores) := selectOptions sortedOptions ([], []) in
  let totalPoints :=
    fold_left (fun sum s => sum + aes_points s) selectedScores 0 in
  if (0 <? List.length selectedEvents)%nat then
    let (firstName, lastNameParts) := firstAndRest (splitSpace athlete) in
    let athleteEntries :=
      athleteEntries ++
      [ {| athlete := athlete;
           firstName := firstName;
           lastName := joinSpace lastNameParts;
           events := selectedEvents;
           projectedPoints := totalPoints |} ] in
    eventEntries <-
      foldM (addToBreakdown allRankings athlete) selectedScores
            eventEntries ;;
    Ok (athleteEntries, eventEntries)
  else Ok (athleteEntries, eventEntries).

(** "Sort results" and the returned object.  The elements of
    [eventBreakdown] are the objects held by the map [eventEntries], so the
    in-place sort of each [event.athletes] is seen through the returned
    array. *)
Definition buildResult (localeCompare : string -> string -> Z)
    (teamName gender grade : string)
    (state : list AthleteEntry * JSMap.t EventEntry) : OptimizationResult :=
  let (athleteEntries, eventEntries) := state in
  let athleteEntries :=
    sortBy (fun a b => projectedPoints b - projectedPoints a)
           athleteEntries in
  let eventBreakdown :=
    sortBy (fun a b => localeCompare (event a) (event b))
           (JSMap.values eventEntries) in
  let eventBreakdown :=
    map (sortAthletes
           (fun a b => ea_projectedPlace a - ea_projectedPlace b))
        eventBreakdown in
  let totalPoints :=
    fold_left (fun sum a => sum + projectedPoints a) athleteEntries 0 in
  {| school := teamName;
     or_gender := gender;
     or_grade := grade;
     totalProjectedPoints := totalPoints;
     athleteEntries := athleteEntries;
     eventBreakdown := eventBreakdown |}.

(** [optimize] once the rankings are loaded. *)
Definition optimizeRankings (localeCompare : string -> string -> Z)
    (allRankings : list EventRankingData) (teamName gender grade : string)
  : Exc OptimizationResult :=
  let likelyEntries := predictCompetition allRankings in
  let options := athleteOptions allRankings likelyEntries teamName in
  state <- foldM (processAthlete allRankings) (JSMap.entries options)
                 ([], JSMap.empty) ;;
  Ok (buildResult localeCompare teamName gender grade state).

Definition optimize (localeCompare : string -> string -> Z)
    (fs : FileSystem) (rankingsDir season teamName gender grade : string)
  : Exc OptimizationResult :=
  allRankings <- loadRankings fs rankingsDir season gender grade ;;
  optimizeRankings localeCompare allRankings teamName gender grade.

(** [generateReport]: the array [lines], then the joined text.  Numbers
    are interpolated through [showNumber]. *)
Definition reportLines (showNumber : Z -> string)
    (result : OptimizationResult) : list string :=
  [ "═══════════════════════════════════════════════════════════";
    "  OPTIMIZED TEAM ENTRY (ADVANCED METHOD)";
    "═══════════════════════════════════════════════════════════";
    EmptyString;
    ("School: " ++ school result)%string;
    ("Gender: " ++ or_gender result)%string;
    ("Grade: " ++ or_grade result)%string;
    ("Projected Total Points: "
     ++ showNumber (totalProjectedPoints result))%string;
    EmptyString;
    "Note: Projected placements account for likely competition";
    "      from other teams based on current rankings.";
    EmptyString ]
  ++ [ "─────────────────────────────────────────────────────────";
       "ATHLETE ENTRIES";
       "─────────────────────────────────────────────────────────";
       EmptyString ]
  ++ flat_map
       (fun a =>
          [ (athlete a ++ " - " ++ showNumber (projectedPoints a)
             ++ " points")%string ]
          ++ flat_map
               (fun ev =>
                  match findAthleteData result a ev with
                  | Some (eventData, athleteData) =>
                      [ ("  - " ++ ee_eventName eventData ++ ": Rank "
                         ++ showNumber (ea_currentRank athleteData)
                         ++ " → Proj. "
                         ++ showNumber (ea_projectedPlace athleteData)
                         ++ "th → "
                         ++ showNumber (ea_projectedPoints athleteData)
                         ++ " pts")%string ]
                  | None => []
                  end) (events a)
          ++ [ EmptyString ])
       (athleteEntries result)
  ++ [ "─────────────────────────────────────────────────────────";
       "EVENT BREAKDOWN";
       "─────────────────────────────────────────────────────────";
       EmptyString ]
  ++ flat_map
       (fun e =>
          [ (ee_eventName e ++ " (" ++ event e ++ ")")%string ]
          ++ map (fun a =>
                    ("  Proj. " ++ showNumber (ea_projectedPlace a) ++ ". "
                     ++ ea_athlete a ++ " (Rank "
                     ++ showNumber (ea_currentRank a) ++ ") - "
                     ++ showNumber (ea_projectedPoints a) ++ " pts")%string)
                 (athletes e)
          ++ [ EmptyString ])
       (eventBreakdown result).

Definition generateReport (showNumber : Z -> string)
    (result : OptimizationResult) : string :=
  String.concat (String (ascii_of_nat 10) EmptyString)
                (reportLines showNumber result).

End AdvancedTeamEntryOptimizer.


(* ================================================================= *)
(** ** Definitions used by the statements *)

(** "[other] is a running event besides the two distance events". *)
Definition isOtherRunning (e : string) : bool :=
  ResultUtils.isTrackEvent e
  && negb (String.eqb e "1600") && negb (String.eqb e "800").

(** The simpler predicate the combination check is compared with: at most
    4 events and, when both 1600 and 800 are present, at most one other
    track event. *)
Definition simplerPredicate (events : list string) : bool :=
  (List.length events <=? 4)%nat
  && (if includes "1600" events && includes "800" events
      then (List.length (filter isOtherRunning events) <=? 1)%nat
      else true).

(** Sums of points over the two parts of a result. *)
Definition sumEntryPoints (entries : list AthleteEntry) : Z :=
  fold_right (fun e acc => projectedPoints e + acc) 0 entries.

Definition sumRowPoints (rows : list EventAthlete) : Z :=
  fold_right (fun a acc => ea_projectedPoints a + acc) 0 rows.

Definition sumBreakdownPoints (breakdown : list EventEntry) : Z :=
  fold_right (fun ev acc => sumRowPoints (athletes ev) + acc) 0 breakdown.

(** Every ranking row of the loaded categories, paired with its category,
    in the order the optimizers visit them. *)
Definition rankingRows (allRankings : list EventRankingData)
  : list (EventRankingData * Ranking) :=
  flat_map (fun eventData => map (pair eventData) (rankings eventData))
           allRankings.

(** The rows whose [team] field is [teamName]. *)
Definition teamRows (allRankings : list EventRankingData) (teamName : string)
  : list (EventRankingData * Ranking) :=
  filter (fun p => String.eqb (team (snd p)) teamName)
         (rankingRows allRankings).

(** A category with the rows of every other team removed. *)
Definition keepTeam (teamName : string) (eventData : EventRankingData)
  : EventRankingData :=
  {| eventAbbr := eventAbbr eventData;
     eventName := eventName eventData;
     gender := gender eventData;
     grade := grade eventData;
     rankings := filter (fun r => String.eqb (team r) teamName)
                        (rankings eventData) |}.

(** What the simple optimizer's selection gives for one athlete's map of
    event scores. *)
Definition simpleSelection
    (eventScores : JSMap.t SimpleTeamEntryOptimizer.Score) : list string :=
  SimpleTeamEntryOptimizer.selectEvents
    (sortBy SimpleTeamEntryOptimizer.compareEvents
            (JSMap.entries eventScores)) [].

(** The option the advanced optimizer records for one row of the team. *)
Definition advancedOption (likelyEntries : JSMap.t JSSet.t)
    (teamName : string) (p : EventRankingData * Ranking)
  : AdvancedTeamEntryOptimizer.AthleteEventScore :=
  let projectedPlace :=
    AdvancedTeamEntryOptimizer.calculateProjectedPlace
      (r_athlete (snd p)) (eventAbbr (fst p)) (rank (snd p)) likelyEntries
      (fst p) in
  {| AdvancedTeamEntryOptimizer.aes_athlete := r_athlete (snd p);
     AdvancedTeamEntryOptimizer.aes_team := teamName;
     AdvancedTeamEntryOptimizer.aes_event := eventAbbr (fst p);
     AdvancedTeamEntryOptimizer.aes_rank := rank (snd p);
     AdvancedTeamEntryOptimizer.aes_projectedPlace := projectedPlace;
     AdvancedTeamEntryOptimizer.aes_points :=
       AdvancedTeamEntryOptimizer.pointsAt projectedPlace |}.

(** What the advanced optimizer's selection gives for one athlete's
    options. *)
Definition advancedSelection
    (options : list AdvancedTeamEntryOptimizer.AthleteEventScore)
  : list string * list AdvancedTeamEntryOptimizer.AthleteEventScore :=
  AdvancedTeamEntryOptimizer.selectOptions
    (sortBy AdvancedTeamEntryOptimizer.compareOptions options) ([], []).

(** The directory entries [loadRankings] reads for a season. *)
Definition rankingFilesOf (season : string)
    (listing : list (string * FileContent))
  : list (string * FileContent) :=
  filter (fun f =>
            startsWith ("event_rankings_" ++ season ++ "_")%string (fst f)
            && endsWith ".json" (fst f)) listing.

(** The category [loadRankings] picks from a parsed file, if any. *)
Definition matchingCategory (gender grade : string) (data : RankingFile)
  : Exc (option FileCategory) :=
  findCategory gender grade (categories data).

(** The result with no entry at all. *)
Definition emptyResult (teamName gender grade : string) : OptimizationResult :=
  {| school := teamName;
     or_gender := gender;
     or_grade := grade;
     totalProjectedPoints := 0;
     athleteEntries := [];
     eventBreakdown := [] |}.

(** The rows of one team in a category, in the order of the category. *)
Definition rowsOfTeam (eventData : EventRankingData) (teamName : string)
  : list Ranking :=
  filter (fun r => String.eqb (team r) teamName) (rankings eventData).

(** The team's first min(3, number of its athletes) rows. *)
Definition topRows (eventData : EventRankingData) (teamName : string)
  : list Ranking :=
  firstn (Nat.min 3 (List.length (rowsOfTeam eventData teamName)))
         (rowsOfTeam eventData teamName).

(** The likely-competing set of a category as the specification words
    it: the athletes of the top rows of some team. *)
Definition likelyCompeting (eventData : EventRankingData) (name : string)
  : bool :=
  existsb (fun t =>
             existsb (fun r => String.eqb (r_athlete r) name)
                     (topRows eventData t))
          (map team (rankings eventData)).

(** The likely-competing set of an event code: the union over the loaded
    categories that carry the code. *)
Definition likelyForEvent (allRankings : list EventRankingData)
    (e name : string) : bool :=
  existsb (fun eventData =>
             String.eqb (eventAbbr eventData) e
             && likelyCompeting eventData name) allRankings.

(** The (athlete, event) pairs [predictCompetition] records, in order. *)
Definition likelyPairs (allRankings : list EventRankingData)
  : list (string * string) :=
  flat_map
    (fun eventData =>
       flat_map
         (fun entry =>
            map (fun a => (a, eventAbbr eventData))
                (firstn (Nat.min 3 (List.length (snd entry))) (snd entry)))
         (JSMap.entries (AdvancedTeamEntryOptimizer.teamAthletes eventData)))
    allRankings.

(** "Event [e] is in the set stored for [name]". *)
Definition likelyIn (likelyEntries : JSMap.t JSSet.t) (e name : string)
  : bool :=
  match JSMap.get name likelyEntries with
  | Some athleteEvents => JSSet.has e athleteEvents
  | None => false
  end.

(* ================================================================= *)
(** ** Sample data *)

(** Comparison of strings by code units, a concrete collation. *)
Definition codeUnitCompare (a b : string) : Z :=
  match String.compare a b with
  | Lt => -1
  | Eq => 0
  | Gt => 1
  end.

(** A ranking file with one category per gender for the 7th grade. *)
Definition sampleFile (abbr name : string) (male female : list Ranking)
  : string * FileContent :=
  (("event_rankings_2025_" ++ abbr ++ ".json")%string,
   Parsed {| rf_eventAbbr := abbr;
             rf_event := name;
             categories :=
               [ Some {| fc_gender := "Female"; fc_grade := "7th grade";
                         fc_rankings := female |};
                 Some {| fc_gender := "Male"; fc_grade := "7th grade";
                         fc_rankings := male |} ] |}).

(** The boys' 200 m rows: four athletes of "Quail", three of "Tigers". *)
Definition sample200Rows : list Ranking :=
  [ mkRanking 1 "Yan Yew" "Tigers";
    mkRanking 2 "Zed Zorn" "Tigers";
    mkRanking 3 "Cy Cedar" "Rams";
    mkRanking 4 "Ann Alder" "Quail";
    mkRanking 5 "Bob Birch" "Quail";
    mkRanking 6 "Dee Dogwood" "Quail";
    mkRanking 7 "Eli Elm" "Quail";
    mkRanking 8 "Max Maple" "Tigers" ].

(** A rankings directory ["rankings"] for season 2025, a file of it taken
    as a directory, and a directory ["foreign"] whose second ranking file
    is JSON without a [categories] array. *)
Definition sampleFS : FileSystem :=
  fun dir =>
    if String.eqb dir "rankings" then
      Some (Listing
        [ sampleFile "1600" "1600 Meter Run"
            [ mkRanking 1 "Ann Alder" "Quail";
              mkRanking 2 "Yan Yew" "Tigers";
              mkRanking 3 "Zed Zorn" "Tigers" ]
            [ mkRanking 1 "Fay Fir" "Tigers" ];
          sampleFile "800" "800 Meter Run"
            [ mkRanking 1 "Zed Zorn" "Tigers";
              mkRanking 2 "Bob Birch" "Quail";
              mkRanking 3 "Yan Yew" "Tigers" ]
            [];
          ("notes.txt", Malformed);
          sampleFile "200" "200 Meter Dash" sample200Rows [];
          sampleFile "400" "400 Meter Dash"
            [ mkRanking 1 "Zed Zorn" "Tigers";
              mkRanking 2 "Cy Cedar" "Rams" ]
            [];
          sampleFile "LJ" "Long Jump"
            [ mkRanking 1 "Yan Yew" "Tigers";
              mkRanking 2 "Dee Dogwood" "Quail";
              mkRanking 3 "Max Maple" "tigers" ]
            [] ])
    else if String.eqb dir "rankings/notes.txt" then Some NotListable
    else if String.eqb dir "foreign" then
      Some (Listing
        [ sampleFile "100" "100 Meter Dash"
            [ mkRanking 1 "Yan Yew" "Tigers" ] [];
          ("event_rankings_2025_export.json", NoCategories);
          ("event_rankings_2025_old.json", Malformed) ])
    else None.

(** The categories loaded from the sample directory for the boys of the
    7th grade, and the 200 m category among them. *)
Definition sampleRankings : list EventRankingData :=
  match SimpleTeamEntryOptimizer.loadRankings sampleFS "rankings" "2025"
          "Male" "7th grade" with
  | Ok allRankings => allRankings
  | Throw _ => []
  end.

Definition sample200 : EventRankingData :=
  {| eventAbbr := "200"; eventName := "200 Meter Dash";
     gender := "Male"; grade := "7th grade";
     rankings := sample200Rows |}.


(** A 100 m category with a rival ahead of the team's athlete, and the
    same category without the rival's row. *)
Definition dashWithRival : EventRankingData :=
  {| eventAbbr := "100"; eventName := "100 Meter Dash";
     gender := "Male"; grade := "7th grade";
     rankings := [ mkRanking 1 "Ann Alder" "Quail";
                   mkRanking 2 "Yan Yew" "Tigers" ] |}.

Definition dashWithoutRival : EventRankingData :=
  {| eventAbbr := "100"; eventName := "100 Meter Dash";
     gender := "Male"; grade := "7th grade";
     rankings := [ mkRanking 2 "Yan Yew" "Tigers" ] |}.

(* ================================================================= *)
(** ** The optimizers as one pass over the athletes' picks *)

(** The row the simple optimizer pushes for a selected event. *)
Definition simpleRow (a : string) (score : SimpleTeamEntryOptimizer.Score)
  : EventAthlete :=
  {| ea_athlete := a;
     ea_projectedPlace := SimpleTeamEntryOptimizer.s_rank score;
     ea_projectedPoints := SimpleTeamEntryOptimizer.s_points score;
     ea_currentRank := SimpleTeamEntryOptimizer.s_rank score |}.

(** The row the advanced optimizer pushes for a selected option. *)
Definition advancedRow (a : string)
    (score : AdvancedTeamEntryOptimizer.AthleteEventScore) : EventAthlete :=
  {| ea_athlete := a;
     ea_projectedPlace := AdvancedTeamEntryOptimizer.aes_projectedPlace score;
     ea_projectedPoints := AdvancedTeamEntryOptimizer.aes_points score;
     ea_currentRank := AdvancedTeamEntryOptimizer.aes_rank score |}.

(** The name of the first loaded category with the event code (the empty
    string stands for "no such category"). *)
Definition eventNameOf (allRankings : list EventRankingData) (e : string)
  : string :=
  match find_first (fun d => String.eqb (eventAbbr d) e) allRankings with
  | Some d => eventName d
  | None => EmptyString
  end.

(** One push into the event breakdown: a pick is an event code with the
    row to add under it. *)
Definition addRow (allRankings : list EventRankingData)
    (eventEntries : JSMap.t EventEntry) (pick : string * EventAthlete)
  : JSMap.t EventEntry :=
  JSMap.update (fst pick)
    {| event := fst pick;
       ee_eventName := eventNameOf allRankings (fst pick);
       athletes := [] |}
    (fun entry => pushAthlete entry (snd pick)) eventEntries.

(** The entry pushed for an athlete with the given picks. *)
Definition entryOf (a : string) (picks : list (string * EventAthlete))
  : AthleteEntry :=
  {| athlete := a;
     firstName := fst (firstAndRest (splitSpace a));
     lastName := joinSpace (snd (firstAndRest (splitSpace a)));
     events := map fst picks;
     projectedPoints := sumRowPoints (map snd picks) |}.

(** One turn of the loop over the athletes, on the athlete's picks. *)
Definition recordAthlete (allRankings : list EventRankingData)
    (state : list AthleteEntry * JSMap.t EventEntry)
    (ap : string * list (string * EventAthlete))
  : list AthleteEntry * JSMap.t EventEntry :=
  match snd ap with
  | [] => state
  | _ :: _ =>
      (fst state ++ [entryOf (fst ap) (snd ap)],
       fold_left (addRow allRankings) (snd ap) (snd state))
  end.

(** The picks of an athlete in the simple optimizer. *)
Definition simplePicks (a : string)
    (eventScores : JSMap.t SimpleTeamEntryOptimizer.Score)
  : list (string * EventAthlete) :=
  flat_map (fun e =>
              match JSMap.get e eventScores with
              | Some score => [(e, simpleRow a score)]
              | None => []
              end) (simpleSelection eventScores).

(** The picks of an athlete in the advanced optimizer. *)
Definition advancedPicks (a : string)
    (options : list AdvancedTeamEntryOptimizer.AthleteEventScore)
  : list (string * EventAthlete) :=
  map (fun score =>
         (AdvancedTeamEntryOptimizer.aes_event score, advancedRow a score))
      (snd (advancedSelection options)).

(** The athletes of the team with their picks, in the order of the loop. *)
Definition simpleAthletePicks (allRankings : list EventRankingData)
    (teamName : string) : list (string * list (string * EventAthlete)) :=
  map (fun kv => (fst kv, simplePicks (fst kv) (snd kv)))
      (JSMap.entries
         (SimpleTeamEntryOptimizer.athleteScores allRankings teamName)).

Definition advancedAthletePicks (allRankings : list EventRankingData)
    (teamName : string) : list (string * list (string * EventAthlete)) :=
  map (fun kv => (fst kv, advancedPicks (fst kv) (snd kv)))
      (JSMap.entries
         (AdvancedTeamEntryOptimizer.athleteOptions allRankings
            (AdvancedTeamEntryOptimizer.predictCompetition allRankings)
            teamName)).

(** The state after the loop, and the result built from it. *)
Definition recordAll (allRankings : list EventRankingData)
    (aps : list (string * list (string * EventAthlete)))
  : list AthleteEntry * JSMap.t EventEntry :=
  fold_left (recordAthlete allRankings) aps ([], JSMap.empty).

(** All picks of all athletes, each with its athlete, in loop order. *)
Definition allPicks (aps : list (string * list (string * EventAthlete)))
  : list (string * EventAthlete) :=
  flat_map snd aps.

(** "The pair is the simple optimizer or the advanced optimizer." *)
Definition isOptimizer
    (loadRankings :
       FileSystem -> string -> string -> string -> string ->
       Exc (list EventRankingData))
    (optimize :
       (string -> string -> Z) -> FileSystem ->
       string -> string -> string -> string -> string ->
       Exc OptimizationResult) : Prop :=
  (loadRankings = SimpleTeamEntryOptimizer.loadRankings /\
   optimize = SimpleTeamEntryOptimizer.optimize) \/
  (loadRankings = AdvancedTeamEntryOptimizer.loadRankings /\
   optimize = AdvancedTeamEntryOptimizer.optimize).

(** "The athlete has at least one pick." *)
Definition hasPicks (ap : string * list (string * EventAthlete)) : bool :=
  match snd ap with
  | [] => false
  | _ :: _ => true
  end.

(** The breakdown entry of an event code that holds the given rows. *)
Definition breakdownEntry (allRankings : list EventRankingData) (e : string)
    (rows : list EventAthlete) : EventEntry :=
  {| event := e;
     ee_eventName := eventNameOf allRankings e;
     athletes := rows |}.

(** The rows picked under an event code, in loop order. *)
Definition rowsUnder (e : string) (picks : list (string * EventAthlete))
  : list EventAthlete :=
  map snd (filter (fun p => String.eqb (fst p) e) picks).

(** The place each optimizer projects for a ranking row of a category:
    the current rank, or the place computed by the predictor. *)
Definition simplePlace (allRankings : list EventRankingData)
    (eventData : EventRankingData) (ranking : Ranking) : Z :=
  rank ranking.

Definition advancedPlace (allRankings : list EventRankingData)
    (eventData : EventRankingData) (ranking : Ranking) : Z :=
  AdvancedTeamEntryOptimizer.calculateProjectedPlace
    (r_athlete ranking) (eventAbbr eventData) (rank ranking)
    (AdvancedTeamEntryOptimizer.predictCompetition allRankings) eventData.

(** "The triple is the simple or the advanced optimizer with the place
    it projects." *)
Definition optimizerPlaces
    (loadRankings :
       FileSystem -> string -> string -> string -> string ->
       Exc (list EventRankingData))
    (optimize :
       (string -> string -> Z) -> FileSystem ->
       string -> string -> string -> string -> string ->
       Exc OptimizationResult)
    (place : list EventRankingData -> EventRankingData -> Ranking -> Z)
  : Prop :=
  (loadRankings = SimpleTeamEntryOptimizer.loadRankings /\
   optimize = SimpleTeamEntryOptimizer.optimize /\ place = simplePlace) \/
  (loadRankings = AdvancedTeamEntryOptimizer.loadRankings /\
   optimize = AdvancedTeamEntryOptimizer.optimize /\ place = advancedPlace).

(** "The breakdown row under event code [e] comes from a ranking row of
    the team": same athlete, same event, the row's rank as current rank,
    the optimizer's place for it and the table points of that place. *)
Definition rowFromRanking
    (place : list EventRankingData -> EventRankingData -> Ranking -> Z)
    (allRankings : list EventRankingData) (teamName e : string)
    (row : EventAthlete) : Prop :=
  exists eventData ranking,
    In eventData allRankings /\ In ranking (rankings eventData) /\
    team ranking = teamName /\ r_athlete ranking = ea_athlete row /\
    eventAbbr eventData = e /\
    ea_currentRank row = rank ranking /\
    ea_projectedPlace row = place allRankings eventData ranking /\
    ea_projectedPoints row =
    SimpleTeamEntryOptimizer.pointsAt (place allRankings eventData ranking).

(** The number of rows of a breakdown and of events of a list of
    entries. *)
Definition countRows (breakdown : list EventEntry) : nat :=
  fold_right (fun be acc => (List.length (athletes be) + acc)%nat) 0%nat
             breakdown.

Definition countEvents (entries : list AthleteEntry) : nat :=
  fold_right (fun e acc => (List.length (events e) + acc)%nat) 0%nat entries.

(** "The rows carry the ranks 1, 2, 3, ... in order", as the ranking
    files written by this repository have them. *)
Definition numbered (rows : list Ranking) : Prop :=
  map rank rows = map Z.of_nat (seq 1 (List.length rows)).

(* ================================================================= *)
(** ** Loading and reporting *)

(** What [loadRankings] does with one directory entry: the error it
    raises there, or the category it pushes, if the file has a matching
    one. *)
Definition loadedFrom (rankingsDir gender grade : string)
    (f : string * FileContent) : Exc (list EventRankingData) :=
  match snd f with
  | Unreadable => Throw (ReadFileError rankingsDir (fst f))
  | Malformed => Throw (SyntaxError (fst f))
  | NoCategories => Throw TypeError
  | Parsed data =>
      match matchingCategory gender grade data with
      | Throw e => Throw e
      | Ok (Some cat) =>
          Ok [ {| eventAbbr := rf_eventAbbr data;
                  eventName := rf_event data;
                  gender := gender;
                  grade := grade;
                  rankings := fc_rankings cat |} ]
      | Ok None => Ok []
      end
  end.

(** The error of a directory entry, and the categories of an entry
    without error. *)
Definition fileError (rankingsDir gender grade : string)
    (f : string * FileContent) : option Error :=
  match loadedFrom rankingsDir gender grade f with
  | Throw e => Some e
  | Ok _ => None
  end.

Definition fileCategories (rankingsDir gender grade : string)
    (f : string * FileContent) : list EventRankingData :=
  match loadedFrom rankingsDir gender grade f with
  | Throw _ => []
  | Ok l => l
  end.

(** The error of the first entry that has one. *)
Fixpoint firstError (rankingsDir gender grade : string)
    (files : list (string * FileContent)) : option Error :=
  match files with
  | [] => None
  | f :: rest =>
      match fileError rankingsDir gender grade f with
      | Some e => Some e
      | None => firstError rankingsDir gender grade rest
      end
  end.

(** "The triple is an optimizer with its loader and its report, whose
    heading has [heading] lines." *)
Definition isReportOf
    (optimize :
       (string -> string -> Z) -> FileSystem ->
       string -> string -> string -> string -> string ->
       Exc OptimizationResult)
    (reportLines : (Z -> string) -> OptimizationResult -> list string)
    (heading : nat) : Prop :=
  (optimize = SimpleTeamEntryOptimizer.optimize /\
   reportLines = SimpleTeamEntryOptimizer.reportLines /\
   heading = 9%nat) \/
  (optimize = AdvancedTeamEntryOptimizer.optimize /\
   reportLines = AdvancedTeamEntryOptimizer.reportLines /\
   heading = 12%nat).

(** The lines of a report without any of its event lines and rows. *)
Definition frameLines (heading : nat) (result : OptimizationResult) : nat :=
  (heading + 8 + 2 * List.length (athleteEntries result)
   + 2 * List.length (eventBreakdown result))%nat.

(** The events of an entry for which a report prints a line, and their
    number over all entries. *)
Definition shownEvents (result : OptimizationResult) (a : AthleteEntry)
  : list string :=
  filter (fun ev =>
            match findAthleteData result a ev with
            | Some _ => true
            | None => false
            end) (events a).

Definition countShown (result : OptimizationResult) : nat :=
  fold_right (fun a acc => (List.length (shownEvents result a) + acc)%nat)
             0%nat (athleteEntries result).

(** Decimal notation of an integer, as a template literal prints the
    integers below 10^21. *)
Definition showDigit (d : Z) : string :=
  String (ascii_of_nat (48 + Z.to_nat d)) EmptyString.

Fixpoint showDigits (fuel : nat) (n : Z) (acc : string) : string :=
  match fuel with
  | O => acc
  | S fuel' =>
      let acc' := (showDigit (n mod 10) ++ acc)%string in
      if n <? 10 then acc' else showDigits fuel' (n / 10) acc'
  end.

Definition decimal (n : Z) : string :=
  if n <? 0
  then ("-" ++ showDigits (S (Z.to_nat (Z.log2 (- n)))) (- n) EmptyString)%string
  else showDigits (S (Z.to_nat (Z.log2 n))) n EmptyString.

(** The points stored for an event code in an athlete's map of scores
    (0 when the map has no such key). *)
Definition scorePoints (eventScores : JSMap.t SimpleTeamEntryOptimizer.Score)
    (e : string) : Z :=
  match JSMap.get e eventScores with
  | Some score => SimpleTeamEntryOptimizer.s_points score
  | None => 0
  end.

(** "The rows are listed from most to fewest projected points." *)
Definition bestFirst (rows : list EventAthlete) : Prop :=
  StronglySorted
    (fun r s => ea_projectedPoints r >= ea_projectedPoints s) rows.

(** "The string contains a space." *)
Fixpoint hasSpace (s : string) : bool :=
  match s with
  | EmptyString => false
  | String c rest => Ascii.eqb c " "%char || hasSpace rest
  end.
(* ================================================================= *)
(** * Properties *)

(** ** Loops *)

Lemma bind_Ok_inv {A B : Type} (m : Exc A) (k : A -> Exc B) (b : B) :
  bind m k = Ok b -> exists a, m = Ok a /\ k a = Ok b.
Proof.
  destruct m as [a|e]; simpl; intros H; [eauto | discriminate].
Qed.

Lemma Ok_inj {A : Type} (a b : A) : Ok a = Ok b -> a = b.
Proof. intros H. now inversion H. Qed.

Lemma nonNull_Ok_inv {A : Type} (o : option A) (a : A) :
  nonNull o = Ok a -> o = Some a.
Proof.
  destruct o; simpl; intros H; inversion H; reflexivity.
Qed.

Lemma foldM_prefix_inv {A S : Type} (f : S -> A -> Exc S)
    (I : list A -> S -> Prop) (l : list A) (s s' : S) :
  I [] s ->
  (forall pre x acc acc',
      In x l -> I pre acc -> f acc x = Ok acc' -> I (pre ++ [x]) acc') ->
  foldM f l s = Ok s' ->
  I l s'.
Proof.
  intros H0 Hstep.
  assert (G : forall rest pre acc,
             incl rest l -> I pre acc ->
             foldM f rest acc = Ok s' -> I (pre ++ rest) s').
  { induction rest as [|x rest IH]; intros pre acc Hin Hpre Hrun; simpl in Hrun.
    - inversion Hrun; subst. now rewrite app_nil_r.
    - apply bind_Ok_inv in Hrun as (acc' & Hx & Hrest).
      replace (pre ++ x :: rest) with ((pre ++ [x]) ++ rest)
        by now rewrite <- app_assoc.
      apply IH with (acc := acc'); trivial.
      + intros y Hy. apply Hin. now right.
      + apply Hstep with (acc := acc); trivial. apply Hin. now left. }
  intros Hrun. apply (G l [] s); trivial. apply incl_refl.
Qed.

(** A loop whose body cannot throw on the elements it visits returns. *)
Lemma foldM_total {A S : Type} (f : S -> A -> Exc S) (l : list A) (s : S) :
  (forall x acc, In x l -> exists acc', f acc x = Ok acc') ->
  exists s', foldM f l s = Ok s'.
Proof.
  revert s. induction l as [|x rest IH]; intros s Hbody; simpl.
  - eauto.
  - destruct (Hbody x s (or_introl eq_refl)) as [acc' Hx]. rewrite Hx. simpl.
    apply IH. intros y acc Hy. apply Hbody. now right.
Qed.

(** A nested pair of loops visits the pairs (outer, inner) in order. *)
Lemma fold_left_nested {A B S : Type} (inner : A -> list B)
    (f : A -> S -> B -> S) (l : list A) (s : S) :
  fold_left (fun acc a => fold_left (f a) (inner a) acc) l s =
  fold_left (fun acc p => f (fst p) acc (snd p))
            (flat_map (fun a => map (pair a) (inner a)) l) s.
Proof.
  revert s. induction l as [|a rest IH]; intros s; simpl; trivial.
  rewrite fold_left_app, IH. f_equal.
  generalize (inner a). intros bs. revert s.
  induction bs as [|b bs IHb]; intros s; simpl; trivial.
Qed.

(** A guarded loop body only sees the elements that pass the guard. *)
Lemma fold_left_guard {A S : Type} (p : A -> bool) (f : S -> A -> S)
    (l : list A) (s : S) :
  fold_left (fun acc x => if p x then f acc x else acc) l s =
  fold_left f (filter p l) s.
Proof.
  revert s. induction l as [|x rest IH]; intros s; simpl; trivial.
  destruct (p x); simpl; apply IH.
Qed.

(* ----------------------------------------------------------------- *)
(** ** Maps *)

Module JSMapFacts.
Section Facts.
Context {V : Type}.
Implicit Types (m : JSMap.t V) (k : string) (v : V).

Lemma get_set_eq k v m : JSMap.get k (JSMap.set k v m) = Some v.
Proof.
induction m as [|[k' v'] rest IH]; simpl.
- now rewrite String.eqb_refl.
- destruct (String.eqb k' k) eqn:E; simpl; rewrite E; trivial.
Qed.

Lemma get_set_neq k k' v m :
k' <> k -> JSMap.get k' (JSMap.set k v m) = JSMap.get k' m.
Proof.
intros Hne. induction m as [|[k0 v0] rest IH]; simpl.
- destruct (String.eqb k k') eqn:E; trivial.
  apply String.eqb_eq in E. congruence.
- destruct (String.eqb k0 k) eqn:E; simpl.
  + apply String.eqb_eq in E. subst k0.
    destruct (String.eqb k k') eqn:E'; trivial.
    apply String.eqb_eq in E'. congruence.
  + now rewrite IH.
Qed.

Lemma has_true_iff k m : JSMap.has k m = true <-> In k (JSMap.keys m).
Proof.
unfold JSMap.has, JSMap.keys.
induction m as [|[k' v'] rest IH]; simpl.
- split; [discriminate | tauto].
- destruct (String.eqb k' k) eqn:E.
  + apply String.eqb_eq in E. split; auto.
  + apply String.eqb_neq in E. rewrite IH. split; auto.
    intros [H|H]; [congruence | trivial].
Qed.

Lemma get_Some_in k v m : JSMap.get k m = Some v -> In (k, v) m.
Proof.
induction m as [|[k' v'] rest IH]; simpl; [discriminate|].
destruct (String.eqb k' k) eqn:E.
- apply String.eqb_eq in E. intros H. inversion H; subst. now left.
- intros H. right. now apply IH.
Qed.

Lemma in_keys_get k m :
In k (JSMap.keys m) -> exists v, JSMap.get k m = Some v.
Proof.
intros H. apply has_true_iff in H. unfold JSMap.has in H.
destruct (JSMap.get k m); [eauto | discriminate].
Qed.

Lemma in_get_Some k v m :
NoDup (JSMap.keys m) -> In (k, v) m -> JSMap.get k m = Some v.
Proof.
unfold JSMap.keys.
induction m as [|[k' v'] rest IH]; simpl; [tauto|].
intros Hnd [H|H].
- inversion H; subst. now rewrite String.eqb_refl.
- inversion Hnd as [|? ? Hnotin Hnd']; subst.
  destruct (String.eqb k' k) eqn:E.
  + apply String.eqb_eq in E. subst k'. exfalso. apply Hnotin.
    change k with (fst (k, v)). now apply in_map.
  + now apply IH.
Qed.

Lemma keys_set k v m :
JSMap.keys (JSMap.set k v m) =
if JSMap.has k m then JSMap.keys m else JSMap.keys m ++ [k].
Proof.
unfold JSMap.has, JSMap.keys.
induction m as [|[k' v'] rest IH]; simpl; trivial.
destruct (String.eqb k' k) eqn:E; simpl; trivial.
rewrite IH. destruct (JSMap.get k rest); trivial.
Qed.

Lemma get_update_eq k init (mutate : V -> V) m :
JSMap.get k (JSMap.update k init mutate m) =
Some (mutate (match JSMap.get k m with Some v => v | None => init end)).
Proof.
unfold JSMap.update, JSMap.has.
destruct (JSMap.get k m) as [v|] eqn:E.
- rewrite E. apply get_set_eq.
- rewrite get_set_eq. apply get_set_eq.
Qed.

Lemma get_update_neq k k' init (mutate : V -> V) m :
k' <> k -> JSMap.get k' (JSMap.update k init mutate m) = JSMap.get k' m.
Proof.
intros Hne. unfold JSMap.update, JSMap.has.
destruct (JSMap.get k m) as [v|] eqn:E.
- rewrite E. now apply get_set_neq.
- rewrite get_set_eq. rewrite !get_set_neq; trivial.
Qed.

Lemma keys_update k init (mutate : V -> V) m :
JSMap.keys (JSMap.update k init mutate m) =
if JSMap.has k m then JSMap.keys m else JSMap.keys m ++ [k].
Proof.
unfold JSMap.update.
destruct (JSMap.has k m) eqn:E.
- unfold JSMap.has in E.
  destruct (JSMap.get k m) eqn:G; [|discriminate].
  rewrite keys_set. unfold JSMap.has. now rewrite G.
- rewrite get_set_eq, !keys_set, E.
  unfold JSMap.has at 1. now rewrite get_set_eq.
Qed.

Lemma NoDup_keys_update k init (mutate : V -> V) m :
NoDup (JSMap.keys m) ->
NoDup (JSMap.keys (JSMap.update k init mutate m)).
Proof.
intros Hnd. rewrite keys_update. destruct (JSMap.has k m) eqn:E; trivial.
apply NoDup_app; trivial.
- constructor; [simpl; tauto | constructor].
- intros x Hx [Hk|[]]. subst x.
  apply has_true_iff in Hx. congruence.
Qed.
End Facts.

(** Grouping loop: after [for x of l: update (key x) init (add x)], the
  value stored under [k] is what the elements with key [k] built, in
  their order. *)
Section Grouping.
Context {X V : Type} (key : X -> string) (init : V) (add : X -> V -> V).

Lemma get_group k l m :
JSMap.get k (JSMap.group key init add l m) =
match filter (fun x => String.eqb (key x) k) l with
| [] => JSMap.get k m
| xs =>
    Some (fold_left (fun v x => add x v) xs
            (match JSMap.get k m with Some v => v | None => init end))
end.
Proof.
unfold JSMap.group. revert m.
induction l as [|x rest IH]; intros m; simpl; trivial.
rewrite IH. destruct (String.eqb (key x) k) eqn:E.
- apply String.eqb_eq in E. subst k. rewrite get_update_eq.
  simpl. destruct (filter _ rest); trivial.
- apply String.eqb_neq in E.
  rewrite get_update_neq by congruence. trivial.
Qed.

Lemma get_group_empty k l :
JSMap.get k (JSMap.group key init add l JSMap.empty) =
match filter (fun x => String.eqb (key x) k) l with
| [] => None
| xs => Some (fold_left (fun v x => add x v) xs init)
end.
Proof. rewrite get_group. reflexivity. Qed.

Lemma get_group_Some k l v :
JSMap.get k (JSMap.group key init add l JSMap.empty) = Some v <->
filter (fun x => String.eqb (key x) k) l <> [] /\
v = fold_left (fun v x => add x v)
      (filter (fun x => String.eqb (key x) k) l) init.
Proof.
rewrite get_group_empty.
destruct (filter _ l) as [|y ys]; split.
- discriminate.
- intros [H _]. congruence.
- intros H. split; [discriminate | congruence].
- intros [_ H]. congruence.
Qed.

Lemma NoDup_keys_group l m :
NoDup (JSMap.keys m) ->
NoDup (JSMap.keys (JSMap.group key init add l m)).
Proof.
unfold JSMap.group. revert m.
induction l as [|x rest IH]; intros m H; simpl; trivial.
apply IH. now apply NoDup_keys_update.
Qed.

Lemma in_keys_group k l :
In k (JSMap.keys (JSMap.group key init add l JSMap.empty)) <->
exists x, In x l /\ key x = k.
Proof.
rewrite <- has_true_iff. unfold JSMap.has. rewrite get_group_empty.
destruct (filter _ l) as [|y ys] eqn:F.
- split; [discriminate|]. intros (x & Hx & Hk). exfalso.
  assert (Hin : In x (filter (fun x => String.eqb (key x) k) l)).
  { apply filter_In. split; trivial. now apply String.eqb_eq. }
  rewrite F in Hin. destruct Hin.
- split; trivial. intros _.
  assert (Hin : In y (filter (fun x => String.eqb (key x) k) l)).
  { rewrite F. now left. }
  apply filter_In in Hin as [Hy Hk]. apply String.eqb_eq in Hk. eauto.
Qed.
End Grouping.
End JSMapFacts.

(* ----------------------------------------------------------------- *)
(** ** Sorting *)

Section SortFacts.
Context {A : Type} (cmp : A -> A -> Z).

Lemma insertBy_perm x l : Permutation (insertBy cmp x l) (x :: l).
Proof.
  induction l as [|y rest IH]; simpl; trivial.
  destruct (cmp x y <=? 0); trivial.
  rewrite IH. apply perm_swap.
Qed.

Lemma sortBy_perm l : Permutation (sortBy cmp l) l.
Proof.
  induction l as [|x rest IH]; simpl; trivial.
  rewrite insertBy_perm. now constructor.
Qed.

Lemma sortBy_in x l : In x (sortBy cmp l) <-> In x l.
Proof.
  split; apply Permutation_in;
    [apply sortBy_perm | symmetry; apply sortBy_perm].
Qed.

Lemma sortBy_nil_inv l : sortBy cmp l = [] -> l = [].
Proof.
  intros H. apply Permutation_nil. rewrite <- H. apply sortBy_perm.
Qed.

Hypothesis cmp_total : forall a b, cmp a b <= 0 \/ cmp b a <= 0.
Hypothesis cmp_trans :
  forall a b c, cmp a b <= 0 -> cmp b c <= 0 -> cmp a c <= 0.

Lemma insertBy_sorted x l :
  StronglySorted (fun a b => cmp a b <= 0) l ->
  StronglySorted (fun a b => cmp a b <= 0) (insertBy cmp x l).
Proof.
  induction l as [|y rest IH]; intros Hs; simpl.
  - constructor; constructor.
  - inversion Hs as [|? ? Hrest Hall]; subst.
    destruct (cmp x y <=? 0) eqn:E.
    + apply Z.leb_le in E. constructor; trivial.
      constructor; trivial.
      eapply Forall_impl; [|exact Hall].
      intros z Hz. now apply cmp_trans with y.
    + apply Z.leb_gt in E. constructor; [now apply IH|].
      apply Forall_forall. intros z Hz.
      apply (Permutation_in _ (insertBy_perm x rest)) in Hz.
      destruct Hz as [Hz|Hz].
      * subst z. destruct (cmp_total x y); [lia | trivial].
      * rewrite Forall_forall in Hall. now apply Hall.
Qed.

Lemma sortBy_sorted l :
  StronglySorted (fun a b => cmp a b <= 0) (sortBy cmp l).
Proof.
  induction l as [|x rest IH]; simpl; [constructor|].
  now apply insertBy_sorted.
Qed.
End SortFacts.

(* ----------------------------------------------------------------- *)
(** ** The points table *)

Lemma simple_pointsAt_cases (place : Z) :
  SimpleTeamEntryOptimizer.pointsAt place =
  if place =? 1 then 8 else if place =? 2 then 6 else if place =? 3 then 4
  else if place =? 4 then 2 else if place =? 5 then 1 else 0.
Proof.
  destruct (Z.eq_dec place 1) as [->|N1]; [reflexivity|].
  destruct (Z.eq_dec place 2) as [->|N2]; [reflexivity|].
  destruct (Z.eq_dec place 3) as [->|N3]; [reflexivity|].
  destruct (Z.eq_dec place 4) as [->|N4]; [reflexivity|].
  destruct (Z.eq_dec place 5) as [->|N5]; [reflexivity|].
  unfold SimpleTeamEntryOptimizer.pointsAt, find_first,
    SimpleTeamEntryOptimizer.POINTS_TABLE.
  cbn [List.find fst snd].
  repeat match goal with
         | |- context [?a =? place] =>
             replace (a =? place) with false
               by (symmetry; apply Z.eqb_neq; congruence)
         | |- context [place =? ?a] =>
             replace (place =? a) with false
               by (symmetry; apply Z.eqb_neq; congruence)
         end.
  reflexivity.
Qed.

Lemma advanced_pointsAt_eq (place : Z) :
  AdvancedTeamEntryOptimizer.pointsAt place =
  SimpleTeamEntryOptimizer.pointsAt place.
Proof. reflexivity. Qed.

Ltac points_cases :=
  repeat match goal with
         | |- context [?a =? ?b] =>
             let E := fresh "E" in
             destruct (a =? b) eqn:E;
             [apply Z.eqb_eq in E | apply Z.eqb_neq in E]
         end.

(** C5. The points lookup of both optimizers is defined for every place:
    places 1..5 score 8, 6, 4, 2, 1 and every other place scores 0; hence
    it is non-increasing on the places 1..5 and 0 from place 6 on. *)
Theorem points_lookup_table :
  forall lookup,
    lookup = SimpleTeamEntryOptimizer.pointsAt \/
    lookup = AdvancedTeamEntryOptimizer.pointsAt ->
    (lookup 1 = 8 /\ lookup 2 = 6 /\ lookup 3 = 4 /\ lookup 4 = 2 /\
     lookup 5 = 1) /\
    (forall place, ~ (1 <= place <= 5) -> lookup place = 0) /\
    (forall r1 r2, 0 < r1 -> r1 < r2 -> r2 <= 5 -> lookup r1 >= lookup r2) /\
    (forall r, r >= 6 -> lookup r = 0).
Proof.
  intros lookup Hl.
  assert (H : forall p, lookup p = SimpleTeamEntryOptimizer.pointsAt p).
  { intros p. destruct Hl; subst; trivial. }
  repeat split; try (rewrite H; reflexivity).
  - intros place Hp. rewrite H, simple_pointsAt_cases. points_cases; lia.
  - intros r1 r2 H0 H12 H5. rewrite !H, !simple_pointsAt_cases.
    points_cases; lia.
  - intros r Hr. rewrite H, simple_pointsAt_cases. points_cases; lia.
Qed.

Lemma points_lookup_table_witness :
  AdvancedTeamEntryOptimizer.pointsAt 2 >= AdvancedTeamEntryOptimizer.pointsAt 4
  /\ AdvancedTeamEntryOptimizer.pointsAt 9 = 0.
Proof.
  pose proof (points_lookup_table AdvancedTeamEntryOptimizer.pointsAt
                (or_intror eq_refl)) as (_ & _ & Hmono & Hzero).
  split.
  - apply (Hmono 2 4); lia.
  - apply (Hzero 9); lia.
Defined.

(* ----------------------------------------------------------------- *)
(** ** The combination check *)

Lemma filter_filter {A : Type} (p q : A -> bool) (l : list A) :
  filter q (filter p l) = filter (fun x => p x && q x) l.
Proof.
  induction l as [|x rest IH]; simpl; trivial.
  destruct (p x); simpl; [destruct (q x)|]; now rewrite IH.
Qed.

Lemma includes_true_iff (x : string) (l : list string) :
  includes x l = true <-> In x l.
Proof.
  unfold includes. rewrite existsb_exists. split.
  - intros (e & He & Heq). apply String.eqb_eq in Heq. now subst.
  - intros H. exists x. split; trivial. apply String.eqb_refl.
Qed.

Lemma otherRunning_filter (events : list string) :
  filter (fun e => negb (String.eqb e "1600") && negb (String.eqb e "800"))
         (filter ResultUtils.isTrackEvent events) =
  filter isOtherRunning events.
Proof.
  rewrite filter_filter. apply filter_ext. intros e. unfold isOtherRunning.
  now rewrite andb_assoc.
Qed.

(** What a successful check says, clause by clause. *)
Lemma isValidCombination_true_iff (events : list string) :
  SimpleTeamEntryOptimizer.isValidCombination events = true <->
  (List.length events <= 4)%nat /\
  (In "1600" events -> In "800" events ->
   (List.length (filter isOtherRunning events) <= 1)%nat /\
   (List.length events = 4%nat ->
    filter ResultUtils.isFieldEvent events <> [])).
Proof.
  unfold SimpleTeamEntryOptimizer.isValidCombination.
  rewrite otherRunning_filter.
  destruct (Nat.ltb_spec 4 (List.length events)) as [Hlong|Hlen].
  { split; [discriminate | intros [H _]; lia]. }
  destruct (includes "1600" events) eqn:H16;
    [apply includes_true_iff in H16|];
    (destruct (includes "800" events) eqn:H8;
     [apply includes_true_iff in H8|]); simpl;
    try (split; [intros _; split; [lia|]; intros A B; exfalso | trivial];
         match goal with
         | E : includes ?x events = false, I : In ?x events |- _ =>
             apply includes_true_iff in I; congruence
         end).
  destruct (Nat.ltb_spec 1 (List.length (filter isOtherRunning events)))
    as [Hmany|Hfew].
  { split; [discriminate | intros [_ H]]. destruct (H H16 H8). lia. }
  destruct (Nat.eqb_spec (List.length events) 4) as [H4|H4].
  - destruct (filter ResultUtils.isFieldEvent events) as [|f fs] eqn:F; simpl.
    + split; [discriminate | intros [_ H]].
      destruct (H H16 H8) as [_ Hf]. now destruct (Hf H4).
    + split; trivial. intros _. split; [lia|]. intros _ _.
      split; [lia | discriminate].
  - split; trivial. intros _. split; [lia|]. intros _ _. split; [lia|tauto].
Qed.

Lemma advanced_isValidCombination_eq (events : list string) :
  AdvancedTeamEntryOptimizer.isValidCombination events =
  SimpleTeamEntryOptimizer.isValidCombination events.
Proof. reflexivity. Qed.

Lemma isValidCombination_length (events : list string) :
  SimpleTeamEntryOptimizer.isValidCombination events = true ->
  (List.length events <= 4)%nat.
Proof. intros H. now apply isValidCombination_true_iff in H. Qed.

Lemma isValidCombination_single (e : string) :
  SimpleTeamEntryOptimizer.isValidCombination [e] = true.
Proof.
  apply isValidCombination_true_iff. split; [simpl; lia|].
  intros [H16|[]] [H8|[]]. congruence.
Qed.

Lemma simplerPredicate_true_iff (events : list string) :
  simplerPredicate events = true <->
  (List.length events <= 4)%nat /\
  (In "1600" events -> In "800" events ->
   (List.length (filter isOtherRunning events) <= 1)%nat).
Proof.
  unfold simplerPredicate. rewrite andb_true_iff, Nat.leb_le.
  destruct (includes "1600" events) eqn:H16;
    [apply includes_true_iff in H16|];
    (destruct (includes "800" events) eqn:H8;
     [apply includes_true_iff in H8|]); simpl;
    try rewrite Nat.leb_le;
    try (split; [intros [L _]; split; trivial; intros A B; exfalso
                | intros [L _]; now split];
         match goal with
         | E : includes ?x events = false, I : In ?x events |- _ =>
             apply includes_true_iff in I; congruence
         end).
  split; intros [L H]; split; auto.
Qed.

(** In a duplicate-free list at most two entries are "1600" or "800". *)
Lemma distance_events_count (events : list string) :
  NoDup events ->
  (List.length
     (filter (fun e => String.eqb e "1600" || String.eqb e "800") events)
   <= 2)%nat.
Proof.
  intros Hnd.
  change 2%nat with (List.length ["1600"; "800"]).
  apply NoDup_incl_length; [now apply NoDup_filter|].
  intros e He. apply filter_In in He as [_ He].
  apply orb_true_iff in He as [He|He]; apply String.eqb_eq in He; subst;
    simpl; auto.
Qed.

(** With no field event, everything is "1600", "800" or another running
    event. *)
Lemma all_track_split (events : list string) :
  filter ResultUtils.isFieldEvent events = [] ->
  (List.length events <=
   List.length (filter isOtherRunning events)
   + List.length
       (filter (fun e => String.eqb e "1600" || String.eqb e "800") events))%nat.
Proof.
  induction events as [|e rest IH]; simpl; [lia|].
  unfold ResultUtils.isFieldEvent at 1. unfold isOtherRunning at 1.
  destruct (ResultUtils.isTrackEvent e) eqn:T; simpl; [|discriminate].
  intros H. specialize (IH H).
  destruct (String.eqb e "1600"); simpl; [lia|].
  destruct (String.eqb e "800"); simpl; lia.
Qed.

(** C10 (amended). On duplicate-free lists of event codes the combination
    check equals the simpler predicate "at most 4 events and, when both
    1600 and 800 are present, at most one other track event"; and the
    checks of the two optimizers are equal on every list. *)
Theorem isValidCombination_simpler_without_duplicates :
  (forall events,
      NoDup events ->
      SimpleTeamEntryOptimizer.isValidCombination events =
      simplerPredicate events) /\
  (forall events,
      AdvancedTeamEntryOptimizer.isValidCombination events =
      SimpleTeamEntryOptimizer.isValidCombination events).
Proof.
  split; [|intros; reflexivity].
  intros events Hnd.
  apply eq_true_iff_eq.
  rewrite isValidCombination_true_iff, simplerPredicate_true_iff.
  split; intros [Hlen H]; split; trivial; intros H16 H8.
  - now destruct (H H16 H8).
  - specialize (H H16 H8). split; trivial.
    intros H4 Hfield.
    pose proof (all_track_split events Hfield).
    pose proof (distance_events_count events Hnd).
    assert (3 <= List.length
                   (filter (fun e => String.eqb e "1600" || String.eqb e "800")
                           events))%nat by lia.
    lia.
Qed.

Lemma isValidCombination_simpler_without_duplicates_witness :
  SimpleTeamEntryOptimizer.isValidCombination ["1600"; "800"; "200"; "400"] =
  simplerPredicate ["1600"; "800"; "200"; "400"].
Proof.
  apply (proj1 isValidCombination_simpler_without_duplicates).
  repeat constructor; simpl; intuition discriminate.
Defined.

(** C10 (as stated) fails on a list with repeated codes: the check rejects
    it for want of a field event, the simpler predicate accepts it. *)
Lemma isValidCombination_simpler_counterexample :
  SimpleTeamEntryOptimizer.isValidCombination ["1600"; "800"; "1600"; "800"]
    = false /\
  AdvancedTeamEntryOptimizer.isValidCombination ["1600"; "800"; "1600"; "800"]
    = false /\
  simplerPredicate ["1600"; "800"; "1600"; "800"] = true.
Proof. repeat split; reflexivity. Qed.

(* ----------------------------------------------------------------- *)
(** ** Ranking rows *)

Lemma in_rankingRows (allRankings : list EventRankingData) eventData ranking :
  In (eventData, ranking) (rankingRows allRankings) <->
  In eventData allRankings /\ In ranking (rankings eventData).
Proof.
  unfold rankingRows. rewrite in_flat_map. split.
  - intros (d & Hd & Hp). apply in_map_iff in Hp as (r & Heq & Hr).
    inversion Heq; subst. auto.
  - intros [Hd Hr]. exists eventData. split; trivial.
    apply in_map_iff. eauto.
Qed.

Lemma in_teamRows (allRankings : list EventRankingData) teamName p :
  In p (teamRows allRankings teamName) <->
  In (fst p) allRankings /\ In (snd p) (rankings (fst p)) /\
  team (snd p) = teamName.
Proof.
  unfold teamRows. rewrite filter_In, String.eqb_eq.
  destruct p as [d r]. rewrite in_rankingRows. simpl. tauto.
Qed.

Lemma find_first_eventAbbr (allRankings : list EventRankingData) eventData :
  In eventData allRankings ->
  exists found,
    find_first (fun e => String.eqb (eventAbbr e) (eventAbbr eventData))
               allRankings = Some found.
Proof.
  intros Hin. unfold find_first.
  destruct (List.find _ allRankings) as [found|] eqn:F; [eauto|].
  apply (find_none _ _ F) in Hin. now rewrite String.eqb_refl in Hin.
Qed.

(* ----------------------------------------------------------------- *)
(** ** The simple optimizer, step by step *)

Module SimpleFacts.
Import SimpleTeamEntryOptimizer JSMapFacts.

(** The first loop groups the team's rows by athlete. *)
Lemma athleteScores_group allRankings teamName :
  athleteScores allRankings teamName =
  JSMap.group (fun p => r_athlete (snd p)) JSMap.empty
    (fun p => JSMap.set (eventAbbr (fst p))
                {| s_rank := rank (snd p);
                   s_points := pointsAt (rank (snd p)) |})
    (teamRows allRankings teamName) JSMap.empty.
Proof.
  unfold athleteScores, JSMap.group, teamRows, rankingRows.
  rewrite <- fold_left_guard.
  rewrite (fold_left_nested rankings
             (fun eventData scores ranking =>
                if String.eqb (team ranking) teamName
                then JSMap.update (r_athlete ranking) JSMap.empty
                       (JSMap.set (eventAbbr eventData)
                          {| s_rank := rank ranking;
                             s_points := pointsAt (rank ranking) |}) scores
                else scores)).
  reflexivity.
Qed.

(** Keys of a map filled by successive [set]s. *)
Lemma get_fold_set {X V : Type} (key : X -> string) (val : X -> V)
    (xs : list X) (m : JSMap.t V) (k : string) :
  (exists v, JSMap.get k
               (fold_left (fun m x => JSMap.set (key x) (val x) m) xs m)
             = Some v) <->
  (exists v, JSMap.get k m = Some v) \/ (exists x, In x xs /\ key x = k).
Proof.
  revert m. induction xs as [|x rest IH]; intros m; simpl.
  - split; [auto | intros [H|(x & [] & _)]; trivial].
  - rewrite IH. split.
    + intros [(v & Hv)|(y & Hy & Hk)]; [|right; eauto].
      destruct (string_dec k (key x)) as [->|Hne]; [right; eauto|].
      rewrite get_set_neq in Hv by trivial. left; eauto.
    + intros [(v & Hv)|(y & [Hy|Hy] & Hk)].
      * left. destruct (string_dec k (key x)) as [->|Hne].
        -- rewrite get_set_eq. eauto.
        -- rewrite get_set_neq by trivial. eauto.
      * subst. left. rewrite get_set_eq. eauto.
      * right. eauto.
Qed.

Lemma fold_set_nonempty {X V : Type} (key : X -> string) (val : X -> V)
    (xs : list X) (m : JSMap.t V) :
  xs <> [] \/ m <> [] ->
  fold_left (fun m x => JSMap.set (key x) (val x) m) xs m <> [].
Proof.
  revert m. induction xs as [|x rest IH]; intros m H; simpl.
  - destruct H; congruence.
  - apply IH. right. destruct m as [|[k v] m']; simpl; [discriminate|].
    destruct (String.eqb k (key x)); discriminate.
Qed.

(** The candidate events of an athlete are exactly the events of the
    rows that carry the athlete's name and the team's name. *)
Lemma athleteScores_candidates allRankings teamName a e :
  (exists eventScores score,
      JSMap.get a (athleteScores allRankings teamName) = Some eventScores /\
      JSMap.get e eventScores = Some score) <->
  (exists eventData ranking,
      In eventData allRankings /\ In ranking (rankings eventData) /\
      team ranking = teamName /\ r_athlete ranking = a /\
      eventAbbr eventData = e).
Proof.
  rewrite athleteScores_group.
  set (rows := teamRows allRankings teamName).
  split.
  - intros (evs & score & Hget & He).
    apply get_group_Some in Hget as [_ Hevs].
    assert (Hex : exists v, JSMap.get e evs = Some v) by eauto.
    rewrite Hevs in Hex.
    apply (get_fold_set (fun p => eventAbbr (fst p))
             (fun p => {| s_rank := rank (snd p);
                          s_points := pointsAt (rank (snd p)) |})) in Hex.
    destruct Hex as [(v & Hv)|(p & Hp & Hk)]; [discriminate|].
    apply filter_In in Hp as [Hp Ha].
    apply String.eqb_eq in Ha. apply in_teamRows in Hp as (Hd & Hr & Ht).
    exists (fst p), (snd p). auto.
  - intros (d & r & Hd & Hr & Ht & Ha & He).
    assert (Hp : In (d, r) (filter (fun p => String.eqb (r_athlete (snd p)) a)
                                   rows)).
    { apply filter_In. split; [|simpl; now apply String.eqb_eq].
      apply in_teamRows. simpl. auto. }
    assert (Hex : exists v,
               JSMap.get e
                 (fold_left (fun m p => JSMap.set (eventAbbr (fst p))
                     {| s_rank := rank (snd p);
                        s_points := pointsAt (rank (snd p)) |} m)
                   (filter (fun p => String.eqb (r_athlete (snd p)) a) rows)
                   JSMap.empty) = Some v).
    { apply (get_fold_set (fun p => eventAbbr (fst p))
             (fun p => {| s_rank := rank (snd p);
                          s_points := pointsAt (rank (snd p)) |})).
      right. exists (d, r). auto. }
    destruct Hex as (v & Hv). eexists. exists v. split; [|exact Hv].
    apply get_group_Some. split; [|reflexivity].
    intros E. rewrite E in Hp. destruct Hp.
Qed.

Lemma athleteScores_keys_NoDup allRankings teamName :
  NoDup (JSMap.keys (athleteScores allRankings teamName)).
Proof.
  rewrite athleteScores_group. apply NoDup_keys_group. constructor.
Qed.

Lemma athleteScores_keys allRankings teamName a :
  In a (JSMap.keys (athleteScores allRankings teamName)) <->
  (exists eventData ranking,
      In eventData allRankings /\ In ranking (rankings eventData) /\
      team ranking = teamName /\ r_athlete ranking = a).
Proof.
  rewrite athleteScores_group, in_keys_group. split.
  - intros (p & Hp & Ha). apply in_teamRows in Hp as (Hd & Hr & Ht).
    exists (fst p), (snd p). auto.
  - intros (d & r & Hd & Hr & Ht & Ha). exists (d, r). split; trivial.
    apply in_teamRows. simpl. auto.
Qed.

Lemma athleteScores_nonempty allRankings teamName a eventScores :
  JSMap.get a (athleteScores allRankings teamName) = Some eventScores ->
  eventScores <> [].
Proof.
  rewrite athleteScores_group. intros H.
  apply get_group_Some in H as [Hne ->].
  apply (fold_set_nonempty (fun p => eventAbbr (fst p))
           (fun p => {| s_rank := rank (snd p);
                        s_points := pointsAt (rank (snd p)) |})).
  now left.
Qed.

(** *** The greedy selection *)

Lemma selectEvents_valid sortedEvents selectedEvents :
  isValidCombination selectedEvents = true ->
  isValidCombination (selectEvents sortedEvents selectedEvents) = true.
Proof.
  revert selectedEvents.
  induction sortedEvents as [|[event score] rest IH]; intros sel Hsel;
    cbn [selectEvents]; trivial.
  destruct (4 <=? List.length sel)%nat; trivial.
  destruct (isValidCombination (sel ++ [event])) eqn:V; auto.
Qed.

Lemma selectEvents_extends sortedEvents selectedEvents :
  exists more,
    selectEvents sortedEvents selectedEvents = selectedEvents ++ more /\
    incl more (map fst sortedEvents).
Proof.
  revert selectedEvents.
  induction sortedEvents as [|[event score] rest IH]; intros sel;
    cbn [selectEvents map fst].
  - exists []. split; [now rewrite app_nil_r | apply incl_nil_l].
  - destruct (4 <=? List.length sel)%nat.
    { exists []. split; [now rewrite app_nil_r | apply incl_nil_l]. }
    destruct (isValidCombination (sel ++ [event])).
    + destruct (IH (sel ++ [event])) as (more & Heq & Hincl).
      exists (event :: more). rewrite Heq, <- app_assoc. split; trivial.
      intros x [Hx|Hx]; [now left | right; now apply Hincl].
    + destruct (IH sel) as (more & Heq & Hincl).
      exists more. split; trivial. now apply incl_tl.
Qed.

Lemma selectEvents_first candidate rest :
  selectEvents (candidate :: rest) [] <> [].
Proof.
  destruct candidate as [event score]. cbn [selectEvents List.length app].
  change (4 <=? 0)%nat with false. cbv iota.
  rewrite isValidCombination_single.
  destruct (selectEvents_extends rest [event]) as (more & Heq & _).
  simpl in Heq. rewrite Heq. discriminate.
Qed.
End SimpleFacts.

(* ----------------------------------------------------------------- *)
(** ** Point sums over the event breakdown *)

Lemma sumRowPoints_app rows a :
  sumRowPoints (rows ++ [a]) = sumRowPoints rows + ea_projectedPoints a.
Proof.
  induction rows as [|r rest IH]; simpl; [lia|]. rewrite IH. lia.
Qed.

Lemma sumBreakdownPoints_cons ev rest :
  sumBreakdownPoints (ev :: rest) =
  sumRowPoints (athletes ev) + sumBreakdownPoints rest.
Proof. reflexivity. Qed.

Lemma sumBreakdownPoints_set k v (m : JSMap.t EventEntry) :
  sumBreakdownPoints (JSMap.values (JSMap.set k v m)) =
  sumBreakdownPoints (JSMap.values m)
  - match JSMap.get k m with
    | Some old => sumRowPoints (athletes old)
    | None => 0
    end
  + sumRowPoints (athletes v).
Proof.
  unfold JSMap.values.
  induction m as [|[k' v'] rest IH]; cbn [JSMap.set JSMap.get].
  - cbn [map snd]. rewrite sumBreakdownPoints_cons. cbn. lia.
  - destruct (String.eqb k' k); cbn [map snd];
      rewrite !sumBreakdownPoints_cons; [lia|].
    rewrite IH. lia.
Qed.

Lemma sumBreakdownPoints_push k entry row (m : JSMap.t EventEntry) :
  JSMap.get k m = Some entry ->
  sumBreakdownPoints (JSMap.values (JSMap.set k (pushAthlete entry row) m)) =
  sumBreakdownPoints (JSMap.values m) + ea_projectedPoints row.
Proof.
  intros H. rewrite sumBreakdownPoints_set, H. simpl.
  rewrite sumRowPoints_app. lia.
Qed.

Lemma sumBreakdownPoints_new k name (m : JSMap.t EventEntry) :
  JSMap.has k m = false ->
  sumBreakdownPoints
    (JSMap.values
       (JSMap.set k {| event := k; ee_eventName := name; athletes := [] |} m))
  = sumBreakdownPoints (JSMap.values m).
Proof.
  unfold JSMap.has. intros H. rewrite sumBreakdownPoints_set.
  destruct (JSMap.get k m); [discriminate|]. simpl. lia.
Qed.

Lemma sumEntryPoints_app entries e :
  sumEntryPoints (entries ++ [e]) = sumEntryPoints entries + projectedPoints e.
Proof.
  induction entries as [|x rest IH]; simpl; [lia|]. rewrite IH. lia.
Qed.

Lemma sumEntryPoints_perm l l' :
  Permutation l l' -> sumEntryPoints l = sumEntryPoints l'.
Proof. induction 1; simpl; lia. Qed.

Lemma sumBreakdownPoints_perm l l' :
  Permutation l l' -> sumBreakdownPoints l = sumBreakdownPoints l'.
Proof. induction 1; simpl; lia. Qed.

Lemma sumRowPoints_perm l l' :
  Permutation l l' -> sumRowPoints l = sumRowPoints l'.
Proof. induction 1; simpl; lia. Qed.

Lemma sumBreakdownPoints_sortAthletes cmp l :
  sumBreakdownPoints (map (sortAthletes cmp) l) = sumBreakdownPoints l.
Proof.
  induction l as [|ev rest IH]; simpl; trivial.
  rewrite IH. f_equal. apply sumRowPoints_perm, sortBy_perm.
Qed.

Lemma fold_left_sum_entries l acc :
  fold_left (fun sum a => sum + projectedPoints a) l acc =
  acc + sumEntryPoints l.
Proof.
  revert acc. induction l as [|x rest IH]; intros acc; simpl; [lia|].
  rewrite IH. lia.
Qed.

(* ----------------------------------------------------------------- *)
(** ** The simple optimizer: one athlete, then all of them *)

Module SimpleLoop.
Import SimpleTeamEntryOptimizer JSMapFacts SimpleFacts.

Lemma simple_addToBreakdown_inv allRankings a eventScores eventEntries ev ee' :
  addToBreakdown allRankings a eventScores eventEntries ev = Ok ee' ->
  exists score,
    JSMap.get ev eventScores = Some score /\
    sumBreakdownPoints (JSMap.values ee') =
    sumBreakdownPoints (JSMap.values eventEntries) + s_points score.
Proof.
  unfold addToBreakdown. intros H.
  apply bind_Ok_inv in H as (score & Hscore & H).
  apply nonNull_Ok_inv in Hscore. exists score. split; trivial.
  apply bind_Ok_inv in H as (ee1 & Hee1 & H).
  apply bind_Ok_inv in H as (entry & Hentry & H).
  apply nonNull_Ok_inv in Hentry. inversion H; subst ee'. clear H.
  rewrite (sumBreakdownPoints_push _ _ _ _ Hentry). simpl. f_equal.
  destruct (JSMap.has ev eventEntries) eqn:Hhas; simpl in Hee1.
  - now inversion Hee1.
  - apply bind_Ok_inv in Hee1 as (d & _ & Hset). inversion Hset.
    now apply sumBreakdownPoints_new.
Qed.

Lemma simple_addToBreakdown_total allRankings a eventScores eventEntries ev :
  (exists score, JSMap.get ev eventScores = Some score) ->
  (exists d, find_first (fun e => String.eqb (eventAbbr e) ev) allRankings
             = Some d) ->
  exists ee', addToBreakdown allRankings a eventScores eventEntries ev
              = Ok ee'.
Proof.
  intros (score & Hscore) (d & Hd). unfold addToBreakdown.
  rewrite Hscore, Hd. simpl.
  destruct (JSMap.has ev eventEntries) eqn:Hhas; simpl.
  - unfold JSMap.has in Hhas.
    destruct (JSMap.get ev eventEntries); [simpl; eauto | discriminate].
  - rewrite get_set_eq. simpl. eauto.
Qed.

(** The athlete's total and the rows added to the breakdown carry the
    same points. *)
Lemma total_matches_rows allRankings a eventScores selected :
  forall sum0 total ee ee',
    foldM (fun sum ev =>
             score <- nonNull (JSMap.get ev eventScores) ;;
             Ok (sum + s_points score)) selected sum0 = Ok total ->
    foldM (addToBreakdown allRankings a eventScores) selected ee = Ok ee' ->
    sumBreakdownPoints (JSMap.values ee') -
    sumBreakdownPoints (JSMap.values ee) = total - sum0.
Proof.
  induction selected as [|ev rest IH]; intros sum0 total ee ee' Hsum Hrows;
    simpl in Hsum, Hrows.
  - inversion Hsum; inversion Hrows; subst. lia.
  - apply bind_Ok_inv in Hsum as (sum1 & Hs1 & Hsum).
    apply bind_Ok_inv in Hs1 as (score & Hscore & Hs1).
    apply nonNull_Ok_inv in Hscore. inversion Hs1; subst sum1.
    apply bind_Ok_inv in Hrows as (ee1 & He1 & Hrows).
    apply simple_addToBreakdown_inv in He1 as (score' & Hscore' & Hsum1).
    rewrite Hscore in Hscore'. inversion Hscore'; subst score'.
    specialize (IH _ _ _ _ Hsum Hrows). lia.
Qed.

(** What one turn of the loop over the athletes does. *)
Lemma simple_processAthlete_inv allRankings scores ae ee a ae' ee' :
  processAthlete allRankings scores (ae, ee) a = Ok (ae', ee') ->
  exists eventScores,
    JSMap.get a scores = Some eventScores /\
    let selected :=
      selectEvents (sortBy compareEvents (JSMap.entries eventScores)) [] in
    (selected = [] /\ ae' = ae /\ ee' = ee) \/
    (selected <> [] /\
     exists entry,
       ae' = ae ++ [entry] /\ athlete entry = a /\
       events entry = selected /\
       sumBreakdownPoints (JSMap.values ee') =
       sumBreakdownPoints (JSMap.values ee) + projectedPoints entry).
Proof.
  unfold processAthlete. intros H.
  apply bind_Ok_inv in H as (eventScores & Hget & H).
  apply nonNull_Ok_inv in Hget. exists eventScores. split; trivial.
  cbv zeta.
  set (selected :=
         selectEvents (sortBy compareEvents (JSMap.entries eventScores)) [])
    in *.
  apply bind_Ok_inv in H as (total & Htotal & H).
  destruct selected as [|e0 sel] eqn:Hsel.
  - left. simpl in H. inversion H. auto.
  - right. split; [discriminate|].
    change (0 <? List.length (e0 :: sel))%nat with true in H. cbv iota in H.
    destruct (firstAndRest (splitSpace a)) as [first rest].
    apply bind_Ok_inv in H as (ee1 & Hrows & H). inversion H; subst.
    eexists. split; [reflexivity|]. simpl. repeat split.
    pose proof (total_matches_rows _ _ _ _ _ _ _ _ Htotal Hrows). lia.
Qed.

Lemma simple_processAthlete_total allRankings scores state a eventScores :
  JSMap.get a scores = Some eventScores ->
  (forall ev, In ev (JSMap.keys eventScores) ->
              exists d, find_first (fun e => String.eqb (eventAbbr e) ev)
                                   allRankings = Some d) ->
  exists state', processAthlete allRankings scores state a = Ok state'.
Proof.
  intros Hget Hfind. destruct state as [ae ee]. unfold processAthlete.
  rewrite Hget. simpl bind.
  set (selected :=
         selectEvents (sortBy compareEvents (JSMap.entries eventScores)) []).
  assert (Hsel : forall ev, In ev selected ->
                            In ev (JSMap.keys eventScores)).
  { intros ev Hev. unfold selected in Hev.
    destruct (selectEvents_extends
                (sortBy compareEvents (JSMap.entries eventScores)) [])
      as (more & Heq & Hincl).
    rewrite Heq in Hev. simpl in Hev. apply Hincl in Hev.
    apply in_map_iff in Hev as (p & Hp & Hin).
    apply sortBy_in in Hin. unfold JSMap.keys. apply in_map_iff. eauto. }
  destruct (foldM_total
              (fun sum ev =>
                 score <- nonNull (JSMap.get ev eventScores) ;;
                 Ok (sum + s_points score)) selected 0) as (total & Htotal).
  { intros ev acc Hev. apply Hsel, in_keys_get in Hev as (v & Hv).
    rewrite Hv. simpl. eauto. }
  rewrite Htotal. simpl bind.
  destruct (0 <? List.length selected)%nat; [|eauto].
  destruct (firstAndRest (splitSpace a)) as [first rest].
  destruct (foldM_total (addToBreakdown allRankings a eventScores)
              selected ee) as (ee' & Hee').
  { intros ev acc Hev. apply simple_addToBreakdown_total.
    - now apply in_keys_get, Hsel.
    - now apply Hfind, Hsel. }
  rewrite Hee'. simpl. eauto.
Qed.
End SimpleLoop.

Module SimpleRun.
Import SimpleTeamEntryOptimizer JSMapFacts SimpleFacts SimpleLoop.

(** The state after the loop over all athletes of the team. *)
Lemma simple_athletes_loop_inv allRankings teamName ae ee :
  foldM (processAthlete allRankings (athleteScores allRankings teamName))
        (JSMap.keys (athleteScores allRankings teamName))
        ([], JSMap.empty) = Ok (ae, ee) ->
  map athlete ae = JSMap.keys (athleteScores allRankings teamName) /\
  Forall (fun entry =>
            exists eventScores,
              JSMap.get (athlete entry) (athleteScores allRankings teamName)
                = Some eventScores /\
              events entry = simpleSelection eventScores) ae /\
  sumBreakdownPoints (JSMap.values ee) = sumEntryPoints ae.
Proof.
  set (scores := athleteScores allRankings teamName).
  intros Hrun.
  apply (foldM_prefix_inv (processAthlete allRankings scores)
           (fun pre st =>
              map athlete (fst st) = pre /\
              Forall (fun entry =>
                        exists eventScores,
                          JSMap.get (athlete entry) scores = Some eventScores
                          /\ events entry = simpleSelection eventScores)
                     (fst st) /\
              sumBreakdownPoints (JSMap.values (snd st)) =
              sumEntryPoints (fst st))
           _ _ (ae, ee)) in Hrun; trivial.
  - simpl. repeat split; trivial.
  - intros pre a [ae0 ee0] [ae1 ee1] Ha (Hmap & Hall & Hsum) Hstep.
    simpl in Hmap, Hall, Hsum. simpl.
    apply simple_processAthlete_inv in Hstep as (evs & Hget & Hcases).
    destruct Hcases as [(Hnil & _)|(_ & entry & -> & Hath & Hev & Hs)].
    + exfalso.
      pose proof (athleteScores_nonempty _ _ _ _ Hget) as Hne.
      destruct (sortBy compareEvents (JSMap.entries evs)) as [|c cs] eqn:S.
      * apply sortBy_nil_inv in S. now apply Hne.
      * now apply selectEvents_first in Hnil.
    + rewrite map_app, Hmap, sumEntryPoints_app. simpl. rewrite Hath.
      repeat split; trivial; [|lia].
      apply Forall_app. split; trivial. constructor; [|constructor].
      exists evs. rewrite Hath. auto.
Qed.

Lemma simple_athletes_loop_total allRankings teamName :
  exists state,
    foldM (processAthlete allRankings (athleteScores allRankings teamName))
          (JSMap.keys (athleteScores allRankings teamName))
          ([], JSMap.empty) = Ok state.
Proof.
  apply foldM_total. intros a acc Ha.
  destruct (in_keys_get _ _ Ha) as (evs & Hget).
  apply simple_processAthlete_total with (eventScores := evs); trivial.
  intros ev Hev. destruct (in_keys_get _ _ Hev) as (score & Hscore).
  destruct (proj1 (athleteScores_candidates allRankings teamName a ev))
    as (d & r & Hd & _ & _ & _ & Hab); [eauto|].
  subst ev. now apply find_first_eventAbbr.
Qed.

(** [optimize] on loaded rankings returns, and what it returns. *)
Lemma simple_optimizeRankings_returns localeCompare allRankings teamName
    gender grade :
  exists ae ee,
    optimizeRankings localeCompare allRankings teamName gender grade =
    Ok (buildResult localeCompare teamName gender grade (ae, ee)) /\
    map athlete ae = JSMap.keys (athleteScores allRankings teamName) /\
    Forall (fun entry =>
              exists eventScores,
                JSMap.get (athlete entry)
                  (athleteScores allRankings teamName) = Some eventScores /\
                events entry = simpleSelection eventScores) ae /\
    sumBreakdownPoints (JSMap.values ee) = sumEntryPoints ae.
Proof.
  destruct (simple_athletes_loop_total allRankings teamName) as ([ae ee] & Hrun).
  exists ae, ee. split.
  - unfold optimizeRankings. cbv zeta. now rewrite Hrun.
  - now apply simple_athletes_loop_inv.
Qed.
End SimpleRun.

(* ----------------------------------------------------------------- *)
(** ** The advanced optimizer, step by step *)

Lemma fold_left_snoc_map {X Y : Type} (f : X -> Y) (xs : list X)
    (l0 : list Y) :
  fold_left (fun l x => l ++ [f x]) xs l0 = l0 ++ map f xs.
Proof.
  revert l0. induction xs as [|x rest IH]; intros l0; simpl.
  - now rewrite app_nil_r.
  - rewrite IH, <- app_assoc. reflexivity.
Qed.

Module AdvancedFacts.
Import AdvancedTeamEntryOptimizer JSMapFacts.

(** The loop over the rankings groups the team's rows by athlete. *)
Lemma athleteOptions_group allRankings likelyEntries teamName :
  athleteOptions allRankings likelyEntries teamName =
  JSMap.group (fun p => r_athlete (snd p)) []
    (fun p l => l ++ [advancedOption likelyEntries teamName p])
    (teamRows allRankings teamName) JSMap.empty.
Proof.
  unfold athleteOptions, JSMap.group, teamRows, rankingRows.
  rewrite <- fold_left_guard.
  rewrite (fold_left_nested rankings
             (fun eventData options ranking =>
                if String.eqb (team ranking) teamName
                then JSMap.update (r_athlete ranking) []
                       (fun l =>
                          l ++ [advancedOption likelyEntries teamName
                                  (eventData, ranking)]) options
                else options)).
  reflexivity.
Qed.

(** The options of an athlete are those of the rows that carry the
    athlete's name and the team's name, in order. *)
Lemma athleteOptions_get allRankings likelyEntries teamName a options :
  JSMap.get a (athleteOptions allRankings likelyEntries teamName)
    = Some options <->
  filter (fun p => String.eqb (r_athlete (snd p)) a)
         (teamRows allRankings teamName) <> [] /\
  options =
  map (advancedOption likelyEntries teamName)
      (filter (fun p => String.eqb (r_athlete (snd p)) a)
              (teamRows allRankings teamName)).
Proof.
  rewrite athleteOptions_group, get_group_Some.
  rewrite (fold_left_snoc_map (advancedOption likelyEntries teamName)).
  reflexivity.
Qed.

Lemma athleteOptions_keys_NoDup allRankings likelyEntries teamName :
  NoDup (JSMap.keys (athleteOptions allRankings likelyEntries teamName)).
Proof.
  rewrite athleteOptions_group. apply NoDup_keys_group. constructor.
Qed.

Lemma athleteOptions_keys allRankings likelyEntries teamName a :
  In a (JSMap.keys (athleteOptions allRankings likelyEntries teamName)) <->
  (exists eventData ranking,
      In eventData allRankings /\ In ranking (rankings eventData) /\
      team ranking = teamName /\ r_athlete ranking = a).
Proof.
  rewrite athleteOptions_group, in_keys_group. split.
  - intros (p & Hp & Ha). apply in_teamRows in Hp as (Hd & Hr & Ht).
    exists (fst p), (snd p). auto.
  - intros (d & r & Hd & Hr & Ht & Ha). exists (d, r). split; trivial.
    apply in_teamRows. simpl. auto.
Qed.

(** Every stored option comes from a row of the team. *)
Lemma athleteOptions_entry allRankings likelyEntries teamName a options :
  In (a, options)
     (JSMap.entries (athleteOptions allRankings likelyEntries teamName)) ->
  options <> [] /\
  forall option,
    In option options ->
    exists eventData ranking,
      In eventData allRankings /\ In ranking (rankings eventData) /\
      team ranking = teamName /\ r_athlete ranking = a /\
      option = advancedOption likelyEntries teamName (eventData, ranking).
Proof.
  intros Hin. unfold JSMap.entries in Hin.
  apply in_get_Some in Hin; [|apply athleteOptions_keys_NoDup].
  apply athleteOptions_get in Hin as [Hne ->]. split.
  - intros E. apply map_eq_nil in E. now apply Hne.
  - intros option Hopt. apply in_map_iff in Hopt as ([d r] & <- & Hp).
    apply filter_In in Hp as [Hp Ha]. apply String.eqb_eq in Ha.
    apply in_teamRows in Hp as (Hd & Hr & Ht). simpl in *.
    exists d, r. auto.
Qed.

(** *** The greedy selection *)

Lemma selectOptions_inv sortedOptions selected :
  fst selected = map aes_event (snd selected) ->
  isValidCombination (fst selected) = true ->
  let result := selectOptions sortedOptions selected in
  fst result = map aes_event (snd result) /\
  isValidCombination (fst result) = true /\
  (exists more, snd result = snd selected ++ more /\
                incl more sortedOptions).
Proof.
  revert selected.
  induction sortedOptions as [|option rest IH];
    intros [selectedEvents selectedScores] Hmap Hvalid;
    cbn [selectOptions fst snd] in *.
  - repeat split; trivial. exists []. split; [now rewrite app_nil_r|].
    apply incl_nil_l.
  - destruct (4 <=? List.length selectedEvents)%nat.
    { cbn [fst snd]. repeat split; trivial.
      exists []. split; [now rewrite app_nil_r | apply incl_nil_l]. }
    destruct (isValidCombination (selectedEvents ++ [aes_event option]))
      eqn:V.
    + assert (Hmap' : fst (selectedEvents ++ [aes_event option],
                           selectedScores ++ [option]) =
                      map aes_event
                        (snd (selectedEvents ++ [aes_event option],
                              selectedScores ++ [option]))).
      { cbn [fst snd]. rewrite map_app, Hmap. reflexivity. }
      destruct (IH _ Hmap' V) as (H1 & H2 & more & H3 & H4).
      repeat split; trivial. cbn [fst snd] in H3.
      exists (option :: more). rewrite H3, <- app_assoc. split; trivial.
      intros x [Hx|Hx]; [now left | right; now apply H4].
    + destruct (IH (selectedEvents, selectedScores) Hmap Hvalid)
        as (H1 & H2 & more & H3 & H4).
      repeat split; trivial. exists more. split; trivial.
      now apply incl_tl.
Qed.

Lemma selectOptions_first option rest :
  fst (selectOptions (option :: rest) ([], [])) <> [].
Proof.
  cbn [selectOptions List.length app].
  change (4 <=? 0)%nat with false. cbv iota.
  rewrite advanced_isValidCombination_eq, isValidCombination_single.
  destruct (selectOptions_inv rest ([aes_event option], [option])
              eq_refl (isValidCombination_single _))
    as (H1 & _ & more & H3 & _).
  cbn [fst snd] in H3. rewrite H1, H3. discriminate.
Qed.

(** *** One athlete *)

Lemma advanced_addToBreakdown_inv allRankings a eventEntries score ee' :
  addToBreakdown allRankings a eventEntries score = Ok ee' ->
  sumBreakdownPoints (JSMap.values ee') =
  sumBreakdownPoints (JSMap.values eventEntries) + aes_points score.
Proof.
  unfold addToBreakdown. intros H.
  apply bind_Ok_inv in H as (ee1 & Hee1 & H).
  apply bind_Ok_inv in H as (entry & Hentry & H).
  apply nonNull_Ok_inv in Hentry. inversion H; subst ee'. clear H.
  rewrite (sumBreakdownPoints_push _ _ _ _ Hentry). simpl. f_equal.
  destruct (JSMap.has (aes_event score) eventEntries) eqn:Hhas;
    simpl in Hee1.
  - now inversion Hee1.
  - apply bind_Ok_inv in Hee1 as (d & _ & Hset). inversion Hset.
    now apply sumBreakdownPoints_new.
Qed.

Lemma advanced_addToBreakdown_total allRankings a eventEntries score :
  (exists d, find_first (fun e => String.eqb (eventAbbr e) (aes_event score))
                        allRankings = Some d) ->
  exists ee', addToBreakdown allRankings a eventEntries score = Ok ee'.
Proof.
  intros (d & Hd). unfold addToBreakdown. rewrite Hd.
  destruct (JSMap.has (aes_event score) eventEntries) eqn:Hhas; simpl.
  - unfold JSMap.has in Hhas.
    destruct (JSMap.get (aes_event score) eventEntries);
      [simpl; eauto | discriminate].
  - rewrite get_set_eq. simpl. eauto.
Qed.

Lemma rows_match_scores allRankings a scores :
  forall ee ee',
    foldM (addToBreakdown allRankings a) scores ee = Ok ee' ->
    sumBreakdownPoints (JSMap.values ee') =
    sumBreakdownPoints (JSMap.values ee)
    + fold_right (fun s acc => aes_points s + acc) 0 scores.
Proof.
  induction scores as [|s rest IH]; intros ee ee' H; simpl in H.
  - inversion H. simpl. lia.
  - apply bind_Ok_inv in H as (ee1 & H1 & H).
    apply advanced_addToBreakdown_inv in H1. apply IH in H. simpl. lia.
Qed.

Lemma fold_left_sum_scores scores acc :
  fold_left (fun sum s => sum + aes_points s) scores acc =
  acc + fold_right (fun s acc => aes_points s + acc) 0 scores.
Proof.
  revert acc. induction scores as [|s rest IH]; intros acc; simpl; [lia|].
  rewrite IH. lia.
Qed.

Lemma advanced_processAthlete_inv allRankings ae ee a options ae' ee' :
  processAthlete allRankings (ae, ee) (a, options) = Ok (ae', ee') ->
  (fst (advancedSelection options) = [] /\ ae' = ae /\ ee' = ee) \/
  (fst (advancedSelection options) <> [] /\
   exists entry,
     ae' = ae ++ [entry] /\ athlete entry = a /\
     events entry = fst (advancedSelection options) /\
     sumBreakdownPoints (JSMap.values ee') =
     sumBreakdownPoints (JSMap.values ee) + projectedPoints entry).
Proof.
  unfold processAthlete, advancedSelection.
  destruct (selectOptions (sortBy compareOptions options) ([], []))
    as [selectedEvents selectedScores].
  cbn [fst]. intros H.
  destruct selectedEvents as [|e0 sel].
  - left. simpl in H. inversion H. auto.
  - right. split; [discriminate|].
    change (0 <? List.length (e0 :: sel))%nat with true in H. cbv iota in H.
    destruct (firstAndRest (splitSpace a)) as [first rest].
    apply bind_Ok_inv in H as (ee1 & Hrows & H). inversion H; subst.
    eexists. split; [reflexivity|]. simpl. repeat split.
    apply rows_match_scores in Hrows. rewrite Hrows.
    rewrite fold_left_sum_scores. lia.
Qed.

Lemma advanced_processAthlete_total allRankings state a options :
  (forall option,
      In option options ->
      exists d, find_first
                  (fun e => String.eqb (eventAbbr e) (aes_event option))
                  allRankings = Some d) ->
  exists state', processAthlete allRankings state (a, options) = Ok state'.
Proof.
  intros Hfind. destruct state as [ae ee]. unfold processAthlete.
  destruct (selectOptions_inv (sortBy compareOptions options) ([], [])
              eq_refl eq_refl)
    as (_ & _ & more & Hmore & Hincl).
  destruct (selectOptions (sortBy compareOptions options) ([], []))
    as [selectedEvents selectedScores].
  cbn [fst snd app] in Hmore. subst more.
  destruct (0 <? List.length selectedEvents)%nat; [|eauto].
  destruct (firstAndRest (splitSpace a)) as [first rest].
  destruct (foldM_total (addToBreakdown allRankings a) selectedScores ee)
    as (ee' & Hee').
  { intros s acc Hs. apply advanced_addToBreakdown_total, Hfind.
    apply Hincl in Hs. now apply sortBy_in in Hs. }
  rewrite Hee'. simpl. eauto.
Qed.
End AdvancedFacts.

Module AdvancedRun.
Import AdvancedTeamEntryOptimizer JSMapFacts AdvancedFacts.

Lemma advanced_athletes_loop_inv allRankings options ae ee :
  (forall a opts, In (a, opts) (JSMap.entries options) -> opts <> []) ->
  foldM (processAthlete allRankings) (JSMap.entries options)
        ([], JSMap.empty) = Ok (ae, ee) ->
  map athlete ae = JSMap.keys options /\
  Forall (fun entry =>
            exists opts,
              In (athlete entry, opts) (JSMap.entries options) /\
              events entry = fst (advancedSelection opts)) ae /\
  sumBreakdownPoints (JSMap.values ee) = sumEntryPoints ae.
Proof.
  intros Hne Hrun.
  apply (foldM_prefix_inv (processAthlete allRankings)
           (fun pre st =>
              map athlete (fst st) = map fst pre /\
              Forall (fun entry =>
                        exists opts,
                          In (athlete entry, opts) (JSMap.entries options)
                          /\ events entry = fst (advancedSelection opts))
                     (fst st) /\
              sumBreakdownPoints (JSMap.values (snd st)) =
              sumEntryPoints (fst st))
           _ _ (ae, ee)) in Hrun; trivial.
  - simpl. repeat split; trivial.
  - intros pre [a opts] [ae0 ee0] [ae1 ee1] Ha (Hmap & Hall & Hsum) Hstep.
    simpl in Hmap, Hall, Hsum. simpl.
    apply advanced_processAthlete_inv in Hstep.
    destruct Hstep as [(Hnil & _)|(_ & entry & -> & Hath & Hev & Hs)].
    + exfalso. unfold advancedSelection in Hnil.
      destruct (sortBy compareOptions opts) as [|c cs] eqn:S.
      * apply sortBy_nil_inv in S. now apply (Hne a opts).
      * now apply selectOptions_first in Hnil.
    + rewrite !map_app, Hmap, sumEntryPoints_app. simpl. rewrite Hath.
      repeat split; trivial; [|lia].
      apply Forall_app. split; trivial. constructor; [|constructor].
      exists opts. rewrite Hath. auto.
Qed.

Lemma advanced_optimizeRankings_returns localeCompare allRankings teamName
    gender grade :
  let options :=
    athleteOptions allRankings (predictCompetition allRankings) teamName in
  exists ae ee,
    optimizeRankings localeCompare allRankings teamName gender grade =
    Ok (buildResult localeCompare teamName gender grade (ae, ee)) /\
    map athlete ae = JSMap.keys options /\
    Forall (fun entry =>
              exists opts,
                In (athlete entry, opts) (JSMap.entries options) /\
                events entry = fst (advancedSelection opts)) ae /\
    sumBreakdownPoints (JSMap.values ee) = sumEntryPoints ae.
Proof.
  intros options.
  destruct (foldM_total (processAthlete allRankings)
              (JSMap.entries options) ([], JSMap.empty))
    as ([ae ee] & Hrun).
  { intros [a opts] acc Hin. apply advanced_processAthlete_total.
    intros option Hopt.
    destruct (athleteOptions_entry _ _ _ _ _ Hin) as [_ Hrows].
    destruct (Hrows option Hopt) as (d & r & Hd & _ & _ & _ & ->).
    simpl. now apply find_first_eventAbbr. }
  exists ae, ee. split.
  - unfold optimizeRankings. cbv zeta. fold options. now rewrite Hrun.
  - apply advanced_athletes_loop_inv with (allRankings := allRankings); trivial.
    intros a opts Hin. now destruct (athleteOptions_entry _ _ _ _ _ Hin).
Qed.
End AdvancedRun.

(* ----------------------------------------------------------------- *)
(** ** Results of [optimize] *)

Lemma simple_optimize_inv localeCompare fs rankingsDir season teamName
    gender grade result :
  SimpleTeamEntryOptimizer.optimize localeCompare fs rankingsDir season
    teamName gender grade = Ok result ->
  exists allRankings,
    SimpleTeamEntryOptimizer.loadRankings fs rankingsDir season gender grade
      = Ok allRankings /\
    SimpleTeamEntryOptimizer.optimizeRankings localeCompare allRankings
      teamName gender grade = Ok result.
Proof.
  unfold SimpleTeamEntryOptimizer.optimize. intros H.
  apply bind_Ok_inv in H as (allRankings & Hload & Hopt). eauto.
Qed.

Lemma advanced_optimize_inv localeCompare fs rankingsDir season teamName
    gender grade result :
  AdvancedTeamEntryOptimizer.optimize localeCompare fs rankingsDir season
    teamName gender grade = Ok result ->
  exists allRankings,
    AdvancedTeamEntryOptimizer.loadRankings fs rankingsDir season gender grade
      = Ok allRankings /\
    AdvancedTeamEntryOptimizer.optimizeRankings localeCompare allRankings
      teamName gender grade = Ok result.
Proof.
  unfold AdvancedTeamEntryOptimizer.optimize. intros H.
  apply bind_Ok_inv in H as (allRankings & Hload & Hopt). eauto.
Qed.

Lemma simple_selection_valid eventScores :
  SimpleTeamEntryOptimizer.isValidCombination (simpleSelection eventScores)
  = true.
Proof. now apply SimpleFacts.selectEvents_valid. Qed.

Lemma advanced_selection_valid options :
  SimpleTeamEntryOptimizer.isValidCombination
    (fst (advancedSelection options)) = true.
Proof.
  now destruct (AdvancedFacts.selectOptions_inv
                  (sortBy AdvancedTeamEntryOptimizer.compareOptions options)
                  ([], []) eq_refl eq_refl) as (_ & H & _).
Qed.

(** Every entry of a result carries a selection that passed the check and
    that holds at least one event. *)
Lemma simple_entry_selection localeCompare allRankings teamName gender grade
    result entry :
  SimpleTeamEntryOptimizer.optimizeRankings localeCompare allRankings
    teamName gender grade = Ok result ->
  In entry (athleteEntries result) ->
  SimpleTeamEntryOptimizer.isValidCombination (events entry) = true /\
  events entry <> [].
Proof.
  intros Hopt Hin.
  destruct (SimpleRun.simple_optimizeRankings_returns localeCompare allRankings
              teamName gender grade) as (ae & ee & Hres & _ & Hall & _).
  rewrite Hres in Hopt. inversion Hopt; subst result. clear Hopt.
  cbn in Hin. apply sortBy_in in Hin.
  rewrite Forall_forall in Hall.
  destruct (Hall entry Hin) as (evs & Hget & Hev). rewrite Hev. split.
  - apply simple_selection_valid.
  - apply SimpleFacts.athleteScores_nonempty in Hget.
    unfold simpleSelection.
    destruct (sortBy SimpleTeamEntryOptimizer.compareEvents
                (JSMap.entries evs)) as [|c cs] eqn:S.
    + apply sortBy_nil_inv in S. now destruct Hget.
    + apply SimpleFacts.selectEvents_first.
Qed.

Lemma advanced_entry_selection localeCompare allRankings teamName gender grade
    result entry :
  AdvancedTeamEntryOptimizer.optimizeRankings localeCompare allRankings
    teamName gender grade = Ok result ->
  In entry (athleteEntries result) ->
  SimpleTeamEntryOptimizer.isValidCombination (events entry) = true /\
  events entry <> [].
Proof.
  intros Hopt Hin.
  destruct (AdvancedRun.advanced_optimizeRankings_returns localeCompare allRankings
              teamName gender grade) as (ae & ee & Hres & _ & Hall & _).
  rewrite Hres in Hopt. inversion Hopt; subst result. clear Hopt.
  cbn in Hin. apply sortBy_in in Hin.
  rewrite Forall_forall in Hall.
  destruct (Hall entry Hin) as (opts & Hopts & Hev). rewrite Hev. split.
  - apply advanced_selection_valid.
  - apply AdvancedFacts.athleteOptions_entry in Hopts as [Hne _].
    unfold advancedSelection.
    destruct (sortBy AdvancedTeamEntryOptimizer.compareOptions opts)
      as [|c cs] eqn:S.
    + apply sortBy_nil_inv in S. now destruct Hne.
    + apply AdvancedFacts.selectOptions_first.
Qed.

Lemma produced_entry_valid localeCompare fs rankingsDir season teamName
    gender grade result entry :
  SimpleTeamEntryOptimizer.optimize localeCompare fs rankingsDir season
    teamName gender grade = Ok result \/
  AdvancedTeamEntryOptimizer.optimize localeCompare fs rankingsDir season
    teamName gender grade = Ok result ->
  In entry (athleteEntries result) ->
  SimpleTeamEntryOptimizer.isValidCombination (events entry) = true /\
  events entry <> [].
Proof.
  intros [H|H] Hin.
  - apply simple_optimize_inv in H as (allRankings & _ & H).
    eapply simple_entry_selection; eauto.
  - apply advanced_optimize_inv in H as (allRankings & _ & H).
    eapply advanced_entry_selection; eauto.
Qed.

(** [optimize] returns whenever the rankings load. *)
Lemma simple_optimize_returns localeCompare fs rankingsDir season teamName
    gender grade allRankings :
  SimpleTeamEntryOptimizer.loadRankings fs rankingsDir season gender grade
    = Ok allRankings ->
  exists result,
    SimpleTeamEntryOptimizer.optimize localeCompare fs rankingsDir season
      teamName gender grade = Ok result.
Proof.
  intros Hload. unfold SimpleTeamEntryOptimizer.optimize. rewrite Hload.
  destruct (SimpleRun.simple_optimizeRankings_returns localeCompare allRankings
              teamName gender grade) as (ae & ee & Hres & _).
  simpl. eauto.
Qed.

Lemma advanced_optimize_returns localeCompare fs rankingsDir season teamName
    gender grade allRankings :
  AdvancedTeamEntryOptimizer.loadRankings fs rankingsDir season gender grade
    = Ok allRankings ->
  exists result,
    AdvancedTeamEntryOptimizer.optimize localeCompare fs rankingsDir season
      teamName gender grade = Ok result.
Proof.
  intros Hload. unfold AdvancedTeamEntryOptimizer.optimize. rewrite Hload.
  destruct (AdvancedRun.advanced_optimizeRankings_returns localeCompare allRankings
              teamName gender grade) as (ae & ee & Hres & _).
  simpl. eauto.
Qed.

(* ----------------------------------------------------------------- *)
(** ** The invariants of the entries *)

(** C1. In every result of either optimizer, an entry whose events include
    both "1600" and "800" has at most one other track event among its
    remaining events and, when it has exactly 4 events, at least one field
    event. *)
Theorem distance_double_invariant :
  forall localeCompare fs rankingsDir season teamName gender grade
         result entry,
    SimpleTeamEntryOptimizer.optimize localeCompare fs rankingsDir season
      teamName gender grade = Ok result \/
    AdvancedTeamEntryOptimizer.optimize localeCompare fs rankingsDir season
      teamName gender grade = Ok result ->
    In entry (athleteEntries result) ->
    In "1600" (events entry) ->
    In "800" (events entry) ->
    (List.length (filter isOtherRunning (events entry)) <= 1)%nat /\
    (List.length (events entry) = 4%nat ->
     exists e, In e (events entry) /\ ResultUtils.isFieldEvent e = true).
Proof.
  intros lc fs dir season teamName gender grade result entry Hopt Hin H16 H8.
  destruct (produced_entry_valid _ _ _ _ _ _ _ _ _ Hopt Hin) as [Hvalid _].
  apply isValidCombination_true_iff in Hvalid as [_ Hdouble].
  destruct (Hdouble H16 H8) as [Hother Hfield]. split; trivial.
  intros H4. specialize (Hfield H4).
  destruct (filter ResultUtils.isFieldEvent (events entry)) as [|e es] eqn:F;
    [congruence|].
  exists e. apply filter_In. rewrite F. now left.
Qed.

Lemma distance_double_invariant_witness :
  exists result entry,
    AdvancedTeamEntryOptimizer.optimize codeUnitCompare sampleFS
      "rankings" "2025" "Tigers" "Male" "7th grade" = Ok result /\
    In entry (athleteEntries result) /\
    events entry = ["200"; "LJ"; "1600"; "800"] /\
    (List.length (filter isOtherRunning (events entry)) <= 1)%nat /\
    (List.length (events entry) = 4%nat ->
     exists e, In e (events entry) /\ ResultUtils.isFieldEvent e = true).
Proof.
  eexists. eexists.
  split; [vm_compute; reflexivity|].
  split; [left; reflexivity|].
  split; [reflexivity|].
  eapply (distance_double_invariant codeUnitCompare sampleFS
            "rankings" "2025" "Tigers" "Male" "7th grade").
  - right. vm_compute. reflexivity.
  - left. reflexivity.
  - simpl. auto.
  - simpl. auto.
Defined.

(** C2. In every result of either optimizer an entry has at most 4
    events: the check rejects every list of more than 4 events, and the
    greedy selection never goes beyond 4 accepted events. *)
Theorem entry_cap :
  (forall events,
      (4 < List.length events)%nat ->
      SimpleTeamEntryOptimizer.isValidCombination events = false /\
      AdvancedTeamEntryOptimizer.isValidCombination events = false) /\
  (forall sortedEvents selectedEvents,
      (List.length selectedEvents <= 4)%nat ->
      (List.length
         (SimpleTeamEntryOptimizer.selectEvents sortedEvents selectedEvents)
       <= 4)%nat) /\
  (forall sortedOptions selectedEvents selectedScores,
      (List.length selectedEvents <= 4)%nat ->
      (List.length
         (fst (AdvancedTeamEntryOptimizer.selectOptions sortedOptions
                 (selectedEvents, selectedScores))) <= 4)%nat) /\
  (forall localeCompare fs rankingsDir season teamName gender grade
          result entry,
      SimpleTeamEntryOptimizer.optimize localeCompare fs rankingsDir season
        teamName gender grade = Ok result \/
      AdvancedTeamEntryOptimizer.optimize localeCompare fs rankingsDir season
        teamName gender grade = Ok result ->
      In entry (athleteEntries result) ->
      (List.length (events entry) <= 4)%nat).
Proof.
  assert (Hreject : forall events,
             (4 < List.length events)%nat ->
             SimpleTeamEntryOptimizer.isValidCombination events = false).
  { intros events Hlong.
    destruct (SimpleTeamEntryOptimizer.isValidCombination events) eqn:V;
      trivial.
    apply isValidCombination_length in V. lia. }
  split; [|split; [|split]].
  - intros events Hlong. split; now apply Hreject.
  - intros sortedEvents. induction sortedEvents as [|[event score] rest IH];
      intros sel Hsel; cbn [SimpleTeamEntryOptimizer.selectEvents]; trivial.
    destruct (4 <=? List.length sel)%nat; trivial.
    destruct (SimpleTeamEntryOptimizer.isValidCombination (sel ++ [event]))
      eqn:V; auto.
    apply IH. now apply isValidCombination_length.
  - intros sortedOptions. induction sortedOptions as [|option rest IH];
      intros sel scores Hsel;
      cbn [AdvancedTeamEntryOptimizer.selectOptions fst]; trivial.
    destruct (4 <=? List.length sel)%nat; trivial.
    destruct (AdvancedTeamEntryOptimizer.isValidCombination
                (sel ++ [AdvancedTeamEntryOptimizer.aes_event option]))
      eqn:V; auto.
    apply IH. now apply isValidCombination_length.
  - intros lc fs dir season teamName gender grade result entry Hopt Hin.
    destruct (produced_entry_valid _ _ _ _ _ _ _ _ _ Hopt Hin) as [Hvalid _].
    now apply isValidCombination_length.
Qed.

Lemma entry_cap_witness :
  exists result entry,
    SimpleTeamEntryOptimizer.optimize codeUnitCompare sampleFS
      "rankings" "2025" "Tigers" "Male" "7th grade" = Ok result /\
    In entry (athleteEntries result) /\
    athlete entry = "Zed Zorn" /\
    (List.length (events entry) <= 4)%nat.
Proof.
  eexists. eexists.
  split; [vm_compute; reflexivity|].
  split; [right; left; reflexivity|].
  split; [reflexivity|].
  destruct entry_cap as (_ & _ & _ & Hcap).
  eapply (Hcap codeUnitCompare sampleFS
            "rankings" "2025" "Tigers" "Male" "7th grade").
  - left. vm_compute. reflexivity.
  - right. left. reflexivity.
Defined.

(* ----------------------------------------------------------------- *)
(** ** Totals *)

Lemma buildResult_sums localeCompare teamName gender grade ae ee :
  let result :=
    SimpleTeamEntryOptimizer.buildResult localeCompare teamName gender grade
      (ae, ee) in
  totalProjectedPoints result = sumEntryPoints (athleteEntries result) /\
  sumEntryPoints (athleteEntries result) = sumEntryPoints ae /\
  sumBreakdownPoints (eventBreakdown result) =
  sumBreakdownPoints (JSMap.values ee).
Proof.
  cbn. rewrite fold_left_sum_entries. repeat split.
  - apply sumEntryPoints_perm, sortBy_perm.
  - rewrite sumBreakdownPoints_sortAthletes.
    apply sumBreakdownPoints_perm, sortBy_perm.
Qed.

Lemma advanced_buildResult_eq localeCompare teamName gender grade state :
  AdvancedTeamEntryOptimizer.buildResult localeCompare teamName gender grade
    state =
  SimpleTeamEntryOptimizer.buildResult localeCompare teamName gender grade
    state.
Proof. reflexivity. Qed.

(** C3. In every result of either optimizer, totalProjectedPoints is the
    sum of projectedPoints over athleteEntries, and is also the sum of
    projectedPoints over all per-athlete rows of all eventBreakdown
    entries. *)
Theorem total_consistency :
  forall localeCompare fs rankingsDir season teamName gender grade result,
    SimpleTeamEntryOptimizer.optimize localeCompare fs rankingsDir season
      teamName gender grade = Ok result \/
    AdvancedTeamEntryOptimizer.optimize localeCompare fs rankingsDir season
      teamName gender grade = Ok result ->
    totalProjectedPoints result = sumEntryPoints (athleteEntries result) /\
    totalProjectedPoints result = sumBreakdownPoints (eventBreakdown result).
Proof.
  intros lc fs dir season teamName gender grade result [H|H].
  - apply simple_optimize_inv in H as (allRankings & _ & H).
    destruct (SimpleRun.simple_optimizeRankings_returns lc allRankings
                teamName gender grade) as (ae & ee & Hres & _ & _ & Hsum).
    rewrite Hres in H. apply Ok_inj in H. subst result.
    destruct (buildResult_sums lc teamName gender grade ae ee)
      as (Htotal & Hentries & Hrows).
    split; trivial. rewrite Htotal, Hentries, Hrows. now symmetry.
  - apply advanced_optimize_inv in H as (allRankings & _ & H).
    destruct (AdvancedRun.advanced_optimizeRankings_returns lc allRankings
                teamName gender grade) as (ae & ee & Hres & _ & _ & Hsum).
    rewrite Hres in H. apply Ok_inj in H. subst result.
    rewrite advanced_buildResult_eq.
    destruct (buildResult_sums lc teamName gender grade ae ee)
      as (Htotal & Hentries & Hrows).
    split; trivial. rewrite Htotal, Hentries, Hrows. now symmetry.
Qed.

Lemma total_consistency_witness :
  exists result,
    AdvancedTeamEntryOptimizer.optimize codeUnitCompare sampleFS
      "rankings" "2025" "Tigers" "Male" "7th grade" = Ok result /\
    totalProjectedPoints result = 48 /\
    totalProjectedPoints result = sumEntryPoints (athleteEntries result) /\
    totalProjectedPoints result = sumBreakdownPoints (eventBreakdown result).
Proof.
  eexists.
  split; [vm_compute; reflexivity|].
  split; [reflexivity|].
  apply (total_consistency codeUnitCompare sampleFS
           "rankings" "2025" "Tigers" "Male" "7th grade").
  right. vm_compute. reflexivity.
Defined.

(* ----------------------------------------------------------------- *)
(** ** One entry per ranked athlete *)

Lemma entries_cover_keys localeCompare teamName gender grade ae ee
    (keys : list string) :
  map athlete ae = keys ->
  NoDup keys ->
  let result :=
    SimpleTeamEntryOptimizer.buildResult localeCompare teamName gender grade
      (ae, ee) in
  NoDup (map athlete (athleteEntries result)) /\
  forall a, In a (map athlete (athleteEntries result)) <-> In a keys.
Proof.
  intros Hmap Hnd. cbn.
  assert (Hperm : Permutation
                    (map athlete
                       (sortBy (fun a b => projectedPoints b - projectedPoints a)
                               ae)) keys).
  { rewrite <- Hmap. apply Permutation_map, sortBy_perm. }
  split.
  - apply Permutation_NoDup with keys; [now symmetry | trivial].
  - intros a. split; apply Permutation_in; [trivial | now symmetry].
Qed.

(** C7. Once the rankings are loaded, either optimizer returns a result
    in which the athletes of the entries are, without repetition, exactly
    the athletes with at least one ranking row of the target team; every
    entry holds at least one event, since a single event always passes the
    combination check. *)
Theorem one_entry_per_ranked_athlete :
  forall localeCompare fs rankingsDir season teamName gender grade
         allRankings,
    SimpleTeamEntryOptimizer.loadRankings fs rankingsDir season gender grade
      = Ok allRankings ->
    AdvancedTeamEntryOptimizer.loadRankings fs rankingsDir season gender grade
      = Ok allRankings ->
    (forall e,
        SimpleTeamEntryOptimizer.isValidCombination [e] = true /\
        AdvancedTeamEntryOptimizer.isValidCombination [e] = true) /\
    forall optimize,
      optimize = SimpleTeamEntryOptimizer.optimize \/
      optimize = AdvancedTeamEntryOptimizer.optimize ->
      exists result,
        optimize localeCompare fs rankingsDir season teamName gender grade
          = Ok result /\
        NoDup (map athlete (athleteEntries result)) /\
        (forall a,
            In a (map athlete (athleteEntries result)) <->
            exists eventData ranking,
              In eventData allRankings /\ In ranking (rankings eventData) /\
              team ranking = teamName /\ r_athlete ranking = a) /\
        (forall entry,
            In entry (athleteEntries result) -> events entry <> []).
Proof.
  intros lc fs dir season teamName gender grade allRankings Hs Ha.
  split; [intros e; split; apply isValidCombination_single|].
  intros optimize [->| ->].
  - destruct (SimpleRun.simple_optimizeRankings_returns lc allRankings
                teamName gender grade) as (ae & ee & Hres & Hkeys & _).
    exists (SimpleTeamEntryOptimizer.buildResult lc teamName gender grade
              (ae, ee)).
    assert (Hopt : SimpleTeamEntryOptimizer.optimize lc fs dir season
                     teamName gender grade =
                   Ok (SimpleTeamEntryOptimizer.buildResult lc teamName
                         gender grade (ae, ee))).
    { unfold SimpleTeamEntryOptimizer.optimize. rewrite Hs. exact Hres. }
    split; trivial.
    destruct (entries_cover_keys lc teamName gender grade ae ee _ Hkeys
                (SimpleFacts.athleteScores_keys_NoDup allRankings teamName))
      as [Hnd Hin].
    split; trivial. split.
    + intros a. rewrite Hin. apply SimpleFacts.athleteScores_keys.
    + intros entry Hentry.
      eapply simple_entry_selection; eauto.
  - destruct (AdvancedRun.advanced_optimizeRankings_returns lc allRankings
                teamName gender grade) as (ae & ee & Hres & Hkeys & _).
    exists (AdvancedTeamEntryOptimizer.buildResult lc teamName gender grade
              (ae, ee)).
    assert (Hopt : AdvancedTeamEntryOptimizer.optimize lc fs dir season
                     teamName gender grade =
                   Ok (AdvancedTeamEntryOptimizer.buildResult lc teamName
                         gender grade (ae, ee))).
    { unfold AdvancedTeamEntryOptimizer.optimize. rewrite Ha. exact Hres. }
    split; trivial.
    destruct (entries_cover_keys lc teamName gender grade ae ee _ Hkeys
                (AdvancedFacts.athleteOptions_keys_NoDup allRankings
                   (AdvancedTeamEntryOptimizer.predictCompetition allRankings)
                   teamName))
      as [Hnd Hin].
    split; trivial. split.
    + intros a. rewrite advanced_buildResult_eq, Hin.
      apply AdvancedFacts.athleteOptions_keys.
    + intros entry Hentry.
      eapply advanced_entry_selection; eauto.
Qed.

Lemma one_entry_per_ranked_athlete_witness :
  exists allRankings result,
    AdvancedTeamEntryOptimizer.loadRankings sampleFS "rankings" "2025"
      "Male" "7th grade" = Ok allRankings /\
    AdvancedTeamEntryOptimizer.optimize codeUnitCompare sampleFS
      "rankings" "2025" "Tigers" "Male" "7th grade" = Ok result /\
    map athlete (athleteEntries result) = ["Yan Yew"; "Zed Zorn"; "Max Maple"]
    /\
    NoDup (map athlete (athleteEntries result)) /\
    (forall a,
        In a (map athlete (athleteEntries result)) <->
        exists eventData ranking,
          In eventData allRankings /\ In ranking (rankings eventData) /\
          team ranking = "Tigers" /\ r_athlete ranking = a).
Proof.
  eexists. eexists.
  split; [vm_compute; reflexivity|].
  split; [vm_compute; reflexivity|].
  split; [reflexivity|].
  destruct (one_entry_per_ranked_athlete codeUnitCompare sampleFS
              "rankings" "2025" "Tigers" "Male" "7th grade" _
              eq_refl eq_refl) as [_ H].
  destruct (H AdvancedTeamEntryOptimizer.optimize (or_intror eq_refl))
    as (result & Hopt & Hnd & Hin & _).
  vm_compute in Hopt. inversion Hopt as [Hres].
  rewrite <- Hres in Hnd, Hin. split; [exact Hnd | exact Hin].
Defined.

(* ----------------------------------------------------------------- *)
(** ** Order of the output lists *)

Lemma StronglySorted_impl {A : Type} (R S : A -> A -> Prop) (l : list A) :
  (forall a b, R a b -> S a b) -> StronglySorted R l -> StronglySorted S l.
Proof.
  intros HRS. induction 1 as [|a l Hs IH Hall]; constructor; trivial.
  eapply Forall_impl; [|exact Hall]. auto.
Qed.

Lemma StronglySorted_map {A B : Type} (f : A -> B) (R : B -> B -> Prop)
    (l : list A) :
  StronglySorted (fun a b => R (f a) (f b)) l -> StronglySorted R (map f l).
Proof.
  induction 1 as [|a l Hs IH Hall]; simpl; constructor; trivial.
  apply Forall_map. exact Hall.
Qed.

(** The code-unit comparison is a total preorder. *)
Lemma string_compare_le_trans (a b c : string) :
  String.compare a b <> Gt -> String.compare b c <> Gt ->
  String.compare a c <> Gt.
Proof.
  revert b c. induction a as [|x a IH]; intros [|y b] [|z c]; simpl;
    try congruence.
  unfold Ascii.compare.
  destruct (N.compare_spec (N_of_ascii x) (N_of_ascii y)) as [Exy|Lxy|Gxy];
    destruct (N.compare_spec (N_of_ascii y) (N_of_ascii z)) as [Eyz|Lyz|Gyz];
    try congruence;
    destruct (N.compare_spec (N_of_ascii x) (N_of_ascii z)) as [Exz|Lxz|Gxz];
    try congruence; try lia.
  apply IH.
Qed.

Lemma codeUnitCompare_le (a b : string) :
  codeUnitCompare a b <= 0 <-> String.compare a b <> Gt.
Proof.
  unfold codeUnitCompare. destruct (String.compare a b); split;
    intros H; try lia; try congruence.
Qed.

Lemma codeUnitCompare_total (a b : string) :
  codeUnitCompare a b <= 0 \/ codeUnitCompare b a <= 0.
Proof.
  rewrite !codeUnitCompare_le, (String.compare_antisym b a).
  destruct (String.compare a b); simpl; [left|left|right]; congruence.
Qed.

Lemma codeUnitCompare_trans (a b c : string) :
  codeUnitCompare a b <= 0 -> codeUnitCompare b c <= 0 ->
  codeUnitCompare a c <= 0.
Proof. rewrite !codeUnitCompare_le. apply string_compare_le_trans. Qed.

Lemma buildResult_sorted localeCompare teamName gender grade ae ee :
  (forall a b, localeCompare a b <= 0 \/ localeCompare b a <= 0) ->
  (forall a b c,
      localeCompare a b <= 0 -> localeCompare b c <= 0 ->
      localeCompare a c <= 0) ->
  let result :=
    SimpleTeamEntryOptimizer.buildResult localeCompare teamName gender grade
      (ae, ee) in
  StronglySorted (fun a b => projectedPoints a >= projectedPoints b)
                 (athleteEntries result) /\
  StronglySorted (fun a b => localeCompare (event a) (event b) <= 0)
                 (eventBreakdown result) /\
  (forall ev,
      In ev (eventBreakdown result) ->
      StronglySorted (fun a b => ea_projectedPlace a <= ea_projectedPlace b)
                     (athletes ev)).
Proof.
  intros Htotal Htrans. cbn. split; [|split].
  - apply StronglySorted_impl
      with (R := fun a b => projectedPoints b - projectedPoints a <= 0);
      [intros; lia|].
    apply sortBy_sorted; intros; lia.
  - apply StronglySorted_map with (f := sortAthletes _)
                                  (R := fun a b =>
                                          localeCompare (event a) (event b) <= 0).
    cbn [sortAthletes event].
    apply (sortBy_sorted (fun a b => localeCompare (event a) (event b))).
    + intros a b. apply Htotal.
    + intros a b c. apply Htrans.
  - intros ev Hev. apply in_map_iff in Hev as (ev0 & <- & _).
    cbn [sortAthletes athletes].
    apply StronglySorted_impl
      with (R := fun a b => ea_projectedPlace a - ea_projectedPlace b <= 0);
      [intros; lia|].
    apply sortBy_sorted; intros; lia.
Qed.

(** C8. When localeCompare is a total preorder on strings, every result of
    either optimizer has athleteEntries in descending order of
    projectedPoints, eventBreakdown in ascending order of event code (as
    localeCompare orders codes), and the athletes of each eventBreakdown
    entry in ascending order of projectedPlace. *)
Theorem output_sorted :
  forall localeCompare fs rankingsDir season teamName gender grade result,
    (forall a b, localeCompare a b <= 0 \/ localeCompare b a <= 0) ->
    (forall a b c,
        localeCompare a b <= 0 -> localeCompare b c <= 0 ->
        localeCompare a c <= 0) ->
    SimpleTeamEntryOptimizer.optimize localeCompare fs rankingsDir season
      teamName gender grade = Ok result \/
    AdvancedTeamEntryOptimizer.optimize localeCompare fs rankingsDir season
      teamName gender grade = Ok result ->
    StronglySorted (fun a b => projectedPoints a >= projectedPoints b)
                   (athleteEntries result) /\
    StronglySorted (fun a b => localeCompare (event a) (event b) <= 0)
                   (eventBreakdown result) /\
    (forall ev,
        In ev (eventBreakdown result) ->
        StronglySorted (fun a b => ea_projectedPlace a <= ea_projectedPlace b)
                       (athletes ev)).
Proof.
  intros lc fs dir season teamName gender grade result Htotal Htrans [H|H].
  - apply simple_optimize_inv in H as (allRankings & _ & H).
    destruct (SimpleRun.simple_optimizeRankings_returns lc allRankings
                teamName gender grade) as (ae & ee & Hres & _).
    rewrite Hres in H. apply Ok_inj in H. subst result.
    now apply buildResult_sorted.
  - apply advanced_optimize_inv in H as (allRankings & _ & H).
    destruct (AdvancedRun.advanced_optimizeRankings_returns lc allRankings
                teamName gender grade) as (ae & ee & Hres & _).
    rewrite Hres in H. apply Ok_inj in H. subst result.
    rewrite advanced_buildResult_eq. now apply buildResult_sorted.
Qed.

Lemma output_sorted_witness :
  exists result,
    SimpleTeamEntryOptimizer.optimize codeUnitCompare sampleFS
      "rankings" "2025" "Tigers" "Male" "7th grade" = Ok result /\
    map event (eventBreakdown result) = ["1600"; "200"; "400"; "800"; "LJ"] /\
    StronglySorted (fun a b => projectedPoints a >= projectedPoints b)
                   (athleteEntries result) /\
    StronglySorted (fun a b => codeUnitCompare (event a) (event b) <= 0)
                   (eventBreakdown result) /\
    (forall ev,
        In ev (eventBreakdown result) ->
        StronglySorted (fun a b => ea_projectedPlace a <= ea_projectedPlace b)
                       (athletes ev)).
Proof.
  eexists.
  split; [vm_compute; reflexivity|].
  split; [reflexivity|].
  apply (output_sorted codeUnitCompare sampleFS
           "rankings" "2025" "Tigers" "Male" "7th grade").
  - exact codeUnitCompare_total.
  - exact codeUnitCompare_trans.
  - left. vm_compute. reflexivity.
Defined.

(* ----------------------------------------------------------------- *)
(** ** Loading the rankings *)

Lemma advanced_loadRankings_eq fs rankingsDir season gender grade :
  AdvancedTeamEntryOptimizer.loadRankings fs rankingsDir season gender grade
  = SimpleTeamEntryOptimizer.loadRankings fs rankingsDir season gender grade.
Proof. reflexivity. Qed.

Lemma loadRankings_missing_dir fs rankingsDir season gender grade :
  fs rankingsDir = None ->
  SimpleTeamEntryOptimizer.loadRankings fs rankingsDir season gender grade
  = Throw (DirNotFound rankingsDir).
Proof.
  intros H. unfold SimpleTeamEntryOptimizer.loadRankings. now rewrite H.
Qed.

Lemma loadRankings_no_match fs rankingsDir season gender grade listing :
  fs rankingsDir = Some (Listing listing) ->
  (forall f,
      In f (rankingFilesOf season listing) ->
      exists data,
        snd f = Parsed data /\
        matchingCategory gender grade data = Ok None) ->
  SimpleTeamEntryOptimizer.loadRankings fs rankingsDir season gender grade
  = Ok [].
Proof.
  intros Hdir Hfiles.
  unfold SimpleTeamEntryOptimizer.loadRankings. rewrite Hdir.
  fold (rankingFilesOf season listing).
  revert Hfiles. generalize (rankingFilesOf season listing).
  intros files Hfiles.
  match goal with
  | |- foldM ?body files _ = _ =>
      cut (forall acc, foldM body files acc = Ok acc);
      [intros G; apply G|]
  end.
  induction files as [|f files IH]; intros acc; simpl; trivial.
  destruct (Hfiles f (or_introl eq_refl)) as (data & Hdata & Hnone).
  rewrite Hdata. simpl. unfold matchingCategory in Hnone. rewrite Hnone.
  simpl. apply IH. intros g Hg. apply Hfiles. now right.
Qed.

Lemma simple_no_team_rows localeCompare allRankings teamName gender grade :
  teamRows allRankings teamName = [] ->
  SimpleTeamEntryOptimizer.optimizeRankings localeCompare allRankings
    teamName gender grade = Ok (emptyResult teamName gender grade).
Proof.
  intros Hrows. unfold SimpleTeamEntryOptimizer.optimizeRankings.
  rewrite SimpleFacts.athleteScores_group, Hrows. reflexivity.
Qed.

Lemma advanced_no_team_rows localeCompare allRankings teamName gender grade :
  teamRows allRankings teamName = [] ->
  AdvancedTeamEntryOptimizer.optimizeRankings localeCompare allRankings
    teamName gender grade = Ok (emptyResult teamName gender grade).
Proof.
  intros Hrows. unfold AdvancedTeamEntryOptimizer.optimizeRankings.
  rewrite AdvancedFacts.athleteOptions_group, Hrows. reflexivity.
Qed.

(** What either optimizer does when data is missing: it raises the
    directory error when the rankings directory does not exist; when the
    directory is listed, every ranking file of the season parses and none
    has a category for the requested gender and grade, and likewise when
    the loaded categories hold no row of the target team, it returns the
    result with no entry. *)
Lemma optimize_on_missing_data loadRankings optimize :
  (loadRankings = SimpleTeamEntryOptimizer.loadRankings /\
   optimize = SimpleTeamEntryOptimizer.optimize) \/
  (loadRankings = AdvancedTeamEntryOptimizer.loadRankings /\
   optimize = AdvancedTeamEntryOptimizer.optimize) ->
  forall localeCompare fs rankingsDir season teamName gender grade,
    (fs rankingsDir = None ->
     optimize localeCompare fs rankingsDir season teamName gender grade
     = Throw (DirNotFound rankingsDir)) /\
    (forall listing,
        fs rankingsDir = Some (Listing listing) ->
        (forall f,
            In f (rankingFilesOf season listing) ->
            exists data,
              snd f = Parsed data /\
              matchingCategory gender grade data = Ok None) ->
        loadRankings fs rankingsDir season gender grade = Ok [] /\
        optimize localeCompare fs rankingsDir season teamName gender grade
        = Ok (emptyResult teamName gender grade)) /\
    (forall allRankings,
        loadRankings fs rankingsDir season gender grade = Ok allRankings ->
        teamRows allRankings teamName = [] ->
        optimize localeCompare fs rankingsDir season teamName gender grade
        = Ok (emptyResult teamName gender grade)).
Proof.
  intros Hopt lc fs dir season teamName gender grade.
  assert (Hload : loadRankings = SimpleTeamEntryOptimizer.loadRankings).
  { destruct Hopt as [[-> _]|[-> _]]; reflexivity. }
  assert (Hrun : forall allRankings,
             loadRankings fs dir season gender grade = Ok allRankings ->
             teamRows allRankings teamName = [] ->
             optimize lc fs dir season teamName gender grade
             = Ok (emptyResult teamName gender grade)).
  { intros allRankings Hall Hrows. destruct Hopt as [[-> ->]|[-> ->]].
    - unfold SimpleTeamEntryOptimizer.optimize. rewrite Hall.
      now apply simple_no_team_rows.
    - unfold AdvancedTeamEntryOptimizer.optimize. rewrite Hall.
      now apply advanced_no_team_rows. }
  split; [|split]; trivial.
  - intros Hnone. destruct Hopt as [[_ ->]|[_ ->]].
    + unfold SimpleTeamEntryOptimizer.optimize.
      now rewrite loadRankings_missing_dir.
    + unfold AdvancedTeamEntryOptimizer.optimize.
      now rewrite advanced_loadRankings_eq, loadRankings_missing_dir.
  - intros listing Hdir Hfiles.
    assert (Hnil : loadRankings fs dir season gender grade = Ok []).
    { rewrite Hload. eapply loadRankings_no_match; eauto. }
    split; trivial. now apply (Hrun []).
Qed.

(** C6. The code breaks the first half of the claim at the sample
    directory, asked for the boys of the 8th grade: the directory exists
    and is listed, every ranking file of season 2025 parses and none has
    a category for that gender and grade, and still both optimizers
    return the result with no entry; no error reaches the caller.  The
    second half holds there: for the 7th grade, whose categories hold no
    row of "Rockets", both return the result with no entry. *)
Theorem missing_category_returns_empty :
  (exists listing,
      sampleFS "rankings" = Some (Listing listing) /\
      Forall (fun f =>
                exists data,
                  snd f = Parsed data /\
                  matchingCategory "Male" "8th grade" data = Ok None)
             (rankingFilesOf "2025" listing)) /\
  SimpleTeamEntryOptimizer.loadRankings sampleFS "rankings" "2025"
    "Male" "8th grade" = Ok [] /\
  AdvancedTeamEntryOptimizer.loadRankings sampleFS "rankings" "2025"
    "Male" "8th grade" = Ok [] /\
  SimpleTeamEntryOptimizer.optimize codeUnitCompare sampleFS
    "rankings" "2025" "Tigers" "Male" "8th grade"
  = Ok (emptyResult "Tigers" "Male" "8th grade") /\
  AdvancedTeamEntryOptimizer.optimize codeUnitCompare sampleFS
    "rankings" "2025" "Tigers" "Male" "8th grade"
  = Ok (emptyResult "Tigers" "Male" "8th grade") /\
  SimpleTeamEntryOptimizer.loadRankings sampleFS "rankings" "2025"
    "Male" "7th grade" = Ok sampleRankings /\
  List.length sampleRankings = 5%nat /\
  teamRows sampleRankings "Rockets" = [] /\
  SimpleTeamEntryOptimizer.optimize codeUnitCompare sampleFS
    "rankings" "2025" "Rockets" "Male" "7th grade"
  = Ok (emptyResult "Rockets" "Male" "7th grade") /\
  AdvancedTeamEntryOptimizer.optimize codeUnitCompare sampleFS
    "rankings" "2025" "Rockets" "Male" "7th grade"
  = Ok (emptyResult "Rockets" "Male" "7th grade").
Proof.
  assert (Hfiles :
           exists listing,
             sampleFS "rankings" = Some (Listing listing) /\
             Forall (fun f =>
                       exists data,
                         snd f = Parsed data /\
                         matchingCategory "Male" "8th grade" data = Ok None)
                    (rankingFilesOf "2025" listing)).
  { eexists. split; [reflexivity|].
    vm_compute. repeat constructor; eexists; split; reflexivity. }
  split; [exact Hfiles|].
  destruct Hfiles as (listing & Hdir & Hall). rewrite Forall_forall in Hall.
  pose proof (optimize_on_missing_data
                SimpleTeamEntryOptimizer.loadRankings
                SimpleTeamEntryOptimizer.optimize
                (or_introl (conj eq_refl eq_refl))) as Hs.
  pose proof (optimize_on_missing_data
                AdvancedTeamEntryOptimizer.loadRankings
                AdvancedTeamEntryOptimizer.optimize
                (or_intror (conj eq_refl eq_refl))) as Ha.
  destruct (Hs codeUnitCompare sampleFS "rankings" "2025" "Tigers" "Male"
              "8th grade") as (_ & Hs8 & _).
  destruct (Ha codeUnitCompare sampleFS "rankings" "2025" "Tigers" "Male"
              "8th grade") as (_ & Ha8 & _).
  destruct (Hs8 listing Hdir Hall) as [Hload8 Hopt8].
  destruct (Ha8 listing Hdir Hall) as [Hload8' Hopt8'].
  destruct (Hs codeUnitCompare sampleFS "rankings" "2025" "Rockets" "Male"
              "7th grade") as (_ & _ & Hs7).
  destruct (Ha codeUnitCompare sampleFS "rankings" "2025" "Rockets" "Male"
              "7th grade") as (_ & _ & Ha7).
  assert (Hload7 :
           SimpleTeamEntryOptimizer.loadRankings sampleFS "rankings" "2025"
             "Male" "7th grade" = Ok sampleRankings)
    by (vm_compute; reflexivity).
  assert (Hrows : teamRows sampleRankings "Rockets" = [])
    by (vm_compute; reflexivity).
  repeat split; trivial;
    first [now apply (Hs7 sampleRankings) | now apply (Ha7 sampleRankings)].
Qed.

(* ----------------------------------------------------------------- *)
(** ** The team filter *)

Lemma simple_selection_in_keys eventScores e :
  In e (simpleSelection eventScores) ->
  exists score, JSMap.get e eventScores = Some score.
Proof.
  unfold simpleSelection. intros He.
  destruct (SimpleFacts.selectEvents_extends
              (sortBy SimpleTeamEntryOptimizer.compareEvents
                      (JSMap.entries eventScores)) [])
    as (more & Heq & Hincl).
  rewrite Heq in He. simpl in He. apply Hincl in He.
  apply in_map_iff in He as (p & Hp & Hin). apply sortBy_in in Hin.
  apply JSMapFacts.in_keys_get. unfold JSMap.keys. apply in_map_iff. eauto.
Qed.

Lemma advanced_selection_in_options options e :
  In e (fst (advancedSelection options)) ->
  exists option,
    In option options /\ AdvancedTeamEntryOptimizer.aes_event option = e.
Proof.
  unfold advancedSelection. intros He.
  destruct (AdvancedFacts.selectOptions_inv
              (sortBy AdvancedTeamEntryOptimizer.compareOptions options)
              ([], []) eq_refl eq_refl) as (Hmap & _ & more & Hmore & Hincl).
  rewrite Hmap, Hmore in He. simpl in He.
  apply in_map_iff in He as (option & Hev & Hin).
  exists option. split; trivial. apply Hincl in Hin.
  now apply sortBy_in in Hin.
Qed.

Lemma fold_left_map_arg {A B S : Type} (g : A -> B) (f : S -> B -> S)
    (l : list A) (s : S) :
  fold_left f (map g l) s = fold_left (fun acc x => f acc (g x)) l s.
Proof.
  revert s. induction l as [|x rest IH]; intros s; simpl; trivial.
Qed.

Lemma teamRows_keepTeam allRankings teamName :
  teamRows (map (keepTeam teamName) allRankings) teamName =
  map (fun p => (keepTeam teamName (fst p), snd p))
      (teamRows allRankings teamName).
Proof.
  unfold teamRows, rankingRows.
  induction allRankings as [|d rest IH]; simpl; trivial.
  rewrite !filter_app, map_app, IH. f_equal. clear IH.
  induction (rankings d) as [|r rows IHr]; simpl; trivial.
  destruct (String.eqb (team r) teamName) eqn:E; simpl; rewrite ?E; trivial.
  now rewrite IHr.
Qed.

(** The simple optimizer's candidates are computed from the rows of the
    team alone. *)
Lemma simple_candidates_ignore_other_teams allRankings teamName :
  SimpleTeamEntryOptimizer.athleteScores
    (map (keepTeam teamName) allRankings) teamName =
  SimpleTeamEntryOptimizer.athleteScores allRankings teamName.
Proof.
  rewrite !SimpleFacts.athleteScores_group, teamRows_keepTeam.
  unfold JSMap.group. rewrite fold_left_map_arg. reflexivity.
Qed.

(** C9. Inside both optimizers a ranking row yields a candidate event for
    its athlete exactly when its team field equals teamName, as strings;
    every event of every entry of a result comes from such a row; the
    candidates of the simple optimizer do not change when the rows of the
    other teams are removed, whereas those rows do change the projected
    places of the advanced optimizer. *)
Theorem team_filter_is_exact :
  (forall allRankings teamName a e,
      (exists eventScores score,
          JSMap.get a
            (SimpleTeamEntryOptimizer.athleteScores allRankings teamName)
          = Some eventScores /\
          JSMap.get e eventScores = Some score) <->
      (exists eventData ranking,
          In eventData allRankings /\ In ranking (rankings eventData) /\
          team ranking = teamName /\ r_athlete ranking = a /\
          eventAbbr eventData = e)) /\
  (forall allRankings likelyEntries teamName a e,
      (exists options option,
          JSMap.get a
            (AdvancedTeamEntryOptimizer.athleteOptions allRankings
               likelyEntries teamName) = Some options /\
          In option options /\
          AdvancedTeamEntryOptimizer.aes_event option = e) <->
      (exists eventData ranking,
          In eventData allRankings /\ In ranking (rankings eventData) /\
          team ranking = teamName /\ r_athlete ranking = a /\
          eventAbbr eventData = e)) /\
  (forall localeCompare allRankings teamName gender grade result entry e,
      SimpleTeamEntryOptimizer.optimizeRankings localeCompare allRankings
        teamName gender grade = Ok result \/
      AdvancedTeamEntryOptimizer.optimizeRankings localeCompare allRankings
        teamName gender grade = Ok result ->
      In entry (athleteEntries result) ->
      In e (events entry) ->
      exists eventData ranking,
        In eventData allRankings /\ In ranking (rankings eventData) /\
        team ranking = teamName /\ r_athlete ranking = athlete entry /\
        eventAbbr eventData = e) /\
  (forall allRankings teamName,
      SimpleTeamEntryOptimizer.athleteScores
        (map (keepTeam teamName) allRankings) teamName =
      SimpleTeamEntryOptimizer.athleteScores allRankings teamName) /\
  (AdvancedTeamEntryOptimizer.calculateProjectedPlace "Yan Yew" "100" 2
     (AdvancedTeamEntryOptimizer.predictCompetition [dashWithRival])
     dashWithRival = 2 /\
   AdvancedTeamEntryOptimizer.calculateProjectedPlace "Yan Yew" "100" 2
     (AdvancedTeamEntryOptimizer.predictCompetition [dashWithoutRival])
     dashWithoutRival = 1).
Proof.
  split; [|split; [|split; [|split]]];
    [| | |apply simple_candidates_ignore_other_teams|].
  - intros. apply SimpleFacts.athleteScores_candidates.
  - intros allRankings likely teamName a e. split.
    + intros (options & option & Hget & Hin & He).
      apply JSMapFacts.get_Some_in in Hget.
      destruct (AdvancedFacts.athleteOptions_entry _ _ _ _ _ Hget)
        as [_ Hrows].
      destruct (Hrows option Hin) as (d & r & Hd & Hr & Ht & Ha & ->).
      exists d, r. simpl in He. auto.
    + intros (d & r & Hd & Hr & Ht & Ha & He).
      set (rows := filter (fun p => String.eqb (r_athlete (snd p)) a)
                          (teamRows allRankings teamName)).
      assert (Hp : In (d, r) rows).
      { apply filter_In. split; [|simpl; now apply String.eqb_eq].
        apply in_teamRows. simpl. auto. }
      exists (map (advancedOption likely teamName) rows),
             (advancedOption likely teamName (d, r)).
      split; [|split; [now apply in_map | exact He]].
      apply AdvancedFacts.athleteOptions_get. split; [|reflexivity].
      fold rows. intros E. rewrite E in Hp. destruct Hp.
  - intros lc allRankings teamName gender grade result entry e [H|H] Hin He.
    + destruct (SimpleRun.simple_optimizeRankings_returns lc allRankings
                  teamName gender grade) as (ae & ee & Hres & _ & Hall & _).
      rewrite Hres in H. apply Ok_inj in H. subst result.
      cbn in Hin. apply sortBy_in in Hin. rewrite Forall_forall in Hall.
      destruct (Hall entry Hin) as (evs & Hget & Hev).
      rewrite Hev in He. apply simple_selection_in_keys in He as (s & Hs).
      apply SimpleFacts.athleteScores_candidates. eauto.
    + destruct (AdvancedRun.advanced_optimizeRankings_returns lc allRankings
                  teamName gender grade) as (ae & ee & Hres & _ & Hall & _).
      rewrite Hres in H. apply Ok_inj in H. subst result.
      cbn in Hin. apply sortBy_in in Hin. rewrite Forall_forall in Hall.
      destruct (Hall entry Hin) as (opts & Hopts & Hev).
      rewrite Hev in He.
      apply advanced_selection_in_options in He as (option & Hopt & <-).
      destruct (AdvancedFacts.athleteOptions_entry _ _ _ _ _ Hopts)
        as [_ Hrows].
      destruct (Hrows option Hopt) as (d & r & Hd & Hr & Ht & Ha & ->).
      exists d, r. simpl. auto.
  - split; reflexivity.
Qed.

(** A row of the team "Tigers" is matched by neither "tigers" nor
    "Tiger". *)
Lemma team_filter_is_exact_witness :
  exists result entry,
    SimpleTeamEntryOptimizer.optimizeRankings codeUnitCompare
      [dashWithRival] "Tigers" "Male" "7th grade" = Ok result /\
    In entry (athleteEntries result) /\
    In "100" (events entry) /\
    (exists eventData ranking,
        In eventData [dashWithRival] /\ In ranking (rankings eventData) /\
        team ranking = "Tigers" /\ r_athlete ranking = athlete entry /\
        eventAbbr eventData = "100") /\
    SimpleTeamEntryOptimizer.optimizeRankings codeUnitCompare
      [dashWithRival] "tigers" "Male" "7th grade"
    = Ok (emptyResult "tigers" "Male" "7th grade") /\
    SimpleTeamEntryOptimizer.optimizeRankings codeUnitCompare
      [dashWithRival] "Tiger" "Male" "7th grade"
    = Ok (emptyResult "Tiger" "Male" "7th grade").
Proof.
  eexists. eexists.
  split; [vm_compute; reflexivity|].
  split; [left; reflexivity|].
  split; [left; reflexivity|].
  split; [|split; vm_compute; reflexivity].
  destruct team_filter_is_exact as (_ & _ & Hrows & _ & _).
  eapply (Hrows codeUnitCompare [dashWithRival] "Tigers" "Male" "7th grade").
  - left. vm_compute. reflexivity.
  - left. reflexivity.
  - left. reflexivity.
Defined.

(* ----------------------------------------------------------------- *)
(** ** The competition predictor *)

Module PredictorFacts.
Import AdvancedTeamEntryOptimizer JSMapFacts.

Lemma has_add x y s :
  JSSet.has x (JSSet.add y s) = true <-> x = y \/ JSSet.has x s = true.
Proof.
  unfold JSSet.add.
  destruct (JSSet.has y s) eqn:Hy.
  - split; auto. intros [->|H]; trivial.
  - unfold JSSet.has. rewrite existsb_app, orb_true_iff. simpl.
    rewrite orb_false_r, String.eqb_eq. tauto.
Qed.

Lemma has_fold_add {X : Type} (ev : X -> string) (xs : list X) s e :
  JSSet.has e (fold_left (fun s x => JSSet.add (ev x) s) xs s) = true <->
  JSSet.has e s = true \/ exists x, In x xs /\ ev x = e.
Proof.
  revert s. induction xs as [|x rest IH]; intros s; simpl.
  - split; auto. intros [H|(x & [] & _)]. trivial.
  - rewrite IH, has_add. split.
    + intros [[->|H]|(y & Hy & He)]; eauto.
    + intros [H|(y & [->|Hy] & He)]; eauto.
Qed.

(** The three nested loops of [predictCompetition] record the pairs of
    [likelyPairs] one after the other. *)
Lemma predictCompetition_group allRankings :
  predictCompetition allRankings =
  JSMap.group fst JSSet.empty (fun p s => JSSet.add (snd p) s)
    (likelyPairs allRankings) JSMap.empty.
Proof.
  unfold predictCompetition, JSMap.group, likelyPairs.
  generalize (@JSMap.empty JSSet.t).
  induction allRankings as [|d rest IH]; intros acc; simpl; trivial.
  rewrite fold_left_app, IH. f_equal. clear IH.
  generalize (JSMap.entries (teamAthletes d)). intros teams. revert acc.
  induction teams as [|entry teams IHt]; intros acc; simpl; trivial.
  rewrite fold_left_app, IHt. f_equal. clear IHt.
  match goal with
  | |- context [firstn ?n ?l] => generalize (firstn n l)
  end.
  intros top. revert acc.
  induction top as [|a top IHa]; intros acc; simpl; [trivial | apply IHa].
Qed.

Lemma likelyIn_predictCompetition allRankings e name :
  likelyIn (predictCompetition allRankings) e name = true <->
  In (name, e) (likelyPairs allRankings).
Proof.
  unfold likelyIn. rewrite predictCompetition_group, get_group_empty.
  set (mine := filter (fun p => String.eqb (fst p) name)
                      (likelyPairs allRankings)).
  assert (Hmine : forall p, In p mine <->
                            In p (likelyPairs allRankings) /\ fst p = name).
  { intros p. unfold mine. now rewrite filter_In, String.eqb_eq. }
  destruct mine as [|p0 ps] eqn:M.
  - split; [discriminate|]. intros H. exfalso.
    destruct (proj2 (Hmine (name, e)) (conj H eq_refl)).
  - rewrite (has_fold_add snd). split.
    + intros [H|(p & Hp & He)]; [discriminate|].
      apply Hmine in Hp as [Hp Hn]. destruct p as [n e']. simpl in *.
      now subst.
    + intros H. right. exists (name, e). split; trivial.
      apply Hmine. auto.
Qed.

Lemma teamAthletes_group eventData :
  teamAthletes eventData =
  JSMap.group team [] (fun r l => l ++ [r_athlete r]) (rankings eventData)
    JSMap.empty.
Proof. reflexivity. Qed.

(** The entries of [teamAthletes]: one per team with a row, holding the
    names of the team's rows in order. *)
Lemma teamAthletes_entry eventData t names :
  In (t, names) (JSMap.entries (teamAthletes eventData)) <->
  rowsOfTeam eventData t <> [] /\
  names = map r_athlete (rowsOfTeam eventData t).
Proof.
  assert (Hget : JSMap.get t (teamAthletes eventData) = Some names <->
                 rowsOfTeam eventData t <> [] /\
                 names = map r_athlete (rowsOfTeam eventData t)).
  { rewrite teamAthletes_group, get_group_Some.
    rewrite (fold_left_snoc_map r_athlete). reflexivity. }
  rewrite <- Hget. unfold JSMap.entries. split.
  - apply in_get_Some. rewrite teamAthletes_group.
    apply NoDup_keys_group. constructor.
  - apply get_Some_in.
Qed.

Lemma in_likelyPairs allRankings name e :
  In (name, e) (likelyPairs allRankings) <->
  exists eventData t,
    In eventData allRankings /\ eventAbbr eventData = e /\
    In name (map r_athlete (topRows eventData t)).
Proof.
  unfold likelyPairs. rewrite in_flat_map. split.
  - intros (d & Hd & Hp). apply in_flat_map in Hp as ([t names] & Hent & Hp).
    apply in_map_iff in Hp as (a & Heq & Ha). inversion Heq; subst.
    apply teamAthletes_entry in Hent as [_ ->]. simpl in Ha.
    exists d, t. repeat split; trivial.
    unfold topRows. rewrite <- firstn_map.
    now rewrite length_map in Ha.
  - intros (d & t & Hd & He & Hin). exists d. split; trivial.
    apply in_flat_map.
    exists (t, map r_athlete (rowsOfTeam d t)). split.
    + apply teamAthletes_entry. split; trivial.
      intros E. unfold topRows in Hin. rewrite E in Hin. destruct Hin.
    + apply in_map_iff. exists name. split; [now rewrite He|].
      simpl. rewrite length_map, firstn_map. exact Hin.
Qed.

Lemma likelyCompeting_true_iff eventData name :
  likelyCompeting eventData name = true <->
  exists t, In name (map r_athlete (topRows eventData t)).
Proof.
  unfold likelyCompeting. rewrite existsb_exists. split.
  - intros (t & _ & H). exists t. apply existsb_exists in H as (r & Hr & E).
    apply String.eqb_eq in E. subst. now apply in_map.
  - intros (t & H). apply in_map_iff in H as (r & <- & Hr).
    exists t. split.
    + assert (Hrow : In r (rowsOfTeam eventData t)).
      { unfold topRows in Hr.
        rewrite <- (firstn_skipn
                      (Nat.min 3 (List.length (rowsOfTeam eventData t)))
                      (rowsOfTeam eventData t)).
        apply in_or_app. now left. }
      apply filter_In in Hrow as [Hrow Ht]. apply String.eqb_eq in Ht.
      subst t. now apply in_map.
    + apply existsb_exists. exists r. split; trivial. apply String.eqb_refl.
Qed.

Lemma NoDup_map_in_inj {A B : Type} (f : A -> B) (l : list A) x y :
  NoDup (map f l) -> In x l -> In y l -> f x = f y -> x = y.
Proof.
  induction l as [|a rest IH]; simpl; [tauto|].
  intros Hnd Hx Hy Hf. inversion Hnd as [|? ? Hnotin Hnd']; subst.
  destruct Hx as [->|Hx], Hy as [->|Hy]; trivial.
  - exfalso. apply Hnotin. rewrite Hf. now apply in_map.
  - exfalso. apply Hnotin. rewrite <- Hf. now apply in_map.
  - now apply IH.
Qed.

(** The set recorded for an event code collects the likely-competing
    sets of the categories that carry the code. *)
Lemma likelyIn_event allRankings e name :
  likelyIn (predictCompetition allRankings) e name =
  likelyForEvent allRankings e name.
Proof.
  apply eq_true_iff_eq.
  rewrite likelyIn_predictCompetition, in_likelyPairs.
  unfold likelyForEvent. rewrite existsb_exists. split.
  - intros (d & t & Hd & He & Hname). exists d. split; trivial.
    rewrite andb_true_iff, String.eqb_eq, likelyCompeting_true_iff. eauto.
  - intros (d & Hd & H).
    rewrite andb_true_iff, String.eqb_eq, likelyCompeting_true_iff in H.
    destruct H as (He & t & Hname). eauto.
Qed.

(** With one category per event code, the set of an event is the
    likely-competing set of its category. *)
Lemma likelyForEvent_category allRankings eventData name :
  NoDup (map eventAbbr allRankings) ->
  In eventData allRankings ->
  likelyForEvent allRankings (eventAbbr eventData) name =
  likelyCompeting eventData name.
Proof.
  intros Hnd Hin. apply eq_true_iff_eq.
  unfold likelyForEvent. rewrite existsb_exists. split.
  - intros (d & Hd & H). rewrite andb_true_iff, String.eqb_eq in H.
    destruct H as [He Hname].
    assert (d = eventData) by (eapply NoDup_map_in_inj; eauto).
    now subst d.
  - intros Hname. exists eventData. split; trivial.
    now rewrite String.eqb_refl.
Qed.

(** The loop of [calculateProjectedPlace] counts the rows that pass its
    two tests. *)
Lemma calculateProjectedPlace_count a e currentRank likelyEntries eventData :
  calculateProjectedPlace a e currentRank likelyEntries eventData =
  1 + Z.of_nat
        (List.length
           (filter (fun r => (rank r <? currentRank)
                             && likelyIn likelyEntries e (r_athlete r))
                   (rankings eventData))).
Proof.
  unfold calculateProjectedPlace.
  assert (G : forall rows n,
             fold_left
               (fun competitorsAhead ranking =>
                  if rank ranking <? currentRank then
                    match JSMap.get (r_athlete ranking) likelyEntries with
                    | Some athleteEvents =>
                        if JSSet.has e athleteEvents
                        then competitorsAhead + 1
                        else competitorsAhead
                    | None => competitorsAhead
                    end
                  else competitorsAhead) rows n =
             n + Z.of_nat
                   (List.length
                      (filter (fun r => (rank r <? currentRank)
                                        && likelyIn likelyEntries e
                                             (r_athlete r)) rows))).
  { induction rows as [|r rows IH]; intros n; simpl; [lia|].
    rewrite IH. unfold likelyIn at 2.
    destruct (rank r <? currentRank); simpl; [|lia].
    destruct (JSMap.get (r_athlete r) likelyEntries) as [evs|]; [|lia].
    destruct (JSSet.has e evs); simpl; lia. }
  rewrite G. lia.
Qed.

Lemma StronglySorted_filter {A : Type} (R : A -> A -> Prop) (p : A -> bool)
    (l : list A) :
  StronglySorted R l -> StronglySorted R (filter p l).
Proof.
  induction 1 as [|a l Hs IH Hall]; simpl; [constructor|].
  destruct (p a); trivial. constructor; trivial.
  apply Forall_forall. intros x Hx. apply filter_In in Hx as [Hx _].
  rewrite Forall_forall in Hall. now apply Hall.
Qed.
End PredictorFacts.

(** C4. For a loaded category whose rows are in ascending order of rank
    and an athlete of current rank r, calculateProjectedPlace returns 1
    plus the number of rows of the category with rank strictly below r
    whose athlete is in the likely-competing set of the event.
    predictCompetition puts into that set exactly the athletes of each
    team's first min(3, number of the team's rows) rows, the team's rows
    being in rank order, for the categories that carry the event code;
    with one category per event code these are the rows of the category
    itself. *)
Theorem projected_place_counts_likely_rivals :
  forall allRankings eventData a r,
    In eventData allRankings ->
    StronglySorted (fun x y => rank x <= rank y) (rankings eventData) ->
    AdvancedTeamEntryOptimizer.calculateProjectedPlace a
      (eventAbbr eventData) r
      (AdvancedTeamEntryOptimizer.predictCompetition allRankings) eventData
    = 1 + Z.of_nat
            (List.length
               (filter (fun row => (rank row <? r)
                                   && likelyForEvent allRankings
                                        (eventAbbr eventData) (r_athlete row))
                       (rankings eventData))) /\
    (forall e name,
        likelyIn (AdvancedTeamEntryOptimizer.predictCompetition allRankings)
                 e name = true <->
        exists category t,
          In category allRankings /\ eventAbbr category = e /\
          In name (map r_athlete (topRows category t))) /\
    (forall e name,
        likelyForEvent allRankings e name =
        likelyIn (AdvancedTeamEntryOptimizer.predictCompetition allRankings)
                 e name) /\
    (NoDup (map eventAbbr allRankings) ->
     forall name,
       likelyForEvent allRankings (eventAbbr eventData) name = true <->
       exists t, In name (map r_athlete (topRows eventData t))) /\
    (forall t,
        List.length (topRows eventData t) =
        Nat.min 3 (List.length (rowsOfTeam eventData t)) /\
        (exists rest, rowsOfTeam eventData t = topRows eventData t ++ rest) /\
        StronglySorted (fun x y => rank x <= rank y)
                       (rowsOfTeam eventData t)).
Proof.
  intros allRankings eventData a r Hin Hsorted.
  split; [|split; [|split; [|split]]].
  - rewrite PredictorFacts.calculateProjectedPlace_count.
    do 3 f_equal. apply filter_ext. intros row.
    now rewrite PredictorFacts.likelyIn_event.
  - intros e name.
    rewrite PredictorFacts.likelyIn_predictCompetition.
    apply PredictorFacts.in_likelyPairs.
  - intros e name. symmetry. apply PredictorFacts.likelyIn_event.
  - intros Hnd name.
    rewrite PredictorFacts.likelyForEvent_category by trivial.
    apply PredictorFacts.likelyCompeting_true_iff.
  - intros t. repeat split.
    + unfold topRows. rewrite length_firstn. lia.
    + exists (skipn (Nat.min 3 (List.length (rowsOfTeam eventData t)))
                    (rowsOfTeam eventData t)).
      unfold topRows. now rewrite firstn_skipn.
    + now apply PredictorFacts.StronglySorted_filter.
Qed.

Lemma projected_place_counts_likely_rivals_witness :
  AdvancedTeamEntryOptimizer.calculateProjectedPlace "Max Maple" "200" 8
    (AdvancedTeamEntryOptimizer.predictCompetition sampleRankings) sample200
  = 7 /\
  likelyForEvent sampleRankings "200" "Dee Dogwood" = true /\
  likelyForEvent sampleRankings "200" "Eli Elm" = false.
Proof.
  assert (Hin : In sample200 sampleRankings).
  { vm_compute. auto. }
  assert (Hsorted : StronglySorted (fun x y => rank x <= rank y)
                                   (rankings sample200)).
  { simpl. unfold sample200Rows.
    repeat first [ apply SSorted_nil | apply SSorted_cons
                 | apply Forall_nil | apply Forall_cons | (simpl; lia) ]. }
  destruct (projected_place_counts_likely_rivals sampleRankings sample200
              "Max Maple" 8 Hin Hsorted) as [Hplace _].
  split; [|split; reflexivity].
  change (eventAbbr sample200) with "200" in Hplace.
  rewrite Hplace. reflexivity.
Defined.

(* ================================================================= *)
(** * Further properties of the optimizers *)

(** ** The combination check as a predicate on multisets *)

Lemma filter_length_perm {A : Type} (p : A -> bool) (l l' : list A) :
  Permutation l l' ->
  List.length (filter p l) = List.length (filter p l').
Proof.
  induction 1 as [|x l l' _ IH|x y l|l l' l'' _ IH1 _ IH2]; simpl; trivial.
  - destruct (p x); simpl; lia.
  - destruct (p x), (p y); simpl; lia.
  - lia.
Qed.

Lemma filter_length_le {A : Type} (p : A -> bool) (l : list A) :
  (List.length (filter p l) <= List.length l)%nat.
Proof.
  induction l as [|x rest IH]; simpl; trivial.
  destruct (p x); simpl; lia.
Qed.

Lemma filter_filter_length_le {A : Type} (p q : A -> bool) (l : list A) :
  (List.length (filter q (filter p l)) <= List.length (filter q l))%nat.
Proof.
  induction l as [|x rest IH]; simpl; trivial.
  destruct (p x); simpl; destruct (q x); simpl; lia.
Qed.

Lemma filter_full {A : Type} (p : A -> bool) (l : list A) :
  List.length (filter p l) = List.length l -> filter p l = l.
Proof.
  induction l as [|x rest IH]; simpl; trivial.
  destruct (p x); simpl; intros H.
  - f_equal. apply IH. lia.
  - pose proof (filter_length_le p rest). lia.
Qed.

Lemma filter_nonempty_length {A : Type} (p : A -> bool) (l : list A) :
  filter p l <> [] <-> (0 < List.length (filter p l))%nat.
Proof.
  destruct (filter p l); simpl; split; intros H; try lia; congruence.
Qed.

(** A list that is no larger than an accepted list, clause by clause, is
    accepted. *)
Lemma isValidCombination_smaller (events smaller : list string) :
  SimpleTeamEntryOptimizer.isValidCombination events = true ->
  (List.length smaller <= List.length events)%nat ->
  incl smaller events ->
  (List.length (filter isOtherRunning smaller) <=
   List.length (filter isOtherRunning events))%nat ->
  (List.length smaller = List.length events ->
   List.length (filter ResultUtils.isFieldEvent smaller) =
   List.length (filter ResultUtils.isFieldEvent events)) ->
  SimpleTeamEntryOptimizer.isValidCombination smaller = true.
Proof.
  intros Hvalid Hlen Hincl Hother Hfield.
  apply isValidCombination_true_iff in Hvalid as [Hcap Hdouble].
  apply isValidCombination_true_iff. split; [lia|].
  intros H16 H8.
  destruct (Hdouble (Hincl _ H16) (Hincl _ H8)) as [H1 H4].
  split; [lia|]. intros Hfour.
  apply filter_nonempty_length. rewrite Hfield by lia.
  apply filter_nonempty_length, H4. lia.
Qed.

(** X1. The combination check of both optimizers does not depend on the
    order of the events: two lists that are permutations of each other
    are both accepted or both rejected. *)
Theorem isValidCombination_order_irrelevant :
  forall events events',
    Permutation events events' ->
    SimpleTeamEntryOptimizer.isValidCombination events =
    SimpleTeamEntryOptimizer.isValidCombination events' /\
    AdvancedTeamEntryOptimizer.isValidCombination events =
    AdvancedTeamEntryOptimizer.isValidCombination events'.
Proof.
  assert (Hone : forall l l',
             Permutation l l' ->
             SimpleTeamEntryOptimizer.isValidCombination l = true ->
             SimpleTeamEntryOptimizer.isValidCombination l' = true).
  { intros l l' Hperm Hvalid.
    apply isValidCombination_smaller with (events := l); trivial.
    - now rewrite (Permutation_length Hperm).
    - intros x Hx. apply Permutation_in with l'; [now symmetry | trivial].
    - now rewrite (filter_length_perm _ _ _ Hperm).
    - intros _. symmetry. now apply filter_length_perm. }
  intros events events' Hperm.
  assert (SimpleTeamEntryOptimizer.isValidCombination events =
          SimpleTeamEntryOptimizer.isValidCombination events').
  { apply eq_true_iff_eq. split; apply Hone; [trivial | now symmetry]. }
  split; trivial.
Qed.

Lemma isValidCombination_order_irrelevant_witness :
  SimpleTeamEntryOptimizer.isValidCombination ["LJ"; "1600"; "800"; "200"] =
  SimpleTeamEntryOptimizer.isValidCombination ["1600"; "800"; "200"; "LJ"].
Proof.
  apply (isValidCombination_order_irrelevant
           ["LJ"; "1600"; "800"; "200"] ["1600"; "800"; "200"; "LJ"]).
  change ["LJ"; "1600"; "800"; "200"] with (["LJ"] ++ ["1600"; "800"; "200"]).
  change ["1600"; "800"; "200"; "LJ"] with (["1600"; "800"; "200"] ++ ["LJ"]).
  apply Permutation_app_comm.
Defined.

(** X2. Dropping events from an accepted combination keeps it accepted:
    when the events of an accepted list are, in some order, the events
    kept followed by the events dropped, the list of the events kept is
    accepted by both checks.  Every sublist of an accepted list, also one
    that drops only some of several equal codes, and every filtering of
    it are such lists of kept events. *)
Theorem isValidCombination_hereditary :
  forall events kept dropped,
    Permutation events (kept ++ dropped) ->
    SimpleTeamEntryOptimizer.isValidCombination events = true ->
    SimpleTeamEntryOptimizer.isValidCombination kept = true /\
    AdvancedTeamEntryOptimizer.isValidCombination kept = true.
Proof.
  intros events kept dropped Hperm Hvalid.
  assert (Hlen : List.length events =
                 (List.length kept + List.length dropped)%nat).
  { rewrite (Permutation_length Hperm). apply length_app. }
  assert (SimpleTeamEntryOptimizer.isValidCombination kept = true).
  { apply isValidCombination_smaller with (events := events); trivial.
    - lia.
    - intros x Hx. apply (Permutation_in x (Permutation_sym Hperm)).
      apply in_or_app. now left.
    - rewrite (filter_length_perm isOtherRunning _ _ Hperm).
      rewrite filter_app, length_app. lia.
    - intros Hfull. destruct dropped as [|d dropped]; [|cbn in Hlen; lia].
      rewrite app_nil_r in Hperm.
      symmetry. now apply filter_length_perm. }
  split; trivial.
Qed.

Lemma isValidCombination_hereditary_witness :
  Permutation ["1600"; "1600"; "800"; "LJ"] (["1600"; "800"; "LJ"] ++ ["1600"])
  /\
  SimpleTeamEntryOptimizer.isValidCombination ["1600"; "1600"; "800"; "LJ"]
  = true /\
  SimpleTeamEntryOptimizer.isValidCombination ["1600"; "800"; "LJ"] = true.
Proof.
  assert (Hperm : Permutation ["1600"; "1600"; "800"; "LJ"]
                    (["1600"; "800"; "LJ"] ++ ["1600"])).
  { apply Permutation_cons_app with (l1 := ["1600"; "800"; "LJ"]) (l2 := []).
    rewrite app_nil_r. apply Permutation_refl. }
  split; [exact Hperm|]. split; [reflexivity|].
  apply (isValidCombination_hereditary
           ["1600"; "1600"; "800"; "LJ"] ["1600"; "800"; "LJ"] ["1600"]
           Hperm).
  reflexivity.
Defined.

(** X3. Unless both "1600" and "800" are present, the check is the cap
    alone: the list is accepted exactly when it has at most 4 events. *)
Theorem isValidCombination_without_double :
  forall events,
    ~ (In "1600" events /\ In "800" events) ->
    SimpleTeamEntryOptimizer.isValidCombination events =
    (List.length events <=? 4)%nat /\
    AdvancedTeamEntryOptimizer.isValidCombination events =
    (List.length events <=? 4)%nat.
Proof.
  intros events Hno.
  assert (SimpleTeamEntryOptimizer.isValidCombination events =
          (List.length events <=? 4)%nat).
  { apply eq_true_iff_eq.
    rewrite isValidCombination_true_iff, Nat.leb_le. split.
    - now intros [H _].
    - intros H. split; trivial. intros H16 H8. destruct Hno. auto. }
  split; trivial.
Qed.

Lemma isValidCombination_without_double_witness :
  SimpleTeamEntryOptimizer.isValidCombination ["100"; "200"; "400"; "800"]
  = true.
Proof.
  apply (isValidCombination_without_double ["100"; "200"; "400"; "800"]).
  simpl. intuition discriminate.
Defined.

(* ----------------------------------------------------------------- *)
(** ** The loop over the athletes as a pass over their picks *)

Lemma foldM_pure_map {A B C S : Type} (f : S -> A -> Exc S)
    (g : S -> C -> S) (k : B -> A) (h : B -> C) (l : list B) (s : S) :
  (forall y acc, In y l -> f acc (k y) = Ok (g acc (h y))) ->
  foldM f (map k l) s = Ok (fold_left g (map h l) s).
Proof.
  revert s. induction l as [|y rest IH]; intros s Hstep; simpl; trivial.
  rewrite (Hstep y s (or_introl eq_refl)). simpl.
  apply IH. intros z acc Hz. apply Hstep. now right.
Qed.

Lemma find_first_eventNameOf allRankings e d :
  find_first (fun x => String.eqb (eventAbbr x) e) allRankings = Some d ->
  eventNameOf allRankings e = eventName d.
Proof. unfold eventNameOf. now intros ->. Qed.

Lemma in_keys_get_inv {V : Type} (k : string) (v : V) (m : JSMap.t V) :
  JSMap.get k m = Some v -> In k (JSMap.keys m).
Proof.
  intros H. apply JSMapFacts.has_true_iff. unfold JSMap.has. now rewrite H.
Qed.

Module PassFacts.
Import JSMapFacts.

Lemma sumRowPoints_cons row rows :
  sumRowPoints (row :: rows) = ea_projectedPoints row + sumRowPoints rows.
Proof. reflexivity. Qed.

Lemma recordAthlete_empty allRankings state a :
  recordAthlete allRankings state (a, []) = state.
Proof. reflexivity. Qed.

Lemma recordAthlete_nonempty allRankings state a picks :
  picks <> [] ->
  recordAthlete allRankings state (a, picks) =
  (fst state ++ [entryOf a picks],
   fold_left (addRow allRankings) picks (snd state)).
Proof. destruct picks; [congruence | reflexivity]. Qed.

(** The two "Add to event breakdown" bodies are [addRow]. *)
Lemma simple_addToBreakdown_addRow allRankings a eventScores ee ev score :
  JSMap.get ev eventScores = Some score ->
  (exists d, find_first (fun x => String.eqb (eventAbbr x) ev) allRankings
             = Some d) ->
  SimpleTeamEntryOptimizer.addToBreakdown allRankings a eventScores ee ev =
  Ok (addRow allRankings ee (ev, simpleRow a score)).
Proof.
  intros Hscore (d & Hd).
  unfold SimpleTeamEntryOptimizer.addToBreakdown, addRow, JSMap.update.
  rewrite Hscore, Hd. cbn [nonNull bind fst snd].
  rewrite (find_first_eventNameOf _ _ _ Hd).
  destruct (JSMap.has ev ee) eqn:Hhas; cbn [negb bind nonNull].
  - unfold JSMap.has in Hhas.
    destruct (JSMap.get ev ee) as [entry|]; [reflexivity | discriminate].
  - rewrite get_set_eq. reflexivity.
Qed.

Lemma advanced_addToBreakdown_addRow allRankings a ee score :
  (exists d,
      find_first (fun x => String.eqb (eventAbbr x)
                             (AdvancedTeamEntryOptimizer.aes_event score))
                 allRankings = Some d) ->
  AdvancedTeamEntryOptimizer.addToBreakdown allRankings a ee score =
  Ok (addRow allRankings ee
        (AdvancedTeamEntryOptimizer.aes_event score, advancedRow a score)).
Proof.
  intros (d & Hd).
  unfold AdvancedTeamEntryOptimizer.addToBreakdown, addRow, JSMap.update.
  rewrite Hd. cbn [nonNull bind fst snd].
  rewrite (find_first_eventNameOf _ _ _ Hd).
  destruct (JSMap.has (AdvancedTeamEntryOptimizer.aes_event score) ee)
    eqn:Hhas; cbn [negb bind nonNull].
  - unfold JSMap.has in Hhas.
    destruct (JSMap.get (AdvancedTeamEntryOptimizer.aes_event score) ee)
      as [entry|]; [reflexivity | discriminate].
  - rewrite get_set_eq. reflexivity.
Qed.

(** The picks of a list of events that all have a score. *)
Lemma simple_picks_of a eventScores selected :
  (forall ev, In ev selected ->
              exists score, JSMap.get ev eventScores = Some score) ->
  let picks :=
    flat_map (fun e =>
                match JSMap.get e eventScores with
                | Some score => [(e, simpleRow a score)]
                | None => []
                end) selected in
  map fst picks = selected /\
  (forall sum0,
      foldM (fun sum ev =>
               score <- nonNull (JSMap.get ev eventScores) ;;
               Ok (sum + SimpleTeamEntryOptimizer.s_points score))
            selected sum0
      = Ok (sum0 + sumRowPoints (map snd picks))) /\
  (forall allRankings ee,
      (forall ev, In ev selected ->
                  exists d, find_first
                              (fun x => String.eqb (eventAbbr x) ev)
                              allRankings = Some d) ->
      foldM (SimpleTeamEntryOptimizer.addToBreakdown allRankings a
               eventScores) selected ee
      = Ok (fold_left (addRow allRankings) picks ee)).
Proof.
  induction selected as [|ev rest IH]; intros Hget picks.
  - repeat split; intros; simpl; trivial. f_equal. lia.
  - destruct (Hget ev (or_introl eq_refl)) as (score & Hscore).
    destruct IH as (IH1 & IH2 & IH3).
    { intros e He. apply Hget. now right. }
    subst picks. cbn [flat_map]. rewrite Hscore. cbn [app map fst snd].
    split; [now rewrite IH1|]. split.
    + intros sum0. cbn [foldM]. rewrite Hscore. cbn [nonNull bind].
      rewrite IH2. f_equal. unfold sumRowPoints.
      cbn [fold_right map snd simpleRow ea_projectedPoints]. lia.
    + intros allRankings ee Hfind. cbn [foldM fold_left].
      rewrite (simple_addToBreakdown_addRow _ _ _ _ _ _ Hscore
                 (Hfind ev (or_introl eq_refl))).
      cbn [bind]. apply IH3. intros e He. apply Hfind. now right.
Qed.

(** One turn of the simple optimizer's loop. *)
Lemma simple_processAthlete_pass allRankings scores state a eventScores :
  JSMap.get a scores = Some eventScores ->
  (forall ev, In ev (JSMap.keys eventScores) ->
              exists d, find_first (fun x => String.eqb (eventAbbr x) ev)
                                   allRankings = Some d) ->
  SimpleTeamEntryOptimizer.processAthlete allRankings scores state a =
  Ok (recordAthlete allRankings state (a, simplePicks a eventScores)).
Proof.
  intros Hget Hfind. destruct state as [ae ee].
  unfold SimpleTeamEntryOptimizer.processAthlete. rewrite Hget.
  cbn [nonNull bind].
  fold (simpleSelection eventScores).
  assert (Hsel : forall ev, In ev (simpleSelection eventScores) ->
                            exists score,
                              JSMap.get ev eventScores = Some score).
  { intros ev. apply simple_selection_in_keys. }
  destruct (simple_picks_of a eventScores (simpleSelection eventScores) Hsel)
    as (Hmap & Hsum & Hrows).
  fold (simplePicks a eventScores) in Hmap, Hsum, Hrows.
  rewrite Hsum. cbn [bind].
  destruct (simplePicks a eventScores) as [|p ps] eqn:P.
  - rewrite <- Hmap. reflexivity.
  - rewrite recordAthlete_nonempty by discriminate.
    rewrite <- Hmap at 1.
    change (0 <? List.length (map fst (p :: ps)))%nat with true. cbv iota.
    destruct (firstAndRest (splitSpace a)) as [first rest] eqn:FR.
    rewrite Hrows.
    + cbn [bind]. unfold entryOf. rewrite FR, Hmap. cbn [fst snd].
      rewrite Z.add_0_l. reflexivity.
    + intros ev Hev. apply Hfind.
      destruct (Hsel ev Hev) as (score & Hscore).
      apply in_keys_get_inv with score. exact Hscore.
Qed.

(** One turn of the advanced optimizer's loop. *)
Lemma advanced_processAthlete_pass allRankings state a options :
  (forall option,
      In option options ->
      exists d,
        find_first (fun x => String.eqb (eventAbbr x)
                               (AdvancedTeamEntryOptimizer.aes_event option))
                   allRankings = Some d) ->
  AdvancedTeamEntryOptimizer.processAthlete allRankings state (a, options) =
  Ok (recordAthlete allRankings state (a, advancedPicks a options)).
Proof.
  intros Hfind. destruct state as [ae ee].
  unfold AdvancedTeamEntryOptimizer.processAthlete, advancedPicks.
  fold (advancedSelection options).
  destruct (AdvancedFacts.selectOptions_inv
              (sortBy AdvancedTeamEntryOptimizer.compareOptions options)
              ([], []) eq_refl eq_refl) as (Hmap & _ & more & Hmore & Hincl).
  fold (advancedSelection options) in Hmap, Hmore.
  destruct (advancedSelection options) as [selectedEvents selectedScores].
  cbn [fst snd app] in *. subst more.
  assert (Hrows : forall scores ee0,
             incl scores selectedScores ->
             foldM (AdvancedTeamEntryOptimizer.addToBreakdown allRankings a)
                   scores ee0 =
             Ok (fold_left (addRow allRankings)
                   (map (fun score =>
                           (AdvancedTeamEntryOptimizer.aes_event score,
                            advancedRow a score)) scores) ee0)).
  { induction scores as [|s rest IH]; intros ee0 Hin; simpl; trivial.
    rewrite advanced_addToBreakdown_addRow.
    - simpl. apply IH. intros x Hx. apply Hin. now right.
    - apply Hfind. eapply sortBy_in. apply Hincl, Hin. now left. }
  assert (E1 : forall l,
             map fst (map (fun score =>
                             (AdvancedTeamEntryOptimizer.aes_event score,
                              advancedRow a score)) l) =
             map AdvancedTeamEntryOptimizer.aes_event l).
  { intros l. rewrite map_map. reflexivity. }
  assert (E2 : forall l,
             sumRowPoints
               (map snd (map (fun score =>
                                (AdvancedTeamEntryOptimizer.aes_event score,
                                 advancedRow a score)) l)) =
             fold_left (fun sum s =>
                          sum + AdvancedTeamEntryOptimizer.aes_points s) l 0).
  { intros l. rewrite AdvancedFacts.fold_left_sum_scores, Z.add_0_l.
    induction l as [|x xs IHx]; [reflexivity|].
    cbn [map]. rewrite sumRowPoints_cons, IHx. reflexivity. }
  destruct selectedScores as [|s ss].
  - cbn [map] in Hmap. subst selectedEvents. reflexivity.
  - subst selectedEvents.
    rewrite recordAthlete_nonempty by discriminate.
    change (0 <? List.length
                   (map AdvancedTeamEntryOptimizer.aes_event (s :: ss)))%nat
      with true. cbv iota.
    destruct (firstAndRest (splitSpace a)) as [first rest] eqn:FR.
    rewrite Hrows by apply incl_refl. cbn [bind].
    unfold entryOf. rewrite FR, E1, E2. reflexivity.
Qed.

(** [optimize] on loaded rankings is the pass over the picks. *)
Lemma simple_optimizeRankings_pass localeCompare allRankings teamName
    gender grade :
  SimpleTeamEntryOptimizer.optimizeRankings localeCompare allRankings
    teamName gender grade =
  Ok (SimpleTeamEntryOptimizer.buildResult localeCompare teamName gender grade
        (recordAll allRankings (simpleAthletePicks allRankings teamName))).
Proof.
  unfold SimpleTeamEntryOptimizer.optimizeRankings, recordAll,
    simpleAthletePicks, JSMap.keys, JSMap.entries.
  cbv zeta.
  rewrite (foldM_pure_map _ (recordAthlete allRankings) fst
             (fun kv => (fst kv, simplePicks (fst kv) (snd kv)))).
  - reflexivity.
  - intros [a evs] acc Hin. cbn [fst snd].
    assert (Hget : JSMap.get a
                     (SimpleTeamEntryOptimizer.athleteScores allRankings
                        teamName) = Some evs).
    { apply in_get_Some; trivial. apply SimpleFacts.athleteScores_keys_NoDup. }
    apply simple_processAthlete_pass; trivial.
    intros ev Hev. destruct (in_keys_get _ _ Hev) as (score & Hscore).
    destruct (proj1 (SimpleFacts.athleteScores_candidates allRankings
                       teamName a ev))
      as (d & r & Hd & _ & _ & _ & Hab); [eauto|].
    subst ev. now apply find_first_eventAbbr.
Qed.

Lemma advanced_optimizeRankings_pass localeCompare allRankings teamName
    gender grade :
  AdvancedTeamEntryOptimizer.optimizeRankings localeCompare allRankings
    teamName gender grade =
  Ok (SimpleTeamEntryOptimizer.buildResult localeCompare teamName gender grade
        (recordAll allRankings (advancedAthletePicks allRankings teamName))).
Proof.
  unfold AdvancedTeamEntryOptimizer.optimizeRankings, recordAll,
    advancedAthletePicks.
  cbv zeta.
  rewrite <- (map_id (JSMap.entries _)) at 1.
  rewrite (foldM_pure_map _ (recordAthlete allRankings) (fun kv => kv)
             (fun kv => (fst kv, advancedPicks (fst kv) (snd kv)))).
  - reflexivity.
  - intros [a opts] acc Hin. cbn [fst snd].
    apply advanced_processAthlete_pass.
    intros option Hopt.
    destruct (AdvancedFacts.athleteOptions_entry _ _ _ _ _ Hin) as [_ Hrows].
    destruct (Hrows option Hopt) as (d & r & Hd & _ & _ & _ & ->).
    simpl. now apply find_first_eventAbbr.
Qed.
End PassFacts.

(* ----------------------------------------------------------------- *)
(** ** The state after the pass *)

Module BreakdownFacts.
Import JSMapFacts.

Lemma fold_pushAthlete entry rows :
  fold_left pushAthlete rows entry =
  {| event := event entry;
     ee_eventName := ee_eventName entry;
     athletes := athletes entry ++ rows |}.
Proof.
  revert entry. induction rows as [|r rest IH]; intros entry; simpl.
  - rewrite app_nil_r. now destruct entry.
  - rewrite IH. simpl. now rewrite <- app_assoc.
Qed.

Lemma get_addRow allRankings m p k :
  JSMap.get k (addRow allRankings m p) =
  if String.eqb (fst p) k
  then Some (pushAthlete
               (match JSMap.get k m with
                | Some entry => entry
                | None => breakdownEntry allRankings k []
                end) (snd p))
  else JSMap.get k m.
Proof.
  unfold addRow. destruct (String.eqb (fst p) k) eqn:E.
  - apply String.eqb_eq in E. subst k. now rewrite get_update_eq.
  - apply String.eqb_neq in E. now rewrite get_update_neq by congruence.
Qed.

(** After a run of pushes, the entry under a code holds the rows pushed
    under that code, after the rows it held before. *)
Lemma get_addRows allRankings picks m k :
  JSMap.get k (fold_left (addRow allRankings) picks m) =
  match rowsUnder k picks with
  | [] => JSMap.get k m
  | rows =>
      Some (fold_left pushAthlete rows
              (match JSMap.get k m with
               | Some entry => entry
               | None => breakdownEntry allRankings k []
               end))
  end.
Proof.
  unfold rowsUnder. revert m.
  induction picks as [|p rest IH]; intros m; cbn [fold_left filter map];
    trivial.
  rewrite IH, get_addRow.
  destruct (String.eqb (fst p) k) eqn:E; [|reflexivity].
  cbn [map fold_left]. destruct (map snd (filter _ rest)); reflexivity.
Qed.

Lemma get_addRows_empty allRankings picks k :
  JSMap.get k (fold_left (addRow allRankings) picks JSMap.empty) =
  match rowsUnder k picks with
  | [] => None
  | rows => Some (breakdownEntry allRankings k rows)
  end.
Proof.
  rewrite get_addRows. cbn [JSMap.get JSMap.empty].
  destruct (rowsUnder k picks) as [|r rows]; trivial.
  now rewrite fold_pushAthlete.
Qed.

Lemma NoDup_keys_addRows allRankings picks m :
  NoDup (JSMap.keys m) ->
  NoDup (JSMap.keys (fold_left (addRow allRankings) picks m)).
Proof.
  revert m. induction picks as [|p rest IH]; intros m H; simpl; trivial.
  apply IH. unfold addRow. now apply NoDup_keys_update.
Qed.

(** The entries of the finished breakdown map. *)
Lemma in_addRows allRankings picks k entry :
  In (k, entry) (fold_left (addRow allRankings) picks JSMap.empty) <->
  rowsUnder k picks <> [] /\
  entry = breakdownEntry allRankings k (rowsUnder k picks).
Proof.
  assert (Hget : JSMap.get k
                   (fold_left (addRow allRankings) picks JSMap.empty)
                 = Some entry <->
                 rowsUnder k picks <> [] /\
                 entry = breakdownEntry allRankings k (rowsUnder k picks)).
  { rewrite get_addRows_empty.
    destruct (rowsUnder k picks) as [|r rows]; split.
    - discriminate.
    - intros [H _]. congruence.
    - intros H. split; [discriminate | congruence].
    - intros [_ H]. congruence. }
  rewrite <- Hget. split.
  - apply in_get_Some. apply NoDup_keys_addRows. constructor.
  - apply get_Some_in.
Qed.

Lemma recordAthlete_from allRankings aps ae ee :
  fold_left (recordAthlete allRankings) aps (ae, ee) =
  (ae ++ map (fun ap => entryOf (fst ap) (snd ap)) (filter hasPicks aps),
   fold_left (addRow allRankings) (allPicks aps) ee).
Proof.
  unfold allPicks. revert ae ee.
  induction aps as [|[a picks] rest IH]; intros ae ee;
    cbn [fold_left filter map flat_map].
  - now rewrite app_nil_r.
  - destruct picks as [|p ps].
    + rewrite PassFacts.recordAthlete_empty. cbn [hasPicks snd app].
      apply IH.
    + rewrite PassFacts.recordAthlete_nonempty by discriminate.
      cbn [fst snd hasPicks map]. rewrite fold_left_app, IH.
      f_equal. now rewrite <- app_assoc.
Qed.

(** The state after the pass: the entries of the athletes with picks,
    and the breakdown of all picks. *)
Lemma recordAll_state allRankings aps :
  recordAll allRankings aps =
  (map (fun ap => entryOf (fst ap) (snd ap)) (filter hasPicks aps),
   fold_left (addRow allRankings) (allPicks aps) JSMap.empty).
Proof. unfold recordAll. now rewrite recordAthlete_from. Qed.
End BreakdownFacts.

(* ----------------------------------------------------------------- *)
(** ** Where the picks come from *)

Module PickFacts.
Import JSMapFacts.

Lemma get_fold_set_value {X V : Type} (key : X -> string) (val : X -> V)
    (xs : list X) (m : JSMap.t V) (k : string) (v : V) :
  JSMap.get k (fold_left (fun m x => JSMap.set (key x) (val x) m) xs m)
  = Some v ->
  JSMap.get k m = Some v \/ exists x, In x xs /\ key x = k /\ v = val x.
Proof.
  revert m. induction xs as [|x rest IH]; intros m; simpl; auto.
  intros H. apply IH in H as [H|(y & Hy & Hk & Hv)]; [|right; eauto].
  destruct (string_dec k (key x)) as [->|Hne].
  - rewrite get_set_eq in H. inversion H. right. eauto.
  - rewrite get_set_neq in H by trivial. auto.
Qed.

Lemma NoDup_keys_fold_set {X V : Type} (key : X -> string) (val : X -> V)
    (xs : list X) (m : JSMap.t V) :
  NoDup (JSMap.keys m) ->
  NoDup (JSMap.keys
           (fold_left (fun m x => JSMap.set (key x) (val x) m) xs m)).
Proof.
  revert m. induction xs as [|x rest IH]; intros m H; simpl; trivial.
  apply IH. rewrite keys_set.
  destruct (JSMap.has (key x) m) eqn:E; trivial.
  apply NoDup_app; trivial.
  - constructor; [simpl; tauto | constructor].
  - intros y Hy [<-|[]]. apply has_true_iff in Hy. congruence.
Qed.

(** The score stored for an athlete and an event is that of a row of the
    team with the athlete's name in a category of the event. *)
Lemma simple_score_source allRankings teamName a eventScores ev score :
  JSMap.get a (SimpleTeamEntryOptimizer.athleteScores allRankings teamName)
    = Some eventScores ->
  JSMap.get ev eventScores = Some score ->
  exists eventData ranking,
    In eventData allRankings /\ In ranking (rankings eventData) /\
    team ranking = teamName /\ r_athlete ranking = a /\
    eventAbbr eventData = ev /\
    score = {| SimpleTeamEntryOptimizer.s_rank := rank ranking;
               SimpleTeamEntryOptimizer.s_points :=
                 SimpleTeamEntryOptimizer.pointsAt (rank ranking) |}.
Proof.
  rewrite SimpleFacts.athleteScores_group. intros Hget Hscore.
  apply get_group_Some in Hget as [_ ->].
  apply (get_fold_set_value (fun p => eventAbbr (fst p))
           (fun p => {| SimpleTeamEntryOptimizer.s_rank := rank (snd p);
                        SimpleTeamEntryOptimizer.s_points :=
                          SimpleTeamEntryOptimizer.pointsAt (rank (snd p)) |}))
    in Hscore.
  destruct Hscore as [H|([d r] & Hin & Hk & Hv)]; [discriminate|].
  apply filter_In in Hin as [Hin Ha]. apply String.eqb_eq in Ha.
  apply in_teamRows in Hin as (Hd & Hr & Ht). simpl in *.
  exists d, r. repeat split; trivial.
Qed.

Lemma simple_scores_keys_NoDup allRankings teamName a eventScores :
  JSMap.get a (SimpleTeamEntryOptimizer.athleteScores allRankings teamName)
    = Some eventScores ->
  NoDup (JSMap.keys eventScores).
Proof.
  rewrite SimpleFacts.athleteScores_group. intros Hget.
  apply get_group_Some in Hget as [_ ->].
  apply (NoDup_keys_fold_set (fun p => eventAbbr (fst p))
           (fun p => {| SimpleTeamEntryOptimizer.s_rank := rank (snd p);
                        SimpleTeamEntryOptimizer.s_points :=
                          SimpleTeamEntryOptimizer.pointsAt (rank (snd p)) |})).
  constructor.
Qed.

Lemma simple_picks_events a eventScores :
  map fst (simplePicks a eventScores) = simpleSelection eventScores.
Proof.
  apply (PassFacts.simple_picks_of a eventScores (simpleSelection eventScores)).
  intros ev. apply simple_selection_in_keys.
Qed.

Lemma in_simplePicks a eventScores ev row :
  In (ev, row) (simplePicks a eventScores) ->
  exists score,
    JSMap.get ev eventScores = Some score /\ row = simpleRow a score.
Proof.
  unfold simplePicks. intros H. apply in_flat_map in H as (e & _ & H).
  destruct (JSMap.get e eventScores) as [score|] eqn:G; [|destruct H].
  destruct H as [H|[]]. inversion H; subst. eauto.
Qed.

Lemma simple_picks_source allRankings teamName a picks :
  In (a, picks) (simpleAthletePicks allRankings teamName) ->
  picks <> [] /\
  SimpleTeamEntryOptimizer.isValidCombination (map fst picks) = true /\
  forall ev row,
    In (ev, row) picks ->
    ea_athlete row = a /\
    rowFromRanking simplePlace allRankings teamName ev row.
Proof.
  unfold simpleAthletePicks, JSMap.entries. intros H.
  apply in_map_iff in H as ([a' evs] & Heq & Hin). cbn [fst snd] in Heq.
  inversion Heq; subst a' picks. clear Heq.
  assert (Hget : JSMap.get a
                   (SimpleTeamEntryOptimizer.athleteScores allRankings
                      teamName) = Some evs).
  { apply in_get_Some; trivial. apply SimpleFacts.athleteScores_keys_NoDup. }
  split; [|split].
  - intros E. apply (f_equal (map fst)) in E.
    rewrite simple_picks_events in E. cbn [map] in E.
    apply SimpleFacts.athleteScores_nonempty in Hget.
    unfold simpleSelection in E.
    destruct (sortBy SimpleTeamEntryOptimizer.compareEvents
                (JSMap.entries evs)) as [|c cs] eqn:S.
    + apply sortBy_nil_inv in S. now destruct Hget.
    + now apply SimpleFacts.selectEvents_first in E.
  - rewrite simple_picks_events. apply simple_selection_valid.
  - intros ev row Hrow.
    apply in_simplePicks in Hrow as (score & Hscore & ->).
    split; [reflexivity|].
    destruct (simple_score_source _ _ _ _ _ _ Hget Hscore)
      as (d & r & Hd & Hr & Ht & Ha & He & ->).
    exists d, r. cbn. auto 10.
Qed.

Lemma advanced_picks_source allRankings teamName a picks :
  In (a, picks) (advancedAthletePicks allRankings teamName) ->
  picks <> [] /\
  SimpleTeamEntryOptimizer.isValidCombination (map fst picks) = true /\
  forall ev row,
    In (ev, row) picks ->
    ea_athlete row = a /\
    rowFromRanking advancedPlace allRankings teamName ev row.
Proof.
  unfold advancedAthletePicks. intros H.
  apply in_map_iff in H as ([a' opts] & Heq & Hin). cbn [fst snd] in Heq.
  inversion Heq; subst a' picks. clear Heq.
  destruct (AdvancedFacts.athleteOptions_entry _ _ _ _ _ Hin) as [Hne Hrows].
  unfold advancedPicks.
  destruct (AdvancedFacts.selectOptions_inv
              (sortBy AdvancedTeamEntryOptimizer.compareOptions opts)
              ([], []) eq_refl eq_refl) as (Hmap & Hvalid & more & Hmore & Hincl).
  fold (advancedSelection opts) in Hmap, Hvalid, Hmore.
  cbn [snd app] in Hmore.
  split; [|split].
  - intros E. apply map_eq_nil in E.
    rewrite E in Hmap. cbn [map] in Hmap.
    unfold advancedSelection in Hmap.
    destruct (sortBy AdvancedTeamEntryOptimizer.compareOptions opts)
      as [|c cs] eqn:S.
    + apply sortBy_nil_inv in S. now destruct Hne.
    + now apply AdvancedFacts.selectOptions_first in Hmap.
  - replace (map fst
               (map (fun score =>
                       (AdvancedTeamEntryOptimizer.aes_event score,
                        advancedRow a score))
                    (snd (advancedSelection opts))))
      with (fst (advancedSelection opts)); [exact Hvalid|].
    rewrite Hmap, map_map. reflexivity.
  - intros ev row Hrow. apply in_map_iff in Hrow as (score & Heq & Hs).
    inversion Heq; subst ev row. clear Heq.
    split; [reflexivity|].
    rewrite Hmore in Hs. apply Hincl in Hs. apply sortBy_in in Hs.
    destruct (Hrows score Hs) as (d & r & Hd & Hr & Ht & Ha & ->).
    exists d, r. cbn. auto 10.
Qed.

Lemma simple_picks_athletes allRankings teamName :
  map fst (simpleAthletePicks allRankings teamName) =
  JSMap.keys (SimpleTeamEntryOptimizer.athleteScores allRankings teamName).
Proof.
  unfold simpleAthletePicks, JSMap.entries, JSMap.keys.
  rewrite map_map. reflexivity.
Qed.

Lemma advanced_picks_athletes allRankings teamName :
  map fst (advancedAthletePicks allRankings teamName) =
  JSMap.keys
    (AdvancedTeamEntryOptimizer.athleteOptions allRankings
       (AdvancedTeamEntryOptimizer.predictCompetition allRankings) teamName).
Proof.
  unfold advancedAthletePicks, JSMap.entries, JSMap.keys.
  rewrite map_map. reflexivity.
Qed.
End PickFacts.

(** The anatomy of a result: how either optimizer builds it from the
    picks of the team's athletes. *)
Lemma result_anatomy loadRankings optimize place :
  optimizerPlaces loadRankings optimize place ->
  forall localeCompare fs rankingsDir season teamName gender grade
         allRankings,
    loadRankings fs rankingsDir season gender grade = Ok allRankings ->
    exists aps,
      optimize localeCompare fs rankingsDir season teamName gender grade =
      Ok (SimpleTeamEntryOptimizer.buildResult localeCompare teamName
            gender grade (recordAll allRankings aps)) /\
      NoDup (map fst aps) /\
      (forall a,
          In a (map fst aps) <->
          exists eventData ranking,
            In eventData allRankings /\ In ranking (rankings eventData) /\
            team ranking = teamName /\ r_athlete ranking = a) /\
      (forall a picks,
          In (a, picks) aps ->
          picks <> [] /\
          SimpleTeamEntryOptimizer.isValidCombination (map fst picks) = true
          /\
          forall ev row,
            In (ev, row) picks ->
            ea_athlete row = a /\
            rowFromRanking place allRankings teamName ev row).
Proof.
  intros [(-> & -> & ->)|(-> & -> & ->)] lc fs dir season teamName gender
         grade allRankings Hload.
  - exists (simpleAthletePicks allRankings teamName). split; [|split; [|split]].
    + unfold SimpleTeamEntryOptimizer.optimize. rewrite Hload.
      apply PassFacts.simple_optimizeRankings_pass.
    + rewrite PickFacts.simple_picks_athletes.
      apply SimpleFacts.athleteScores_keys_NoDup.
    + intros a. rewrite PickFacts.simple_picks_athletes.
      apply SimpleFacts.athleteScores_keys.
    + apply PickFacts.simple_picks_source.
  - exists (advancedAthletePicks allRankings teamName).
    split; [|split; [|split]].
    + unfold AdvancedTeamEntryOptimizer.optimize. rewrite Hload.
      apply PassFacts.advanced_optimizeRankings_pass.
    + rewrite PickFacts.advanced_picks_athletes.
      apply AdvancedFacts.athleteOptions_keys_NoDup.
    + intros a. rewrite PickFacts.advanced_picks_athletes.
      apply AdvancedFacts.athleteOptions_keys.
    + apply PickFacts.advanced_picks_source.
Qed.

Lemma in_allPicks aps ev row :
  In (ev, row) (allPicks aps) <->
  exists a picks, In (a, picks) aps /\ In (ev, row) picks.
Proof.
  unfold allPicks. rewrite in_flat_map. split.
  - intros ([a picks] & Hin & Hp). eauto.
  - intros (a & picks & Hin & Hp). exists (a, picks). auto.
Qed.

Lemma in_rowsUnder e picks row :
  In row (rowsUnder e picks) <-> In (e, row) picks.
Proof.
  unfold rowsUnder. rewrite in_map_iff. split.
  - intros ([e' r] & Heq & Hin). apply filter_In in Hin as [Hin He].
    apply String.eqb_eq in He. simpl in *. now subst.
  - intros Hin. exists (e, row). split; trivial.
    apply filter_In. split; trivial. apply String.eqb_refl.
Qed.

(** The two lists of a result in terms of the picks. *)
Lemma result_shape localeCompare teamName gender grade allRankings aps :
  (forall a picks, In (a, picks) aps -> picks <> []) ->
  let result :=
    SimpleTeamEntryOptimizer.buildResult localeCompare teamName gender grade
      (recordAll allRankings aps) in
  Permutation (athleteEntries result)
              (map (fun ap => entryOf (fst ap) (snd ap)) aps) /\
  (forall be,
      In be (eventBreakdown result) <->
      exists e,
        rowsUnder e (allPicks aps) <> [] /\
        be = sortAthletes
               (fun a b => ea_projectedPlace a - ea_projectedPlace b)
               (breakdownEntry allRankings e (rowsUnder e (allPicks aps)))) /\
  NoDup (map event (eventBreakdown result)).
Proof.
  intros Hne. rewrite BreakdownFacts.recordAll_state.
  assert (Hall : filter hasPicks aps = aps).
  { induction aps as [|[a picks] rest IH]; simpl; trivial.
    destruct picks as [|p ps].
    - now destruct (Hne a [] (or_introl eq_refl)).
    - cbn [hasPicks snd]. f_equal. apply IH.
      intros b q Hb. apply (Hne b q). now right. }
  rewrite Hall. cbn.
  set (ee := fold_left (addRow allRankings) (allPicks aps) JSMap.empty).
  assert (Hvalues : forall v,
             In v (JSMap.values ee) <->
             exists e, rowsUnder e (allPicks aps) <> [] /\
                       v = breakdownEntry allRankings e
                             (rowsUnder e (allPicks aps))).
  { intros v. unfold JSMap.values. rewrite in_map_iff. split.
    - intros ([k v'] & <- & Hin).
      apply BreakdownFacts.in_addRows in Hin. eauto.
    - intros (e & H1 & H2). exists (e, v). split; trivial.
      apply BreakdownFacts.in_addRows. auto. }
  split; [apply sortBy_perm|]. split.
  - intros be. rewrite in_map_iff. split.
    + intros (v & <- & Hv). apply sortBy_in, Hvalues in Hv as (e & H1 & ->).
      eauto.
    + intros (e & H1 & ->). eexists. split; [reflexivity|].
      apply sortBy_in, Hvalues. eauto.
  - rewrite map_map. cbn [sortAthletes event].
    apply Permutation_NoDup with (map event (JSMap.values ee)).
    + apply Permutation_map. symmetry. apply sortBy_perm.
    + replace (map event (JSMap.values ee)) with (JSMap.keys ee).
      * apply BreakdownFacts.NoDup_keys_addRows. constructor.
      * unfold JSMap.keys, JSMap.values. rewrite map_map.
        apply map_ext_in. intros [k v] Hin.
        apply BreakdownFacts.in_addRows in Hin as [_ ->]. reflexivity.
Qed.

(* ----------------------------------------------------------------- *)
(** ** The greedy selection is maximal *)

Lemma isValidCombination_drop_middle (l1 l2 : list string) (c : string) :
  SimpleTeamEntryOptimizer.isValidCombination (l1 ++ l2 ++ [c]) = true ->
  SimpleTeamEntryOptimizer.isValidCombination (l1 ++ [c]) = true.
Proof.
  intros Hvalid.
  apply isValidCombination_smaller with (events := l1 ++ l2 ++ [c]); trivial.
  - rewrite !length_app. lia.
  - intros x Hx. apply in_app_or in Hx as [Hx|Hx];
      apply in_or_app; [now left | right; apply in_or_app; now right].
  - rewrite !filter_app, !length_app. lia.
  - rewrite !length_app. intros Hlen.
    assert (l2 = []) by (destruct l2; simpl in *; [trivial | lia]).
    now subst l2.
Qed.

Lemma isValidCombination_over_cap (l : list string) (c : string) :
  (4 <= List.length l)%nat ->
  SimpleTeamEntryOptimizer.isValidCombination (l ++ [c]) = false.
Proof.
  intros Hlen.
  destruct (SimpleTeamEntryOptimizer.isValidCombination (l ++ [c])) eqn:V;
    trivial.
  apply isValidCombination_length in V. rewrite length_app in V.
  simpl in V. lia.
Qed.

Lemma selectEvents_maximal sortedEvents selectedEvents c :
  In c (map fst sortedEvents) ->
  In c (SimpleTeamEntryOptimizer.selectEvents sortedEvents selectedEvents) \/
  SimpleTeamEntryOptimizer.isValidCombination
    (SimpleTeamEntryOptimizer.selectEvents sortedEvents selectedEvents ++ [c])
  = false.
Proof.
  revert selectedEvents.
  induction sortedEvents as [|[event score] rest IH]; intros sel Hc;
    [destruct Hc|].
  cbn [SimpleTeamEntryOptimizer.selectEvents].
  destruct (Nat.leb_spec 4 (List.length sel)) as [Hcap|Hroom].
  { right. now apply isValidCombination_over_cap. }
  cbn [map fst] in Hc.
  destruct (SimpleTeamEntryOptimizer.isValidCombination (sel ++ [event]))
    eqn:V.
  - destruct Hc as [<-|Hc]; [|now apply IH].
    left.
    destruct (SimpleFacts.selectEvents_extends rest (sel ++ [event]))
      as (more & -> & _).
    apply in_or_app. left. apply in_or_app. right. now left.
  - destruct Hc as [<-|Hc]; [|now apply IH].
    right.
    destruct (SimpleFacts.selectEvents_extends rest sel) as (more & -> & _).
    destruct (SimpleTeamEntryOptimizer.isValidCombination
                ((sel ++ more) ++ [event])) eqn:W; trivial.
    rewrite <- app_assoc in W.
    apply isValidCombination_drop_middle in W. congruence.
Qed.

Lemma selectOptions_extends sortedOptions selectedEvents selectedScores :
  exists more,
    fst (AdvancedTeamEntryOptimizer.selectOptions sortedOptions
           (selectedEvents, selectedScores)) = selectedEvents ++ more.
Proof.
  revert selectedEvents selectedScores.
  induction sortedOptions as [|option rest IH]; intros sel scores;
    cbn [AdvancedTeamEntryOptimizer.selectOptions].
  - exists []. cbn [fst]. now rewrite app_nil_r.
  - destruct (4 <=? List.length sel)%nat.
    { exists []. cbn [fst]. now rewrite app_nil_r. }
    destruct (AdvancedTeamEntryOptimizer.isValidCombination
                (sel ++ [AdvancedTeamEntryOptimizer.aes_event option])).
    + destruct (IH (sel ++ [AdvancedTeamEntryOptimizer.aes_event option])
                   (scores ++ [option])) as (more & ->).
      exists (AdvancedTeamEntryOptimizer.aes_event option :: more).
      now rewrite <- app_assoc.
    + apply IH.
Qed.

Lemma selectOptions_maximal sortedOptions selectedEvents selectedScores c :
  In c (map AdvancedTeamEntryOptimizer.aes_event sortedOptions) ->
  In c (fst (AdvancedTeamEntryOptimizer.selectOptions sortedOptions
               (selectedEvents, selectedScores))) \/
  SimpleTeamEntryOptimizer.isValidCombination
    (fst (AdvancedTeamEntryOptimizer.selectOptions sortedOptions
            (selectedEvents, selectedScores)) ++ [c]) = false.
Proof.
  revert selectedEvents selectedScores.
  induction sortedOptions as [|option rest IH]; intros sel scores Hc;
    [destruct Hc|].
  cbn [AdvancedTeamEntryOptimizer.selectOptions].
  destruct (Nat.leb_spec 4 (List.length sel)) as [Hcap|Hroom].
  { right. now apply isValidCombination_over_cap. }
  cbn [map] in Hc.
  destruct (AdvancedTeamEntryOptimizer.isValidCombination
              (sel ++ [AdvancedTeamEntryOptimizer.aes_event option])) eqn:V.
  - destruct Hc as [<-|Hc]; [|now apply IH].
    left.
    destruct (selectOptions_extends rest
                (sel ++ [AdvancedTeamEntryOptimizer.aes_event option])
                (scores ++ [option])) as (more & ->).
    apply in_or_app. left. apply in_or_app. right. now left.
  - destruct Hc as [<-|Hc]; [|now apply IH].
    right.
    destruct (selectOptions_extends rest sel scores) as (more & ->).
    destruct (SimpleTeamEntryOptimizer.isValidCombination
                ((sel ++ more) ++
                 [AdvancedTeamEntryOptimizer.aes_event option])) eqn:W;
      trivial.
    rewrite <- app_assoc in W.
    apply isValidCombination_drop_middle in W.
    rewrite advanced_isValidCombination_eq in V. congruence.
Qed.

(** X4. The selection of either optimizer is maximal: for every entry of
    a result and every ranking row of the team that carries the entry's
    athlete, the event of the row is among the entry's events or cannot
    be added to them without failing the combination check. *)
Theorem selection_is_maximal :
  forall loadRankings optimize,
    isOptimizer loadRankings optimize ->
    forall localeCompare fs rankingsDir season teamName gender grade
           allRankings result entry eventData ranking,
      loadRankings fs rankingsDir season gender grade = Ok allRankings ->
      optimize localeCompare fs rankingsDir season teamName gender grade
      = Ok result ->
      In entry (athleteEntries result) ->
      In eventData allRankings ->
      In ranking (rankings eventData) ->
      team ranking = teamName ->
      r_athlete ranking = athlete entry ->
      In (eventAbbr eventData) (events entry) \/
      (SimpleTeamEntryOptimizer.isValidCombination
         (events entry ++ [eventAbbr eventData]) = false /\
       AdvancedTeamEntryOptimizer.isValidCombination
         (events entry ++ [eventAbbr eventData]) = false).
Proof.
  intros load optimize Hopt lc fs dir season teamName gender grade
         allRankings result entry d r Hload Hres Hentry Hd Hr Ht Ha.
  assert (Hgoal : In (eventAbbr d) (events entry) \/
                  SimpleTeamEntryOptimizer.isValidCombination
                    (events entry ++ [eventAbbr d]) = false);
    [|destruct Hgoal as [H|H]; [now left | right; split; exact H]].
  destruct Hopt as [[-> ->]|[-> ->]].
  - unfold SimpleTeamEntryOptimizer.optimize in Hres.
    rewrite Hload in Hres. cbn [bind] in Hres.
    destruct (SimpleRun.simple_optimizeRankings_returns lc allRankings
                teamName gender grade) as (ae & ee & Hret & _ & Hall & _).
    rewrite Hret in Hres. apply Ok_inj in Hres. subst result.
    cbn in Hentry. apply sortBy_in in Hentry.
    rewrite Forall_forall in Hall.
    destruct (Hall entry Hentry) as (evs & Hget & ->).
    apply selectEvents_maximal.
    destruct (proj2 (SimpleFacts.athleteScores_candidates allRankings
                       teamName (athlete entry) (eventAbbr d)))
      as (evs' & score & Hget' & Hscore).
    { exists d, r. auto. }
    rewrite Hget in Hget'. inversion Hget'; subst evs'.
    apply JSMapFacts.get_Some_in in Hscore.
    apply in_map_iff. exists (eventAbbr d, score). split; trivial.
    now apply sortBy_in.
  - unfold AdvancedTeamEntryOptimizer.optimize in Hres.
    rewrite Hload in Hres. cbn [bind] in Hres.
    destruct (AdvancedRun.advanced_optimizeRankings_returns lc allRankings
                teamName gender grade) as (ae & ee & Hret & _ & Hall & _).
    rewrite Hret in Hres. apply Ok_inj in Hres. subst result.
    cbn in Hentry. apply sortBy_in in Hentry.
    rewrite Forall_forall in Hall.
    destruct (Hall entry Hentry) as (opts & Hin & ->).
    apply selectOptions_maximal.
    unfold JSMap.entries in Hin.
    apply JSMapFacts.in_get_Some in Hin;
      [|apply AdvancedFacts.athleteOptions_keys_NoDup].
    apply AdvancedFacts.athleteOptions_get in Hin as [_ ->].
    apply in_map_iff.
    exists (advancedOption
              (AdvancedTeamEntryOptimizer.predictCompetition allRankings)
              teamName (d, r)).
    split; [reflexivity|]. apply sortBy_in. apply in_map.
    apply filter_In. split; [|simpl; now apply String.eqb_eq].
    apply in_teamRows. simpl. auto.
Qed.

Lemma selection_is_maximal_witness :
  exists result entry,
    SimpleTeamEntryOptimizer.optimize codeUnitCompare sampleFS
      "rankings" "2025" "Tigers" "Male" "7th grade" = Ok result /\
    In entry (athleteEntries result) /\
    athlete entry = "Zed Zorn" /\
    events entry = ["800"; "400"; "200"] /\
    (In "1600" (events entry) \/
     (SimpleTeamEntryOptimizer.isValidCombination (events entry ++ ["1600"])
      = false /\
      AdvancedTeamEntryOptimizer.isValidCombination (events entry ++ ["1600"])
      = false)).
Proof.
  eexists. eexists.
  split; [vm_compute; reflexivity|].
  split; [right; left; reflexivity|].
  split; [reflexivity|]. split; [reflexivity|].
  eapply (selection_is_maximal
            SimpleTeamEntryOptimizer.loadRankings
            SimpleTeamEntryOptimizer.optimize
            (or_introl (conj eq_refl eq_refl))
            codeUnitCompare sampleFS "rankings" "2025" "Tigers" "Male"
            "7th grade" sampleRankings _ _
            {| eventAbbr := "1600"; eventName := "1600 Meter Run";
               gender := "Male"; grade := "7th grade";
               rankings := [ mkRanking 1 "Ann Alder" "Quail";
                             mkRanking 2 "Yan Yew" "Tigers";
                             mkRanking 3 "Zed Zorn" "Tigers" ] |}
            (mkRanking 3 "Zed Zorn" "Tigers")).
  - vm_compute. reflexivity.
  - vm_compute. reflexivity.
  - right. left. reflexivity.
  - vm_compute. auto.
  - simpl. auto.
  - reflexivity.
  - reflexivity.
Defined.

(* ----------------------------------------------------------------- *)
(** ** Distinct events, bounded points *)

Lemma selectEvents_NoDup sortedEvents selectedEvents :
  NoDup (selectedEvents ++ map fst sortedEvents) ->
  NoDup (SimpleTeamEntryOptimizer.selectEvents sortedEvents selectedEvents).
Proof.
  revert selectedEvents.
  induction sortedEvents as [|[event score] rest IH]; intros sel Hnd;
    cbn [SimpleTeamEntryOptimizer.selectEvents map fst] in *.
  - now rewrite app_nil_r in Hnd.
  - destruct (4 <=? List.length sel)%nat.
    { now apply NoDup_app_remove_r in Hnd. }
    destruct (SimpleTeamEntryOptimizer.isValidCombination (sel ++ [event])).
    + apply IH. now rewrite <- app_assoc.
    + apply IH. now apply NoDup_remove_1 in Hnd.
Qed.

(** X5. In every result of the simple optimizer the events of an entry
    are pairwise distinct. *)
Theorem simple_entry_events_distinct :
  forall localeCompare fs rankingsDir season teamName gender grade
         result entry,
    SimpleTeamEntryOptimizer.optimize localeCompare fs rankingsDir season
      teamName gender grade = Ok result ->
    In entry (athleteEntries result) ->
    NoDup (events entry).
Proof.
  intros lc fs dir season teamName gender grade result entry Hres Hentry.
  apply simple_optimize_inv in Hres as (allRankings & _ & Hres).
  destruct (SimpleRun.simple_optimizeRankings_returns lc allRankings
              teamName gender grade) as (ae & ee & Hret & _ & Hall & _).
  rewrite Hret in Hres. apply Ok_inj in Hres. subst result.
  cbn in Hentry. apply sortBy_in in Hentry.
  rewrite Forall_forall in Hall.
  destruct (Hall entry Hentry) as (evs & Hget & ->).
  apply selectEvents_NoDup. cbn [app].
  apply Permutation_NoDup with (JSMap.keys evs).
  - unfold JSMap.keys, JSMap.entries. apply Permutation_map.
    symmetry. apply sortBy_perm.
  - eapply PickFacts.simple_scores_keys_NoDup. exact Hget.
Qed.

Lemma simple_entry_events_distinct_witness :
  exists result entry,
    SimpleTeamEntryOptimizer.optimize codeUnitCompare sampleFS
      "rankings" "2025" "Tigers" "Male" "7th grade" = Ok result /\
    In entry (athleteEntries result) /\
    events entry = ["200"; "LJ"; "1600"; "800"] /\
    NoDup (events entry).
Proof.
  eexists. eexists.
  split; [vm_compute; reflexivity|].
  split; [left; reflexivity|].
  split; [reflexivity|].
  eapply (simple_entry_events_distinct codeUnitCompare sampleFS
            "rankings" "2025" "Tigers" "Male" "7th grade").
  - vm_compute. reflexivity.
  - left. reflexivity.
Defined.

Lemma pointsAt_range (place : Z) :
  0 <= SimpleTeamEntryOptimizer.pointsAt place <= 8.
Proof.
  rewrite simple_pointsAt_cases.
  repeat match goal with
         | |- context [?a =? ?b] => destruct (a =? b)
         end; lia.
Qed.

Lemma sumRowPoints_range rows :
  Forall (fun row => 0 <= ea_projectedPoints row <= 8) rows ->
  0 <= sumRowPoints rows <= 8 * Z.of_nat (List.length rows).
Proof.
  induction 1 as [|row rows Hrow _ IH].
  - simpl. lia.
  - rewrite PassFacts.sumRowPoints_cons. cbn [List.length].
    rewrite Nat2Z.inj_succ. lia.
Qed.

Lemma sumEntryPoints_range entries :
  Forall (fun e => 0 <= projectedPoints e <= 32) entries ->
  0 <= sumEntryPoints entries <= 32 * Z.of_nat (List.length entries).
Proof.
  induction 1 as [|e entries He _ IH].
  - simpl. lia.
  - change (sumEntryPoints (e :: entries))
      with (projectedPoints e + sumEntryPoints entries).
    cbn [List.length]. rewrite Nat2Z.inj_succ. lia.
Qed.

(** X6. In every result of either optimizer, an entry's projectedPoints
    lie between 0 and 8 times the number of its events, hence at most 32,
    and totalProjectedPoints lies between 0 and 32 times the number of
    entries. *)
Theorem projected_points_bounds :
  forall loadRankings optimize,
    isOptimizer loadRankings optimize ->
    forall localeCompare fs rankingsDir season teamName gender grade result,
      optimize localeCompare fs rankingsDir season teamName gender grade
      = Ok result ->
      (forall entry,
          In entry (athleteEntries result) ->
          0 <= projectedPoints entry <=
          8 * Z.of_nat (List.length (events entry)) /\
          projectedPoints entry <= 32) /\
      0 <= totalProjectedPoints result <=
      32 * Z.of_nat (List.length (athleteEntries result)).
Proof.
  intros load optimize Hopt lc fs dir season teamName gender grade result
         Hres.
  assert (Hload : exists allRankings,
             load fs dir season gender grade = Ok allRankings).
  { destruct Hopt as [[-> ->]|[-> ->]].
    - apply simple_optimize_inv in Hres as (all & H & _). eauto.
    - apply advanced_optimize_inv in Hres as (all & H & _). eauto. }
  destruct Hload as (allRankings & Hload).
  assert (Hplaces : exists place, optimizerPlaces load optimize place).
  { destruct Hopt as [[-> ->]|[-> ->]]; eexists;
      [left | right]; repeat split; reflexivity. }
  destruct Hplaces as (place & Hplaces).
  destruct (result_anatomy load optimize place Hplaces lc fs dir season
              teamName gender grade allRankings Hload)
    as (aps & Hret & _ & _ & Hpicks).
  rewrite Hret in Hres. apply Ok_inj in Hres. subst result.
  destruct (result_shape lc teamName gender grade allRankings aps)
    as (Hperm & _ & _).
  { intros a picks Hin. now destruct (Hpicks a picks Hin). }
  assert (Hentries : forall entry,
             In entry
                (athleteEntries
                   (SimpleTeamEntryOptimizer.buildResult lc teamName gender
                      grade (recordAll allRankings aps))) ->
             0 <= projectedPoints entry <=
             8 * Z.of_nat (List.length (events entry)) /\
             projectedPoints entry <= 32).
  { intros entry Hentry.
    apply (Permutation_in _ Hperm) in Hentry.
    apply in_map_iff in Hentry as ([a picks] & <- & Hin).
    cbn [fst snd entryOf projectedPoints events].
    destruct (Hpicks a picks Hin) as (_ & Hvalid & Hrows).
    apply isValidCombination_length in Hvalid.
    rewrite length_map in *.
    assert (Hrange : 0 <= sumRowPoints (map snd picks) <=
                     8 * Z.of_nat (List.length (map snd picks))).
    { apply sumRowPoints_range. apply Forall_forall. intros row Hrow.
      apply in_map_iff in Hrow as ([ev row'] & <- & Hp).
      destruct (Hrows ev row' Hp)
        as (_ & d & r & _ & _ & _ & _ & _ & _ & _ & Hpts).
      cbn [snd]. rewrite Hpts. apply pointsAt_range. }
    rewrite length_map in Hrange. lia. }
  split; trivial.
  destruct (buildResult_sums lc teamName gender grade
              (fst (recordAll allRankings aps))
              (snd (recordAll allRankings aps))) as (Htotal & _).
  rewrite <- surjective_pairing in Htotal. rewrite Htotal.
  apply sumEntryPoints_range. apply Forall_forall.
  intros entry Hentry. destruct (Hentries entry Hentry). lia.
Qed.

Lemma projected_points_bounds_witness :
  exists result,
    AdvancedTeamEntryOptimizer.optimize codeUnitCompare sampleFS
      "rankings" "2025" "Tigers" "Male" "7th grade" = Ok result /\
    totalProjectedPoints result = 48 /\
    0 <= totalProjectedPoints result <=
    32 * Z.of_nat (List.length (athleteEntries result)).
Proof.
  eexists.
  split; [vm_compute; reflexivity|].
  split; [reflexivity|].
  apply (projected_points_bounds
           AdvancedTeamEntryOptimizer.loadRankings
           AdvancedTeamEntryOptimizer.optimize
           (or_intror (conj eq_refl eq_refl))
           codeUnitCompare sampleFS "rankings" "2025" "Tigers" "Male"
           "7th grade").
  vm_compute. reflexivity.
Defined.

(* ----------------------------------------------------------------- *)
(** ** The event breakdown mirrors the entries *)

Lemma countRows_set k v (m : JSMap.t EventEntry) :
  (countRows (JSMap.values (JSMap.set k v m))
   + match JSMap.get k m with
     | Some old => List.length (athletes old)
     | None => 0
     end
   = countRows (JSMap.values m) + List.length (athletes v))%nat.
Proof.
  unfold JSMap.values, countRows.
  induction m as [|[k' v'] rest IH]; cbn [JSMap.set JSMap.get].
  - cbn. lia.
  - destruct (String.eqb k' k); cbn [map snd fold_right]; [lia|].
    cbn [map snd fold_right] in IH. lia.
Qed.

Lemma countRows_addRow allRankings m pick :
  countRows (JSMap.values (addRow allRankings m pick)) =
  S (countRows (JSMap.values m)).
Proof.
  unfold addRow, JSMap.update, JSMap.has.
  destruct (JSMap.get (fst pick) m) as [old|] eqn:G.
  - rewrite G. pose proof (countRows_set (fst pick) (pushAthlete old (snd pick)) m) as H.
    rewrite G in H. cbn [pushAthlete athletes] in H.
    rewrite length_app in H. cbn in H. lia.
  - rewrite JSMapFacts.get_set_eq.
    match goal with
    | |- countRows (JSMap.values (JSMap.set _ ?v (JSMap.set _ ?i m))) = _ =>
        pose proof (countRows_set (fst pick) v (JSMap.set (fst pick) i m))
          as H1;
        pose proof (countRows_set (fst pick) i m) as H2
    end.
    rewrite JSMapFacts.get_set_eq in H1. rewrite G in H2.
    cbn [pushAthlete athletes List.length app] in H1, H2. lia.
Qed.

Lemma countRows_addRows allRankings picks m :
  countRows (JSMap.values (fold_left (addRow allRankings) picks m)) =
  (countRows (JSMap.values m) + List.length picks)%nat.
Proof.
  revert m. induction picks as [|p rest IH]; intros m; cbn [fold_left].
  - cbn. lia.
  - rewrite IH, countRows_addRow. cbn. lia.
Qed.

Lemma countRows_perm l l' :
  Permutation l l' -> countRows l = countRows l'.
Proof. unfold countRows. induction 1; simpl; lia. Qed.

Lemma countEvents_perm l l' :
  Permutation l l' -> countEvents l = countEvents l'.
Proof. unfold countEvents. induction 1; simpl; lia. Qed.

Lemma countRows_sortAthletes cmp l :
  countRows (map (sortAthletes cmp) l) = countRows l.
Proof.
  unfold countRows. induction l as [|be rest IH]; simpl; trivial.
  rewrite IH. f_equal. apply Permutation_length, sortBy_perm.
Qed.

Lemma countEvents_entries aps :
  countEvents (map (fun ap => entryOf (fst ap) (snd ap)) aps) =
  List.length (allPicks aps).
Proof.
  unfold countEvents, allPicks.
  induction aps as [|[a picks] rest IH]; simpl; trivial.
  rewrite IH, length_app, length_map. reflexivity.
Qed.

(** X7. In every result of either optimizer the event breakdown mirrors
    the entries: its event codes are pairwise distinct, every breakdown
    entry has at least one athlete and carries the name of the first
    loaded category with its code, an athlete has a row under an event
    exactly when the athlete's entry lists the event, and there are as
    many rows as selected events. *)
Theorem breakdown_mirrors_entries :
  forall loadRankings optimize,
    isOptimizer loadRankings optimize ->
    forall localeCompare fs rankingsDir season teamName gender grade
           allRankings result,
      loadRankings fs rankingsDir season gender grade = Ok allRankings ->
      optimize localeCompare fs rankingsDir season teamName gender grade
      = Ok result ->
      NoDup (map event (eventBreakdown result)) /\
      (forall be,
          In be (eventBreakdown result) ->
          athletes be <> [] /\
          exists eventData,
            find_first (fun d => String.eqb (eventAbbr d) (event be))
                       allRankings = Some eventData /\
            ee_eventName be = eventName eventData) /\
      (forall a e,
          (exists be row,
              In be (eventBreakdown result) /\ event be = e /\
              In row (athletes be) /\ ea_athlete row = a) <->
          (exists entry,
              In entry (athleteEntries result) /\ athlete entry = a /\
              In e (events entry))) /\
      countRows (eventBreakdown result) = countEvents (athleteEntries result).
Proof.
  intros load optimize Hopt lc fs dir season teamName gender grade
         allRankings result Hload Hres.
  assert (Hplaces : exists place, optimizerPlaces load optimize place).
  { destruct Hopt as [[-> ->]|[-> ->]]; eexists;
      [left | right]; repeat split; reflexivity. }
  destruct Hplaces as (place & Hplaces).
  destruct (result_anatomy load optimize place Hplaces lc fs dir season
              teamName gender grade allRankings Hload)
    as (aps & Hret & _ & _ & Hpicks).
  rewrite Hret in Hres. apply Ok_inj in Hres. subst result.
  assert (Hne : forall a picks, In (a, picks) aps -> picks <> []).
  { intros a picks Hin. now destruct (Hpicks a picks Hin). }
  destruct (result_shape lc teamName gender grade allRankings aps Hne)
    as (Hperm & Hbreak & Hnd).
  split; [exact Hnd|]. split; [|split].
  - intros be Hbe. apply Hbreak in Hbe as (e & Hrows & ->).
    cbn [sortAthletes breakdownEntry athletes event ee_eventName]. split.
    + intros E. apply sortBy_nil_inv in E. contradiction.
    + destruct (rowsUnder e (allPicks aps)) as [|row rows] eqn:R;
        [contradiction|].
      assert (Hrow : In (e, row) (allPicks aps)).
      { apply in_rowsUnder. rewrite R. now left. }
      apply in_allPicks in Hrow as (a & picks & Hin & Hp).
      destruct (Hpicks a picks Hin) as (_ & _ & Hsrc).
      destruct (Hsrc e row Hp) as (_ & d & r & Hd & _ & _ & _ & He & _).
      subst e. destruct (find_first_eventAbbr allRankings d Hd)
        as (found & Hfound).
      exists found. split; trivial.
      now apply find_first_eventNameOf.
  - intros a e. split.
    + intros (be & row & Hbe & He & Hrow & Ha).
      apply Hbreak in Hbe as (e' & _ & ->).
      cbn [sortAthletes breakdownEntry athletes event] in He, Hrow.
      subst e'. apply sortBy_in, in_rowsUnder, in_allPicks in Hrow
        as (a' & picks & Hin & Hp).
      destruct (Hpicks a' picks Hin) as (_ & _ & Hsrc).
      destruct (Hsrc e row Hp) as (Hath & _).
      exists (entryOf a' picks). split; [|split].
      * apply Permutation_in with
          (map (fun ap => entryOf (fst ap) (snd ap)) aps);
          [now symmetry|].
        apply in_map_iff. exists (a', picks). auto.
      * cbn. congruence.
      * cbn. apply in_map_iff. exists (e, row). auto.
    + intros (entry & Hentry & Ha & He).
      apply (Permutation_in _ Hperm) in Hentry.
      apply in_map_iff in Hentry as ([a' picks] & <- & Hin).
      cbn [fst snd entryOf athlete events] in Ha, He. subst a'.
      apply in_map_iff in He as ([e' row] & <- & Hp). cbn [fst].
      destruct (Hpicks a picks Hin) as (_ & _ & Hsrc).
      destruct (Hsrc e' row Hp) as (Hath & _).
      assert (Hall : In (e', row) (allPicks aps)).
      { apply in_allPicks. eauto. }
      exists (sortAthletes
                (fun x y => ea_projectedPlace x - ea_projectedPlace y)
                (breakdownEntry allRankings e' (rowsUnder e' (allPicks aps)))),
             row.
      split; [|split; [reflexivity|split; trivial]].
      * apply Hbreak. exists e'. split; trivial.
        intros E. apply in_rowsUnder in Hall. rewrite E in Hall.
        destruct Hall.
      * cbn. now apply sortBy_in, in_rowsUnder.
  - rewrite (countEvents_perm _ _ Hperm), countEvents_entries.
    rewrite BreakdownFacts.recordAll_state. cbn.
    rewrite countRows_sortAthletes.
    rewrite (countRows_perm _ _ (sortBy_perm _ _)).
    rewrite countRows_addRows. reflexivity.
Qed.

Lemma breakdown_mirrors_entries_witness :
  exists result,
    AdvancedTeamEntryOptimizer.optimize codeUnitCompare sampleFS
      "rankings" "2025" "Tigers" "Male" "7th grade" = Ok result /\
    countRows (eventBreakdown result) = 8%nat /\
    NoDup (map event (eventBreakdown result)) /\
    countRows (eventBreakdown result) = countEvents (athleteEntries result).
Proof.
  eexists.
  split; [vm_compute; reflexivity|].
  split; [reflexivity|].
  edestruct (breakdown_mirrors_entries
               AdvancedTeamEntryOptimizer.loadRankings
               AdvancedTeamEntryOptimizer.optimize
               (or_intror (conj eq_refl eq_refl))
               codeUnitCompare sampleFS "rankings" "2025" "Tigers" "Male"
               "7th grade" sampleRankings)
    as (Hnd & _ & _ & Hcount).
  - vm_compute. reflexivity.
  - vm_compute. reflexivity.
  - split; [exact Hnd | exact Hcount].
Defined.

(* ----------------------------------------------------------------- *)
(** ** Where the rows of the breakdown come from *)

(** X8. Every row of the event breakdown of either optimizer comes from a
    ranking row of the target team in a loaded category of that event:
    same athlete, currentRank the rank of the row, projectedPlace the
    place the optimizer projects for it (the rank itself for the simple
    optimizer, the predictor's place for the advanced one) and
    projectedPoints the table points of projectedPlace. *)
Theorem breakdown_rows_from_rankings :
  forall loadRankings optimize place,
    optimizerPlaces loadRankings optimize place ->
    forall localeCompare fs rankingsDir season teamName gender grade
           allRankings result be row,
      loadRankings fs rankingsDir season gender grade = Ok allRankings ->
      optimize localeCompare fs rankingsDir season teamName gender grade
      = Ok result ->
      In be (eventBreakdown result) ->
      In row (athletes be) ->
      rowFromRanking place allRankings teamName (event be) row /\
      (place = simplePlace -> ea_projectedPlace row = ea_currentRank row).
Proof.
  intros load optimize place Hplaces lc fs dir season teamName gender grade
         allRankings result be row Hload Hres Hbe Hrow.
  destruct (result_anatomy load optimize place Hplaces lc fs dir season
              teamName gender grade allRankings Hload)
    as (aps & Hret & _ & _ & Hpicks).
  rewrite Hret in Hres. apply Ok_inj in Hres. subst result.
  assert (Hne : forall a picks, In (a, picks) aps -> picks <> []).
  { intros a picks Hin. now destruct (Hpicks a picks Hin). }
  destruct (result_shape lc teamName gender grade allRankings aps Hne)
    as (_ & Hbreak & _).
  apply Hbreak in Hbe as (e & _ & ->).
  cbn [sortAthletes breakdownEntry athletes event] in *.
  apply sortBy_in, in_rowsUnder, in_allPicks in Hrow
    as (a & picks & Hin & Hp).
  destruct (Hpicks a picks Hin) as (_ & _ & Hsrc).
  destruct (Hsrc e row Hp) as (_ & Hfrom). split; trivial.
  intros ->. destruct Hfrom as (d & r & _ & _ & _ & _ & _ & Hrank & Hplace & _).
  unfold simplePlace in Hplace. congruence.
Qed.

Lemma breakdown_rows_from_rankings_witness :
  exists result be row,
    AdvancedTeamEntryOptimizer.optimize codeUnitCompare sampleFS
      "rankings" "2025" "Tigers" "Male" "7th grade" = Ok result /\
    In be (eventBreakdown result) /\ event be = "200" /\
    In row (athletes be) /\ ea_athlete row = "Max Maple" /\
    ea_currentRank row = 8 /\ ea_projectedPlace row = 7 /\
    rowFromRanking advancedPlace sampleRankings "Tigers" (event be) row.
Proof.
  eexists. eexists. eexists.
  split; [vm_compute; reflexivity|].
  split; [right; left; reflexivity|].
  split; [reflexivity|].
  split; [right; right; left; reflexivity|].
  split; [reflexivity|]. split; [reflexivity|]. split; [reflexivity|].
  eapply (breakdown_rows_from_rankings
            AdvancedTeamEntryOptimizer.loadRankings
            AdvancedTeamEntryOptimizer.optimize advancedPlace
            (or_intror (conj eq_refl (conj eq_refl eq_refl)))
            codeUnitCompare sampleFS "rankings" "2025" "Tigers" "Male"
            "7th grade" sampleRankings).
  - vm_compute. reflexivity.
  - vm_compute. reflexivity.
  - right. left. reflexivity.
  - right. right. left. reflexivity.
Defined.

(* ----------------------------------------------------------------- *)
(** ** Bounds on the projected place *)

Lemma filter_and_length_le {A : Type} (p q : A -> bool) (l : list A) :
  (List.length (filter (fun x => p x && q x) l) <=
   List.length (filter p l))%nat.
Proof.
  induction l as [|x rest IH]; simpl; trivial.
  destruct (p x), (q x); simpl; lia.
Qed.

Lemma filter_length_mono {A : Type} (p q : A -> bool) (l : list A) :
  (forall x, p x = true -> q x = true) ->
  (List.length (filter p l) <= List.length (filter q l))%nat.
Proof.
  intros Hpq. induction l as [|x rest IH]; simpl; trivial.
  destruct (p x) eqn:P.
  - rewrite (Hpq x P). simpl. lia.
  - destruct (q x); simpl; lia.
Qed.

(** Among rows ranked s, s+1, ..., the rows ranked below r. *)
Lemma count_below_numbered (rows : list Ranking) (s : nat) (r : Z) :
  map rank rows = map Z.of_nat (seq s (List.length rows)) ->
  List.length (filter (fun row => rank row <? r) rows) =
  Nat.min (List.length rows) (Z.to_nat (r - Z.of_nat s)).
Proof.
  revert s. induction rows as [|x rest IH]; intros s Hnum; [reflexivity|].
  cbn [List.length seq map] in Hnum. inversion Hnum as [[Hx Hrest]].
  specialize (IH (S s) Hrest). cbn [filter List.length]. rewrite Hx.
  destruct (Z.ltb_spec (Z.of_nat s) r); cbn [List.length]; rewrite IH; lia.
Qed.

Lemma projected_place_bounds_of a e r likelyEntries eventData :
  1 <= AdvancedTeamEntryOptimizer.calculateProjectedPlace a e r
         likelyEntries eventData /\
  (numbered (rankings eventData) ->
   1 <= r ->
   AdvancedTeamEntryOptimizer.calculateProjectedPlace a e r
     likelyEntries eventData <= r).
Proof.
  rewrite PredictorFacts.calculateProjectedPlace_count. split; [lia|].
  intros Hnum Hr.
  pose proof (filter_and_length_le
                (fun row => rank row <? r)
                (fun row => likelyIn likelyEntries e (r_athlete row))
                (rankings eventData)) as Hle.
  rewrite (count_below_numbered _ 1 r Hnum) in Hle. lia.
Qed.

(** X9. The projected place is at least 1 and at most 1 plus the number
    of rows of the category, and does not decrease when the current rank
    grows; when the rows carry the ranks 1, 2, 3, ... it is never worse
    than a current rank of at least 1. *)
Theorem projected_place_bounds :
  forall a e r likelyEntries eventData,
    1 <= AdvancedTeamEntryOptimizer.calculateProjectedPlace a e r
           likelyEntries eventData
      <= 1 + Z.of_nat (List.length (rankings eventData)) /\
    (forall r',
        r <= r' ->
        AdvancedTeamEntryOptimizer.calculateProjectedPlace a e r
          likelyEntries eventData <=
        AdvancedTeamEntryOptimizer.calculateProjectedPlace a e r'
          likelyEntries eventData) /\
    (numbered (rankings eventData) ->
     1 <= r ->
     AdvancedTeamEntryOptimizer.calculateProjectedPlace a e r
       likelyEntries eventData <= r).
Proof.
  intros a e r likely d.
  rewrite PredictorFacts.calculateProjectedPlace_count.
  split; [|split].
  - pose proof (filter_length_le
                  (fun row => (rank row <? r)
                              && likelyIn likely e (r_athlete row))
                  (rankings d)). lia.
  - intros r' Hr. rewrite PredictorFacts.calculateProjectedPlace_count.
    pose proof (filter_length_mono
                  (fun row => (rank row <? r)
                              && likelyIn likely e (r_athlete row))
                  (fun row => (rank row <? r')
                              && likelyIn likely e (r_athlete row))
                  (rankings d)) as H.
    assert (forall x,
               (rank x <? r) && likelyIn likely e (r_athlete x) = true ->
               (rank x <? r') && likelyIn likely e (r_athlete x) = true).
    { intros x Hx. apply andb_true_iff in Hx as [H1 H2].
      apply andb_true_iff. split; trivial.
      apply Z.ltb_lt in H1. apply Z.ltb_lt. lia. }
    specialize (H H0). lia.
  - intros Hnum Hr.
    pose proof (filter_and_length_le
                  (fun row => rank row <? r)
                  (fun row => likelyIn likely e (r_athlete row))
                  (rankings d)) as Hle.
    rewrite (count_below_numbered _ 1 r Hnum) in Hle. lia.
Qed.

Lemma projected_place_bounds_witness :
  AdvancedTeamEntryOptimizer.calculateProjectedPlace "Max Maple" "200" 8
    (AdvancedTeamEntryOptimizer.predictCompetition sampleRankings) sample200
  <= 8.
Proof.
  apply (projected_place_bounds "Max Maple" "200" 8
           (AdvancedTeamEntryOptimizer.predictCompetition sampleRankings)
           sample200).
  - reflexivity.
  - lia.
Defined.

Lemma likelyCompeting_small_teams eventData row :
  (forall t, (List.length (rowsOfTeam eventData t) <= 3)%nat) ->
  In row (rankings eventData) ->
  likelyCompeting eventData (r_athlete row) = true.
Proof.
  intros Hsmall Hrow.
  apply PredictorFacts.likelyCompeting_true_iff. exists (team row).
  apply in_map. unfold topRows.
  rewrite Nat.min_r by apply Hsmall. rewrite firstn_all.
  apply filter_In. split; trivial. apply String.eqb_refl.
Qed.

(** X10. When the rows of a loaded category carry the ranks 1, 2, 3, ...
    and no team has more than three rows in it, the projected place of a
    current rank between 1 and the number of rows plus 1 is the current
    rank itself. *)
Theorem projected_place_without_crowding :
  forall allRankings eventData a r,
    In eventData allRankings ->
    numbered (rankings eventData) ->
    (forall t, (List.length (rowsOfTeam eventData t) <= 3)%nat) ->
    1 <= r <= Z.of_nat (List.length (rankings eventData)) + 1 ->
    AdvancedTeamEntryOptimizer.calculateProjectedPlace a
      (eventAbbr eventData) r
      (AdvancedTeamEntryOptimizer.predictCompetition allRankings) eventData
    = r.
Proof.
  intros allRankings d a r Hin Hnum Hsmall Hr.
  rewrite PredictorFacts.calculateProjectedPlace_count.
  rewrite (filter_ext_in
             (fun row => (rank row <? r)
                         && likelyIn
                              (AdvancedTeamEntryOptimizer.predictCompetition
                                 allRankings) (eventAbbr d) (r_athlete row))
             (fun row => rank row <? r)).
  - rewrite (count_below_numbered _ 1 r Hnum). lia.
  - intros row Hrow. rewrite PredictorFacts.likelyIn_event.
    unfold likelyForEvent.
    replace (existsb _ allRankings) with true; [apply andb_true_r|].
    symmetry. apply existsb_exists. exists d. split; trivial.
    rewrite String.eqb_refl. now apply likelyCompeting_small_teams.
Qed.

Lemma projected_place_without_crowding_witness :
  AdvancedTeamEntryOptimizer.calculateProjectedPlace "Yan Yew" "100" 2
    (AdvancedTeamEntryOptimizer.predictCompetition [dashWithRival])
    dashWithRival = 2.
Proof.
  apply (projected_place_without_crowding [dashWithRival] dashWithRival
           "Yan Yew" 2).
  - now left.
  - reflexivity.
  - intros t. unfold rowsOfTeam.
    pose proof (filter_length_le (fun r => String.eqb (team r) t)
                  (rankings dashWithRival)). simpl in *. lia.
  - simpl. lia.
Defined.

Lemma numbered_rank_positive rows row :
  numbered rows -> In row rows -> 1 <= rank row.
Proof.
  unfold numbered. intros Hnum Hin.
  apply (in_map rank) in Hin. rewrite Hnum in Hin.
  apply in_map_iff in Hin as (n & <- & Hn). apply in_seq in Hn. lia.
Qed.

Lemma pointsAt_antitone (p q : Z) :
  1 <= p -> p <= q ->
  SimpleTeamEntryOptimizer.pointsAt p >= SimpleTeamEntryOptimizer.pointsAt q.
Proof.
  intros Hp Hpq. rewrite !simple_pointsAt_cases. points_cases; lia.
Qed.

(** X11. When the rows of every loaded category carry the ranks 1, 2, 3,
    ..., every row of a result of the advanced optimizer has a
    projectedPlace between 1 and its currentRank, and projectedPoints at
    least the table points of its currentRank. *)
Theorem advanced_never_worse_than_rank :
  forall localeCompare fs rankingsDir season teamName gender grade
         allRankings result be row,
    AdvancedTeamEntryOptimizer.loadRankings fs rankingsDir season gender
      grade = Ok allRankings ->
    (forall eventData,
        In eventData allRankings -> numbered (rankings eventData)) ->
    AdvancedTeamEntryOptimizer.optimize localeCompare fs rankingsDir season
      teamName gender grade = Ok result ->
    In be (eventBreakdown result) ->
    In row (athletes be) ->
    1 <= ea_projectedPlace row <= ea_currentRank row /\
    ea_projectedPoints row >=
    AdvancedTeamEntryOptimizer.pointsAt (ea_currentRank row).
Proof.
  intros lc fs dir season teamName gender grade allRankings result be row
         Hload Hnum Hres Hbe Hrow.
  destruct (result_anatomy
              AdvancedTeamEntryOptimizer.loadRankings
              AdvancedTeamEntryOptimizer.optimize advancedPlace
              (or_intror (conj eq_refl (conj eq_refl eq_refl)))
              lc fs dir season teamName gender grade allRankings Hload)
    as (aps & Hret & _ & _ & Hpicks).
  rewrite Hret in Hres. apply Ok_inj in Hres. subst result.
  assert (Hne : forall a picks, In (a, picks) aps -> picks <> []).
  { intros a picks Hin. now destruct (Hpicks a picks Hin). }
  destruct (result_shape lc teamName gender grade allRankings aps Hne)
    as (_ & Hbreak & _).
  apply Hbreak in Hbe as (e & _ & ->).
  cbn [sortAthletes breakdownEntry athletes event] in *.
  apply sortBy_in, in_rowsUnder, in_allPicks in Hrow
    as (a & picks & Hin & Hp).
  destruct (Hpicks a picks Hin) as (_ & _ & Hsrc).
  destruct (Hsrc e row Hp)
    as (_ & d & r & Hd & Hr & _ & _ & _ & Hrank & Hplace & Hpts).
  pose proof (numbered_rank_positive _ _ (Hnum d Hd) Hr) as Hpos.
  unfold advancedPlace in Hplace, Hpts.
  destruct (projected_place_bounds_of (r_athlete r) (eventAbbr d) (rank r)
              (AdvancedTeamEntryOptimizer.predictCompetition allRankings) d)
    as (Hlow & Hup).
  rewrite Hrank, Hplace, Hpts. split.
  - split; [exact Hlow | now apply Hup; [apply Hnum|]].
  - apply pointsAt_antitone; trivial.
    apply Hup; [now apply Hnum | trivial].
Qed.

Lemma advanced_never_worse_than_rank_witness :
  exists result be row,
    AdvancedTeamEntryOptimizer.optimize codeUnitCompare sampleFS
      "rankings" "2025" "Tigers" "Male" "7th grade" = Ok result /\
    In be (eventBreakdown result) /\
    In row (athletes be) /\
    ea_athlete row = "Max Maple" /\
    1 <= ea_projectedPlace row <= ea_currentRank row /\
    ea_projectedPoints row >=
    AdvancedTeamEntryOptimizer.pointsAt (ea_currentRank row).
Proof.
  eexists. eexists. eexists.
  split; [vm_compute; reflexivity|].
  split; [right; left; reflexivity|].
  split; [right; right; left; reflexivity|].
  split; [reflexivity|].
  eapply (advanced_never_worse_than_rank codeUnitCompare sampleFS
            "rankings" "2025" "Tigers" "Male" "7th grade" sampleRankings).
  - vm_compute. reflexivity.
  - intros d Hd. vm_compute in Hd.
    repeat (destruct Hd as [<-|Hd]; [reflexivity|]). destruct Hd.
  - vm_compute. reflexivity.
  - right. left. reflexivity.
  - right. right. left. reflexivity.
Defined.

(* ----------------------------------------------------------------- *)
(** ** Track events and field events *)

Lemma filter_complement_perm {A : Type} (p : A -> bool) (l : list A) :
  Permutation (filter p l ++ filter (fun x => negb (p x)) l) l.
Proof.
  induction l as [|x rest IH]; simpl; trivial.
  destruct (p x); simpl.
  - now constructor.
  - rewrite <- Permutation_middle. now constructor.
Qed.

Lemma getTrackEvents_filter events exclude :
  SimpleTeamEntryOptimizer.getTrackEvents events exclude =
  filter (fun e =>
            ResultUtils.isTrackEvent (eventAbbr e)
            && negb (match exclude with Some b => b | None => false end
                     && (String.eqb (eventAbbr e) "1600"
                         || String.eqb (eventAbbr e) "800"))) events.
Proof.
  unfold SimpleTeamEntryOptimizer.getTrackEvents. apply filter_ext.
  intros e. destruct (ResultUtils.isTrackEvent (eventAbbr e)); simpl; trivial.
Qed.

(** X12. getTrackEvents without exclusion and getFieldEvents split the
    categories in two: together they are a rearrangement of the input,
    and no category is in both. *)
Theorem track_and_field_partition :
  forall events,
    Permutation
      (SimpleTeamEntryOptimizer.getTrackEvents events None ++
       SimpleTeamEntryOptimizer.getFieldEvents events) events /\
    SimpleTeamEntryOptimizer.getTrackEvents events (Some false) =
    SimpleTeamEntryOptimizer.getTrackEvents events None /\
    (forall e,
        In e (SimpleTeamEntryOptimizer.getTrackEvents events None) ->
        In e (SimpleTeamEntryOptimizer.getFieldEvents events) -> False).
Proof.
  intros events. split; [|split].
  - rewrite getTrackEvents_filter.
    unfold SimpleTeamEntryOptimizer.getFieldEvents, ResultUtils.isFieldEvent.
    rewrite (filter_ext
               (fun e => ResultUtils.isTrackEvent (eventAbbr e)
                         && negb (false && _))
               (fun e => ResultUtils.isTrackEvent (eventAbbr e)))
      by (intros e; apply andb_true_r).
    apply (filter_complement_perm
             (fun e => ResultUtils.isTrackEvent (eventAbbr e))).
  - reflexivity.
  - intros e Ht Hf. rewrite getTrackEvents_filter in Ht.
    apply filter_In in Ht as [_ Ht]. apply filter_In in Hf as [_ Hf].
    unfold ResultUtils.isFieldEvent in Hf.
    apply andb_true_iff in Ht as [Ht _]. rewrite Ht in Hf. discriminate.
Qed.

(** X13. getTrackEvents with exclusion keeps the track categories other
    than "1600" and "800", in order: their codes are exactly the codes
    the combination check counts as other running events. *)
Theorem track_events_excluding_distance :
  forall events,
    map eventAbbr (SimpleTeamEntryOptimizer.getTrackEvents events (Some true))
    = filter isOtherRunning (map eventAbbr events) /\
    SimpleTeamEntryOptimizer.getTrackEvents events (Some true) =
    filter (fun e => negb (String.eqb (eventAbbr e) "1600"
                           || String.eqb (eventAbbr e) "800"))
           (SimpleTeamEntryOptimizer.getTrackEvents events None).
Proof.
  intros events. split.
  - rewrite getTrackEvents_filter.
    rewrite (filter_ext _ (fun e => isOtherRunning (eventAbbr e))).
    + induction events as [|e rest IH]; cbn [map filter]; trivial.
      destruct (isOtherRunning (eventAbbr e)); cbn [map]; congruence.
    + intros e. unfold isOtherRunning.
      destruct (ResultUtils.isTrackEvent (eventAbbr e)); simpl; trivial.
      destruct (String.eqb (eventAbbr e) "1600"); simpl; trivial.
  - rewrite !getTrackEvents_filter, filter_filter. apply filter_ext.
    intros e. simpl. now rewrite andb_true_r.
Qed.

(* ----------------------------------------------------------------- *)
(** ** What loadRankings reads and returns *)

Lemma loadRankings_step rankingsDir gender grade rankings f :
  (data <- match snd f with
           | Unreadable => Throw (ReadFileError rankingsDir (fst f))
           | Malformed => Throw (SyntaxError (fst f))
           | NoCategories => Throw TypeError
           | Parsed data => Ok data
           end ;;
   category <- findCategory gender grade (categories data) ;;
   match category with
   | Some cat =>
       Ok (rankings ++
           [ {| eventAbbr := rf_eventAbbr data;
                eventName := rf_event data;
                gender := gender;
                grade := grade;
                rankings := fc_rankings cat |} ])
   | None => Ok rankings
   end) =
  (loaded <- loadedFrom rankingsDir gender grade f ;; Ok (rankings ++ loaded)).
Proof.
  unfold loadedFrom, matchingCategory.
  destruct (snd f) as [| | |data]; cbn [bind]; trivial.
  destruct (findCategory gender grade (categories data)) as [[cat|]|e];
    cbn [bind]; trivial.
  now rewrite app_nil_r.
Qed.

Lemma loadRankings_closed_form fs rankingsDir season gender grade :
  SimpleTeamEntryOptimizer.loadRankings fs rankingsDir season gender grade =
  match fs rankingsDir with
  | None => Throw (DirNotFound rankingsDir)
  | Some NotListable => Throw (ReaddirError rankingsDir)
  | Some (Listing listing) =>
      match firstError rankingsDir gender grade
                       (rankingFilesOf season listing) with
      | Some e => Throw e
      | None =>
          Ok (flat_map (fileCategories rankingsDir gender grade)
                       (rankingFilesOf season listing))
      end
  end.
Proof.
  unfold SimpleTeamEntryOptimizer.loadRankings.
  destruct (fs rankingsDir) as [[|listing]|]; trivial.
  fold (rankingFilesOf season listing).
  generalize (rankingFilesOf season listing). intros files.
  match goal with
  | |- foldM ?body files _ = _ =>
      set (step := body);
      cut (forall acc,
              foldM step files acc =
              match firstError rankingsDir gender grade files with
              | Some e => Throw e
              | None =>
                  Ok (acc ++ flat_map (fileCategories rankingsDir gender
                                         grade) files)
              end);
      [intros G; apply G|]
  end.
  induction files as [|f files IH]; intros acc.
  - cbn. now rewrite app_nil_r.
  - cbn [foldM firstError flat_map]. unfold step at 1.
    rewrite loadRankings_step. unfold fileError, fileCategories at 1.
    destruct (loadedFrom rankingsDir gender grade f) as [loaded|e];
      cbn [bind]; trivial.
    rewrite IH.
    destruct (firstError rankingsDir gender grade files); trivial.
    now rewrite <- app_assoc.
Qed.

Lemma findCategory_Some gender0 grade0 cats cat :
  findCategory gender0 grade0 cats = Ok (Some cat) ->
  In (Some cat) cats /\ fc_gender cat = gender0 /\ fc_grade cat = grade0.
Proof.
  induction cats as [|[c|] rest IH]; cbn [findCategory]; try discriminate.
  destruct (String.eqb (fc_gender c) gender0 && String.eqb (fc_grade c) grade0)
    eqn:E.
  - intros H. inversion H; subst c.
    apply andb_true_iff in E as [Hg Hgr]. apply String.eqb_eq in Hg, Hgr.
    split; [now left | auto].
  - intros H. destruct (IH H) as (Hin & Hg & Hgr).
    split; [now right | auto].
Qed.

(** X14. loadRankings in closed form, the same for both optimizers.  It
    raises the directory error when the directory does not exist and the
    error of readdirSync when the path cannot be listed.  Otherwise only
    the entries named event_rankings_<season>_....json are read, in
    directory order, and the first of them that fails decides: the error
    of readFileSync for an entry that cannot be read, the parse error
    for content that is not JSON, and a type error for JSON without a
    categories array or with a null category before any category of the
    requested gender and grade.  When no selected entry fails, the result
    holds, in directory order, one category for every selected file that
    has a category of the requested gender and grade. *)
Theorem loadRankings_outcome :
  forall fs rankingsDir season gender grade,
    AdvancedTeamEntryOptimizer.loadRankings fs rankingsDir season gender grade
    = SimpleTeamEntryOptimizer.loadRankings fs rankingsDir season gender grade
    /\
    SimpleTeamEntryOptimizer.loadRankings fs rankingsDir season gender grade
    = match fs rankingsDir with
      | None => Throw (DirNotFound rankingsDir)
      | Some NotListable => Throw (ReaddirError rankingsDir)
      | Some (Listing listing) =>
          match firstError rankingsDir gender grade
                           (rankingFilesOf season listing) with
          | Some e => Throw e
          | None =>
              Ok (flat_map (fileCategories rankingsDir gender grade)
                           (rankingFilesOf season listing))
          end
      end /\
    (forall f,
        fileError rankingsDir gender grade f =
        match snd f with
        | Unreadable => Some (ReadFileError rankingsDir (fst f))
        | Malformed => Some (SyntaxError (fst f))
        | NoCategories => Some TypeError
        | Parsed data =>
            match findCategory gender grade (categories data) with
            | Throw e => Some e
            | Ok _ => None
            end
        end) /\
    (forall cats,
        findCategory gender grade cats = Throw TypeError <->
        exists before rest,
          cats = map Some before ++ None :: rest /\
          forall cat,
            In cat before ->
            String.eqb (fc_gender cat) gender
            && String.eqb (fc_grade cat) grade = false).
Proof.
  intros fs dir season gender grade.
  split; [reflexivity|]. split; [apply loadRankings_closed_form|]. split.
  - intros f. unfold fileError, loadedFrom, matchingCategory.
    destruct (snd f) as [| | |data]; trivial.
    destruct (findCategory gender grade (categories data)) as [[cat|]|e];
      reflexivity.
  - intros cats. split.
    + induction cats as [|[c|] rest IH]; cbn [findCategory];
        [discriminate| |].
      * destruct (String.eqb (fc_gender c) gender
                  && String.eqb (fc_grade c) grade) eqn:E; [discriminate|].
        intros H. destruct (IH H) as (before & rest' & -> & Hno).
        exists (c :: before), rest'. split; [reflexivity|].
        intros cat [<-|Hin]; [exact E | now apply Hno].
      * intros _. exists [], rest. split; [reflexivity|].
        intros cat [].
    + intros (before & rest & -> & Hno).
      induction before as [|c before IH]; cbn [map app findCategory];
        trivial.
      rewrite (Hno c (or_introl eq_refl)).
      apply IH. intros cat Hin. apply Hno. now right.
Qed.

(** X15. Every category returned by loadRankings carries the requested
    gender and grade and comes from a file of the directory whose name
    starts with event_rankings_<season>_ and ends with .json: its code and
    name are the file's, its rows those of the file's first category of
    that gender and grade.  There are at most as many categories as
    directory entries. *)
Theorem loaded_categories_origin :
  forall fs rankingsDir season gender0 grade0 allRankings,
    SimpleTeamEntryOptimizer.loadRankings fs rankingsDir season gender0 grade0
    = Ok allRankings ->
    exists listing,
      fs rankingsDir = Some (Listing listing) /\
      (List.length allRankings <= List.length listing)%nat /\
      forall eventData,
        In eventData allRankings ->
        gender eventData = gender0 /\ grade eventData = grade0 /\
        exists name data cat,
          In (name, Parsed data) listing /\
          startsWith ("event_rankings_" ++ season ++ "_")%string name = true /\
          endsWith ".json" name = true /\
          matchingCategory gender0 grade0 data = Ok (Some cat) /\
          In (Some cat) (categories data) /\
          fc_gender cat = gender0 /\ fc_grade cat = grade0 /\
          eventAbbr eventData = rf_eventAbbr data /\
          eventName eventData = rf_event data /\
          rankings eventData = fc_rankings cat.
Proof.
  intros fs dir season gender0 grade0 allRankings Hload.
  rewrite loadRankings_closed_form in Hload.
  destruct (fs dir) as [[|listing]|]; try discriminate.
  exists listing. split; trivial.
  destruct (firstError dir gender0 grade0 (rankingFilesOf season listing));
    [discriminate|].
  apply Ok_inj in Hload. subst allRankings. split.
  - transitivity (List.length (rankingFilesOf season listing)).
    + generalize (rankingFilesOf season listing). intros files.
      induction files as [|f files IH]; cbn [flat_map]; trivial.
      rewrite length_app. unfold fileCategories at 1, loadedFrom.
      destruct (snd f) as [| | |data]; cbn [List.length]; try lia.
      destruct (matchingCategory gender0 grade0 data) as [[cat|]|e];
        cbn [List.length]; lia.
    + apply filter_length_le.
  - intros eventData Hin.
    apply in_flat_map in Hin as ([name content] & Hf & Hd).
    unfold rankingFilesOf in Hf. apply filter_In in Hf as [Hf Hname].
    apply andb_true_iff in Hname as [Hpre Hsuf]. cbn [fst] in Hpre, Hsuf.
    unfold fileCategories, loadedFrom in Hd. cbn [snd] in Hd.
    destruct content as [| | |data]; try (now destruct Hd).
    destruct (matchingCategory gender0 grade0 data) as [[cat|]|e] eqn:Hcat;
      try (now destruct Hd).
    destruct Hd as [<-|[]]. cbn. split; trivial. split; trivial.
    exists name, data, cat.
    destruct (findCategory_Some gender0 grade0 (categories data) cat Hcat)
      as (Hc & Hg & Hgr).
    repeat split; trivial.
Qed.

Lemma loaded_categories_origin_witness :
  exists listing,
    sampleFS "rankings" = Some (Listing listing) /\
    (List.length sampleRankings <= List.length listing)%nat /\
    List.length sampleRankings = 5%nat.
Proof.
  destruct (loaded_categories_origin sampleFS "rankings" "2025" "Male"
              "7th grade" sampleRankings)
    as (listing & Hdir & Hlen & _).
  - vm_compute. reflexivity.
  - exists listing. split; [exact Hdir|]. split; [exact Hlen|reflexivity].
Defined.

(* ----------------------------------------------------------------- *)
(** ** Where optimize can fail *)






(* ----------------------------------------------------------------- *)
(** ** The reports *)

Lemma blocks_length {A : Type} (head : A -> string)
    (body : A -> list string) (l : list A) :
  List.length
    (flat_map (fun a => [head a] ++ body a ++ [EmptyString]) l) =
  (2 * List.length l
   + fold_right (fun a acc => List.length (body a) + acc) 0 l)%nat.
Proof.
  induction l as [|a rest IH]; cbn [flat_map fold_right List.length];
    trivial.
  rewrite length_app, IH. cbn [app List.length]. rewrite length_app.
  cbn [List.length]. lia.
Qed.

Lemma fold_right_count_ext {A : Type} (f g : A -> nat) (l : list A) :
  (forall a, In a l -> f a = g a) ->
  fold_right (fun a acc => f a + acc)%nat 0%nat l =
  fold_right (fun a acc => g a + acc)%nat 0%nat l.
Proof.
  induction l as [|a rest IH]; intros H; cbn; trivial.
  rewrite H by now left. rewrite IH; trivial.
  intros b Hb. apply H. now right.
Qed.

Lemma event_lines_length {B : Type} (look : string -> option B)
    (lines : B -> list string) (evs : list string) :
  (forall x, List.length (lines x) = 1%nat) ->
  List.length
    (flat_map (fun ev => match look ev with
                         | Some x => lines x
                         | None => []
                         end) evs) =
  List.length
    (filter (fun ev => match look ev with
                       | Some _ => true
                       | None => false
                       end) evs).
Proof.
  intros Hone.
  induction evs as [|ev rest IH]; cbn [flat_map filter]; trivial.
  destruct (look ev) as [x|]; trivial.
  rewrite length_app, Hone, IH. reflexivity.
Qed.

Lemma report_length optimize reportLines heading :
  isReportOf optimize reportLines heading ->
  forall showNumber result,
    List.length (reportLines showNumber result) =
    (frameLines heading result + countShown result
     + countRows (eventBreakdown result))%nat.
Proof.
  intros Hrep sn result. unfold frameLines, countShown, countRows.
  destruct Hrep as [(_ & -> & ->)|(_ & -> & ->)].
  - unfold SimpleTeamEntryOptimizer.reportLines.
    rewrite !length_app, !blocks_length. cbn [List.length].
    rewrite (fold_right_count_ext _
               (fun a => List.length (shownEvents result a))).
    + rewrite (fold_right_count_ext _
                 (fun e => List.length (athletes e))
                 (eventBreakdown result)).
      * lia.
      * intros e _. apply length_map.
    + intros a _. unfold shownEvents.
      apply (event_lines_length (findAthleteData result a)).
      intros [eventData athleteData]. reflexivity.
  - unfold AdvancedTeamEntryOptimizer.reportLines.
    rewrite !length_app, !blocks_length. cbn [List.length].
    rewrite (fold_right_count_ext _
               (fun a => List.length (shownEvents result a))).
    + rewrite (fold_right_count_ext _
                 (fun e => List.length (athletes e))
                 (eventBreakdown result)).
      * lia.
      * intros e _. apply length_map.
    + intros a _. unfold shownEvents.
      apply (event_lines_length (findAthleteData result a)).
      intros [eventData athleteData]. reflexivity.
Qed.

Lemma lookups_succeed localeCompare teamName gender grade allRankings aps :
  (forall a picks,
      In (a, picks) aps ->
      picks <> [] /\
      forall ev row, In (ev, row) picks -> ea_athlete row = a) ->
  forall entry ev,
    In entry
       (athleteEntries
          (SimpleTeamEntryOptimizer.buildResult localeCompare teamName
             gender grade (recordAll allRankings aps))) ->
    In ev (events entry) ->
    exists be row,
      findAthleteData
        (SimpleTeamEntryOptimizer.buildResult localeCompare teamName
           gender grade (recordAll allRankings aps)) entry ev
      = Some (be, row) /\
      In be
         (eventBreakdown
            (SimpleTeamEntryOptimizer.buildResult localeCompare teamName
               gender grade (recordAll allRankings aps))) /\
      event be = ev /\ In row (athletes be) /\
      ea_athlete row = athlete entry.
Proof.
  intros Hpicks entry ev Hentry Hev.
  destruct (result_shape localeCompare teamName gender grade allRankings aps
              (fun a picks H => proj1 (Hpicks a picks H)))
    as (Hperm & Hbreak & Hnd).
  set (result := SimpleTeamEntryOptimizer.buildResult localeCompare teamName
                   gender grade (recordAll allRankings aps)) in *.
  apply (Permutation_in _ Hperm) in Hentry.
  apply in_map_iff in Hentry as ([a picks] & <- & Hin).
  cbn [fst snd entryOf athlete events] in *.
  apply in_map_iff in Hev as ([ev' row0] & <- & Hp). cbn [fst].
  destruct (Hpicks a picks Hin) as (_ & Hath).
  pose proof (Hath ev' row0 Hp) as Hrow0.
  assert (Hall : In (ev', row0) (allPicks aps)).
  { apply in_allPicks. eauto. }
  set (be := sortAthletes
               (fun x y => ea_projectedPlace x - ea_projectedPlace y)
               (breakdownEntry allRankings ev'
                  (rowsUnder ev' (allPicks aps)))).
  assert (Hbe : In be (eventBreakdown result)).
  { apply Hbreak. exists ev'. split; trivial.
    intros E. apply in_rowsUnder in Hall. rewrite E in Hall. destruct Hall. }
  assert (Hin0 : In row0 (athletes be)).
  { cbn. now apply sortBy_in, in_rowsUnder. }
  unfold findAthleteData, find_first. cbn [athlete entryOf].
  destruct (find (fun e => String.eqb (event e) ev') (eventBreakdown result))
    as [be0|] eqn:F.
  - apply find_some in F as [Hbe0 He0]. apply String.eqb_eq in He0.
    assert (be0 = be).
    { apply (PredictorFacts.NoDup_map_in_inj event
               (eventBreakdown result)); trivial. }
    subst be0.
    destruct (find (fun x => String.eqb (ea_athlete x) a) (athletes be))
      as [row|] eqn:G.
    + apply find_some in G as [Hrow Ha]. apply String.eqb_eq in Ha.
      exists be, row. repeat split; trivial.
    + pose proof (find_none _ _ G row0 Hin0) as Hno. cbn beta in Hno.
      rewrite Hrow0, String.eqb_refl in Hno. discriminate.
  - pose proof (find_none _ _ F be Hbe) as Hno. cbn in Hno.
    rewrite String.eqb_refl in Hno. discriminate.
Qed.

Lemma countShown_le result :
  (countShown result <= countEvents (athleteEntries result))%nat.
Proof.
  unfold countShown, countEvents.
  induction (athleteEntries result) as [|a rest IH]; cbn [fold_right];
    trivial.
  unfold shownEvents at 1.
  pose proof (filter_length_le
                (fun ev => match findAthleteData result a ev with
                           | Some _ => true
                           | None => false
                           end) (events a)) as H.
  lia.
Qed.

Lemma filter_all_true {A : Type} (p : A -> bool) (l : list A) :
  (forall x, In x l -> p x = true) -> filter p l = l.
Proof.
  induction l as [|x rest IH]; intros H; cbn [filter]; trivial.
  rewrite H by now left. f_equal. apply IH. intros y Hy. apply H. now right.
Qed.

Lemma countShown_all result :
  (forall entry ev,
      In entry (athleteEntries result) -> In ev (events entry) ->
      findAthleteData result entry ev <> None) ->
  countShown result = countEvents (athleteEntries result).
Proof.
  unfold countShown, countEvents. intros H.
  apply fold_right_count_ext. intros a Ha. unfold shownEvents.
  f_equal. apply filter_all_true. intros ev Hev.
  specialize (H a ev Ha Hev).
  destruct (findAthleteData result a ev); congruence.
Qed.

(** X17. In the report of a result returned by an optimizer no event of
    an athlete is skipped: both lookups of the report succeed for every
    event of every entry, in the breakdown entry of that event and at a
    row of that athlete, so the report has one line for each event of
    each athlete besides one for each row of the breakdown. *)
Theorem report_shows_every_selected_event :
  forall optimize reportLines heading,
    isReportOf optimize reportLines heading ->
    forall localeCompare fs rankingsDir season teamName gender grade result
           showNumber,
      optimize localeCompare fs rankingsDir season teamName gender grade
      = Ok result ->
      (forall entry ev,
          In entry (athleteEntries result) -> In ev (events entry) ->
          exists be row,
            findAthleteData result entry ev = Some (be, row) /\
            In be (eventBreakdown result) /\ event be = ev /\
            In row (athletes be) /\ ea_athlete row = athlete entry) /\
      List.length (reportLines showNumber result) =
      (frameLines heading result + countEvents (athleteEntries result)
       + countRows (eventBreakdown result))%nat.
Proof.
  intros optimize reportLines heading Hrep lc fs dir season teamName gender
         grade result sn Hres.
  assert (Hplaces : exists load place, optimizerPlaces load optimize place).
  { destruct Hrep as [(-> & _)|(-> & _)]; eexists; eexists;
      [left | right]; repeat split; reflexivity. }
  destruct Hplaces as (load & place & Hplaces).
  destruct (load fs dir season gender grade) as [allRankings|e] eqn:Hload.
  - destruct (result_anatomy load optimize place Hplaces lc fs dir season
                teamName gender grade allRankings Hload)
      as (aps & Hret & _ & _ & Hpicks).
    rewrite Hret in Hres. apply Ok_inj in Hres. subst result.
    assert (Hfound :
             forall a picks,
               In (a, picks) aps ->
               picks <> [] /\
               forall ev row, In (ev, row) picks -> ea_athlete row = a).
    { intros a picks Hin. destruct (Hpicks a picks Hin) as (Hne & _ & Hsrc).
      split; trivial. intros ev row Hp. now destruct (Hsrc ev row Hp). }
    pose proof (lookups_succeed lc teamName gender grade allRankings aps
                  Hfound) as Hlook.
    split; [exact Hlook|].
    rewrite (report_length optimize reportLines heading Hrep).
    rewrite countShown_all; trivial.
    intros entry ev Hentry Hev.
    destruct (Hlook entry ev Hentry Hev) as (be & row & -> & _).
    discriminate.
  - exfalso.
    assert (Hthrow : optimize lc fs dir season teamName gender grade
                     = Throw e).
    { destruct Hplaces as [(-> & -> & _)|(-> & -> & _)].
      - unfold SimpleTeamEntryOptimizer.optimize. now rewrite Hload.
      - unfold AdvancedTeamEntryOptimizer.optimize. now rewrite Hload. }
    congruence.
Qed.

Lemma report_shows_every_selected_event_witness :
  exists result,
    AdvancedTeamEntryOptimizer.optimize codeUnitCompare sampleFS
      "rankings" "2025" "Tigers" "Male" "7th grade" = Ok result /\
    countEvents (athleteEntries result) = 8%nat /\
    List.length (AdvancedTeamEntryOptimizer.reportLines decimal result) =
    (frameLines 12 result + countEvents (athleteEntries result)
     + countRows (eventBreakdown result))%nat.
Proof.
  eexists.
  split; [vm_compute; reflexivity|].
  split; [reflexivity|].
  eapply (report_shows_every_selected_event
            AdvancedTeamEntryOptimizer.optimize
            AdvancedTeamEntryOptimizer.reportLines 12%nat
            (or_intror (conj eq_refl (conj eq_refl eq_refl)))
            codeUnitCompare sampleFS "rankings" "2025" "Tigers" "Male"
            "7th grade").
  vm_compute. reflexivity.
Defined.

(** X18. The number of lines of a report, for any result: the heading
    and the two section titles, two lines for each athlete and for each
    event of the breakdown, one line for each row of the breakdown, and
    one line for each event of an athlete for which the breakdown has an
    entry with a row of that athlete; the other events of an athlete are
    left out without notice, so the last part is at most the number of
    events of the entries. *)
Theorem report_line_count :
  forall optimize reportLines heading,
    isReportOf optimize reportLines heading ->
    forall showNumber result,
      List.length (reportLines showNumber result) =
      (frameLines heading result + countShown result
       + countRows (eventBreakdown result))%nat /\
      (countShown result <= countEvents (athleteEntries result))%nat /\
      (forall a ev,
          In ev (shownEvents result a) <->
          In ev (events a) /\
          exists be row,
            find_first (fun e => String.eqb (event e) ev)
                       (eventBreakdown result) = Some be /\
            find_first (fun x => String.eqb (ea_athlete x) (athlete a))
                       (athletes be) = Some row).
Proof.
  intros optimize reportLines heading Hrep sn result.
  split; [now apply (report_length optimize)|].
  split; [apply countShown_le|].
  intros a ev. unfold shownEvents. rewrite filter_In.
  unfold findAthleteData.
  destruct (find_first (fun e => String.eqb (event e) ev)
                       (eventBreakdown result)) as [be|].
  - destruct (find_first (fun x => String.eqb (ea_athlete x) (athlete a))
                         (athletes be)) as [row|] eqn:G.
    + split; intros [Hev _]; split; trivial. exists be, row. auto.
    + split; intros [Hev H]; [discriminate|].
      destruct H as (be' & row & Hbe & Hrow).
      inversion Hbe; subst be'. congruence.
  - split; intros [Hev H]; [discriminate|].
    destruct H as (be' & row & Hbe & _). discriminate.
Qed.

Lemma report_line_count_witness :
  List.length
    (SimpleTeamEntryOptimizer.reportLines decimal
       (emptyResult "Tigers" "Male" "7th grade")) = 17%nat /\
  List.length
    (SimpleTeamEntryOptimizer.reportLines decimal
       (emptyResult "Tigers" "Male" "7th grade")) =
  (frameLines 9 (emptyResult "Tigers" "Male" "7th grade")
   + countShown (emptyResult "Tigers" "Male" "7th grade")
   + countRows (eventBreakdown (emptyResult "Tigers" "Male" "7th grade")))%nat.
Proof.
  split; [reflexivity|].
  apply (report_line_count SimpleTeamEntryOptimizer.optimize
           SimpleTeamEntryOptimizer.reportLines 9%nat
           (or_introl (conj eq_refl (conj eq_refl eq_refl)))
           decimal (emptyResult "Tigers" "Male" "7th grade")).
Defined.

(* ----------------------------------------------------------------- *)
(** ** The order of an athlete's events *)

Lemma StronglySorted_app_l {A : Type} (R : A -> A -> Prop) (l1 l2 : list A) :
  StronglySorted R (l1 ++ l2) -> StronglySorted R l1.
Proof.
  induction l1 as [|x rest IH]; cbn [app]; intros H; [constructor|].
  inversion H as [|? ? Hs Hall]; subst. constructor; [now apply IH|].
  apply Forall_app in Hall. tauto.
Qed.

Lemma StronglySorted_drop_middle {A : Type} (R : A -> A -> Prop)
    (l1 : list A) (x : A) (l2 : list A) :
  StronglySorted R (l1 ++ x :: l2) -> StronglySorted R (l1 ++ l2).
Proof.
  induction l1 as [|y rest IH]; cbn [app]; intros H.
  - now inversion H.
  - inversion H as [|? ? Hs Hall]; subst. constructor; [now apply IH|].
    apply Forall_app in Hall as [H1 H2]. apply Forall_app. split; trivial.
    now inversion H2.
Qed.

Lemma StronglySorted_impl_in {A : Type} (R S : A -> A -> Prop) (l : list A) :
  (forall a b, In a l -> In b l -> R a b -> S a b) ->
  StronglySorted R l -> StronglySorted S l.
Proof.
  induction l as [|x rest IH]; intros Himp H; [constructor|].
  inversion H as [|? ? Hs Hall]; subst. constructor.
  - apply IH; trivial. intros a b Ha Hb. apply Himp; now right.
  - rewrite Forall_forall in *. intros y Hy.
    apply Himp; [now left | now right | now apply Hall].
Qed.

Lemma selectEvents_sorted (R : string -> string -> Prop) sortedEvents
    selectedEvents :
  StronglySorted R (selectedEvents ++ map fst sortedEvents) ->
  StronglySorted R
    (SimpleTeamEntryOptimizer.selectEvents sortedEvents selectedEvents).
Proof.
  revert selectedEvents.
  induction sortedEvents as [|[e s] rest IH]; intros sel H;
    cbn [SimpleTeamEntryOptimizer.selectEvents].
  - now rewrite app_nil_r in H.
  - cbn [map fst] in H.
    destruct (4 <=? List.length sel)%nat;
      [now apply StronglySorted_app_l in H|].
    destruct (SimpleTeamEntryOptimizer.isValidCombination (sel ++ [e])).
    + apply IH. now rewrite <- app_assoc.
    + apply IH. now apply StronglySorted_drop_middle in H.
Qed.

Lemma selectOptions_sorted
    (R : AdvancedTeamEntryOptimizer.AthleteEventScore ->
         AdvancedTeamEntryOptimizer.AthleteEventScore -> Prop)
    sortedOptions selectedEvents selectedScores :
  StronglySorted R (selectedScores ++ sortedOptions) ->
  StronglySorted R
    (snd (AdvancedTeamEntryOptimizer.selectOptions sortedOptions
            (selectedEvents, selectedScores))).
Proof.
  revert selectedEvents selectedScores.
  induction sortedOptions as [|o rest IH]; intros evs scores H;
    cbn [AdvancedTeamEntryOptimizer.selectOptions].
  - cbn [snd]. now rewrite app_nil_r in H.
  - destruct (4 <=? List.length evs)%nat;
      [cbn [snd]; now apply StronglySorted_app_l in H|].
    destruct (AdvancedTeamEntryOptimizer.isValidCombination
                (evs ++ [AdvancedTeamEntryOptimizer.aes_event o])).
    + apply IH. now rewrite <- app_assoc.
    + apply IH. now apply StronglySorted_drop_middle in H.
Qed.

Lemma compareEvents_total a b :
  SimpleTeamEntryOptimizer.compareEvents a b <= 0 \/
  SimpleTeamEntryOptimizer.compareEvents b a <= 0.
Proof.
  unfold SimpleTeamEntryOptimizer.compareEvents.
  destruct (Z.eqb_spec (SimpleTeamEntryOptimizer.s_points (snd b))
                       (SimpleTeamEntryOptimizer.s_points (snd a)));
    destruct (Z.eqb_spec (SimpleTeamEntryOptimizer.s_points (snd a))
                         (SimpleTeamEntryOptimizer.s_points (snd b)));
    cbn [negb]; lia.
Qed.

Lemma compareEvents_trans a b c :
  SimpleTeamEntryOptimizer.compareEvents a b <= 0 ->
  SimpleTeamEntryOptimizer.compareEvents b c <= 0 ->
  SimpleTeamEntryOptimizer.compareEvents a c <= 0.
Proof.
  unfold SimpleTeamEntryOptimizer.compareEvents.
  destruct (Z.eqb_spec (SimpleTeamEntryOptimizer.s_points (snd b))
                       (SimpleTeamEntryOptimizer.s_points (snd a)));
    destruct (Z.eqb_spec (SimpleTeamEntryOptimizer.s_points (snd c))
                         (SimpleTeamEntryOptimizer.s_points (snd b)));
    destruct (Z.eqb_spec (SimpleTeamEntryOptimizer.s_points (snd c))
                         (SimpleTeamEntryOptimizer.s_points (snd a)));
    cbn [negb]; lia.
Qed.

Lemma compareOptions_total a b :
  AdvancedTeamEntryOptimizer.compareOptions a b <= 0 \/
  AdvancedTeamEntryOptimizer.compareOptions b a <= 0.
Proof.
  unfold AdvancedTeamEntryOptimizer.compareOptions.
  destruct (Z.eqb_spec (AdvancedTeamEntryOptimizer.aes_points b)
                       (AdvancedTeamEntryOptimizer.aes_points a));
    destruct (Z.eqb_spec (AdvancedTeamEntryOptimizer.aes_points a)
                         (AdvancedTeamEntryOptimizer.aes_points b));
    cbn [negb]; lia.
Qed.

Lemma compareOptions_trans a b c :
  AdvancedTeamEntryOptimizer.compareOptions a b <= 0 ->
  AdvancedTeamEntryOptimizer.compareOptions b c <= 0 ->
  AdvancedTeamEntryOptimizer.compareOptions a c <= 0.
Proof.
  unfold AdvancedTeamEntryOptimizer.compareOptions.
  destruct (Z.eqb_spec (AdvancedTeamEntryOptimizer.aes_points b)
                       (AdvancedTeamEntryOptimizer.aes_points a));
    destruct (Z.eqb_spec (AdvancedTeamEntryOptimizer.aes_points c)
                         (AdvancedTeamEntryOptimizer.aes_points b));
    destruct (Z.eqb_spec (AdvancedTeamEntryOptimizer.aes_points c)
                         (AdvancedTeamEntryOptimizer.aes_points a));
    cbn [negb]; lia.
Qed.

Lemma simpleSelection_sorted eventScores :
  NoDup (JSMap.keys eventScores) ->
  StronglySorted
    (fun e1 e2 => scorePoints eventScores e1 >= scorePoints eventScores e2)
    (simpleSelection eventScores).
Proof.
  intros Hnd. unfold simpleSelection. apply selectEvents_sorted.
  cbn [app]. apply StronglySorted_map.
  apply StronglySorted_impl_in
    with (R := fun a b => SimpleTeamEntryOptimizer.compareEvents a b <= 0).
  - intros [e1 s1] [e2 s2] H1 H2 Hcmp.
    apply sortBy_in in H1, H2. unfold JSMap.entries in H1, H2.
    apply (JSMapFacts.in_get_Some _ _ _ Hnd) in H1, H2.
    unfold scorePoints. cbn [fst]. rewrite H1, H2.
    unfold SimpleTeamEntryOptimizer.compareEvents in Hcmp. cbn [snd] in Hcmp.
    destruct (Z.eqb_spec (SimpleTeamEntryOptimizer.s_points s2)
                         (SimpleTeamEntryOptimizer.s_points s1));
      cbn [negb] in Hcmp; lia.
  - apply sortBy_sorted.
    + apply compareEvents_total.
    + apply compareEvents_trans.
Qed.

Lemma simplePicks_bestFirst a eventScores :
  NoDup (JSMap.keys eventScores) ->
  bestFirst (map snd (simplePicks a eventScores)).
Proof.
  intros Hnd. unfold bestFirst, simplePicks.
  pose proof (simpleSelection_sorted eventScores Hnd) as Hs.
  induction Hs as [|e rest Hrest IH Hall]; cbn [flat_map map];
    [constructor|].
  destruct (JSMap.get e eventScores) as [score|] eqn:G;
    cbn [app map snd]; trivial.
  constructor; trivial.
  apply Forall_forall. intros row Hrow.
  apply in_map_iff in Hrow as ([e' row'] & <- & Hin).
  apply in_flat_map in Hin as (e2 & He2 & Hin).
  rewrite Forall_forall in Hall. specialize (Hall e2 He2).
  unfold scorePoints in Hall. rewrite G in Hall.
  destruct (JSMap.get e2 eventScores) as [score2|]; [|destruct Hin].
  destruct Hin as [Hin|[]]. inversion Hin; subst. cbn. exact Hall.
Qed.

Lemma advancedPicks_bestFirst a options :
  bestFirst (map snd (advancedPicks a options)).
Proof.
  unfold bestFirst, advancedPicks. rewrite map_map. cbn [snd].
  apply StronglySorted_map. cbn [advancedRow ea_projectedPoints].
  unfold advancedSelection. apply selectOptions_sorted. cbn [app].
  apply StronglySorted_impl
    with (R := fun a b => AdvancedTeamEntryOptimizer.compareOptions a b <= 0).
  - intros x y Hcmp.
    unfold AdvancedTeamEntryOptimizer.compareOptions in Hcmp.
    destruct (Z.eqb_spec (AdvancedTeamEntryOptimizer.aes_points y)
                         (AdvancedTeamEntryOptimizer.aes_points x));
      cbn [negb] in Hcmp; lia.
  - apply sortBy_sorted.
    + apply compareOptions_total.
    + apply compareOptions_trans.
Qed.

(** The anatomy of a result with the order of each athlete's picks. *)
Lemma result_anatomy_ordered loadRankings optimize :
  isOptimizer loadRankings optimize ->
  forall localeCompare fs rankingsDir season teamName gender grade
         allRankings,
    loadRankings fs rankingsDir season gender grade = Ok allRankings ->
    exists aps,
      optimize localeCompare fs rankingsDir season teamName gender grade =
      Ok (SimpleTeamEntryOptimizer.buildResult localeCompare teamName
            gender grade (recordAll allRankings aps)) /\
      forall a picks,
        In (a, picks) aps ->
        picks <> [] /\
        (forall ev row, In (ev, row) picks -> ea_athlete row = a) /\
        bestFirst (map snd picks).
Proof.
  intros [[-> ->]|[-> ->]] lc fs dir season teamName gender grade
         allRankings Hload.
  - exists (simpleAthletePicks allRankings teamName). split.
    + unfold SimpleTeamEntryOptimizer.optimize. rewrite Hload.
      apply PassFacts.simple_optimizeRankings_pass.
    + intros a picks Hin.
      destruct (PickFacts.simple_picks_source allRankings teamName a picks
                  Hin) as (Hne & _ & Hsrc).
      split; trivial. split.
      * intros ev row Hp. now destruct (Hsrc ev row Hp).
      * unfold simpleAthletePicks, JSMap.entries in Hin.
        apply in_map_iff in Hin as ([a' evs] & Heq & Hin).
        cbn [fst snd] in Heq. inversion Heq; subst a' picks.
        apply simplePicks_bestFirst.
        apply (PickFacts.simple_scores_keys_NoDup allRankings teamName a).
        apply JSMapFacts.in_get_Some; trivial.
        apply SimpleFacts.athleteScores_keys_NoDup.
  - exists (advancedAthletePicks allRankings teamName). split.
    + unfold AdvancedTeamEntryOptimizer.optimize. rewrite Hload.
      apply PassFacts.advanced_optimizeRankings_pass.
    + intros a picks Hin.
      destruct (PickFacts.advanced_picks_source allRankings teamName a picks
                  Hin) as (Hne & _ & Hsrc).
      split; trivial. split.
      * intros ev row Hp. now destruct (Hsrc ev row Hp).
      * unfold advancedAthletePicks in Hin.
        apply in_map_iff in Hin as ([a' opts] & Heq & Hin).
        cbn [fst snd] in Heq. inversion Heq; subst a' picks.
        apply advancedPicks_bestFirst.
Qed.

(** X19. Either optimizer lists the events of an entry from most to
    fewest projected points: the events of an entry are matched, in
    order, by rows of that athlete in the breakdown entries of those
    events, whose points add up to the entry's projected points and never
    increase along the list. *)
Theorem entry_events_best_first :
  forall loadRankings optimize,
    isOptimizer loadRankings optimize ->
    forall localeCompare fs rankingsDir season teamName gender grade
           result entry,
      optimize localeCompare fs rankingsDir season teamName gender grade
      = Ok result ->
      In entry (athleteEntries result) ->
      exists picks,
        events entry = map fst picks /\
        projectedPoints entry = sumRowPoints (map snd picks) /\
        (forall ev row,
            In (ev, row) picks ->
            ea_athlete row = athlete entry /\
            exists be,
              In be (eventBreakdown result) /\ event be = ev /\
              In row (athletes be)) /\
        bestFirst (map snd picks).
Proof.
  intros load optimize Hopt lc fs dir season teamName gender grade result
         entry Hres Hentry.
  destruct (load fs dir season gender grade) as [allRankings|e] eqn:Hload.
  - destruct (result_anatomy_ordered load optimize Hopt lc fs dir season
                teamName gender grade allRankings Hload)
      as (aps & Hret & Hpicks).
    rewrite Hret in Hres. apply Ok_inj in Hres. subst result.
    destruct (result_shape lc teamName gender grade allRankings aps
                (fun a picks H => proj1 (Hpicks a picks H)))
      as (Hperm & Hbreak & _).
    apply (Permutation_in _ Hperm) in Hentry.
    apply in_map_iff in Hentry as ([a picks] & <- & Hin).
    cbn [fst snd].
    destruct (Hpicks a picks Hin) as (_ & Hath & Hsorted).
    exists picks. split; [reflexivity|]. split; [reflexivity|].
    split; trivial.
    intros ev row Hp. split; [now apply (Hath ev row)|].
    assert (Hall : In (ev, row) (allPicks aps)).
    { apply in_allPicks. eauto. }
    exists (sortAthletes
              (fun x y => ea_projectedPlace x - ea_projectedPlace y)
              (breakdownEntry allRankings ev (rowsUnder ev (allPicks aps)))).
    split; [|split; [reflexivity|]].
    + apply Hbreak. exists ev. split; trivial.
      intros E. apply in_rowsUnder in Hall. rewrite E in Hall.
      destruct Hall.
    + cbn. now apply sortBy_in, in_rowsUnder.
  - exfalso.
    assert (Hthrow : optimize lc fs dir season teamName gender grade
                     = Throw e).
    { destruct Hopt as [[-> ->]|[-> ->]].
      - unfold SimpleTeamEntryOptimizer.optimize. now rewrite Hload.
      - unfold AdvancedTeamEntryOptimizer.optimize. now rewrite Hload. }
    congruence.
Qed.

Lemma entry_events_best_first_witness :
  exists result entry picks,
    SimpleTeamEntryOptimizer.optimize codeUnitCompare sampleFS
      "rankings" "2025" "Tigers" "Male" "7th grade" = Ok result /\
    In entry (athleteEntries result) /\
    List.length (events entry) = 4%nat /\
    events entry = map fst picks /\
    bestFirst (map snd picks).
Proof.
  assert (Hres :
           exists result,
             SimpleTeamEntryOptimizer.optimize codeUnitCompare sampleFS
               "rankings" "2025" "Tigers" "Male" "7th grade" = Ok result /\
             exists entry,
               In entry (athleteEntries result) /\
               List.length (events entry) = 4%nat).
  { eexists. split; [vm_compute; reflexivity|].
    eexists. split; [left; reflexivity | reflexivity]. }
  destruct Hres as (result & Hres & entry & Hin & Hlen).
  destruct (entry_events_best_first
              SimpleTeamEntryOptimizer.loadRankings
              SimpleTeamEntryOptimizer.optimize
              (or_introl (conj eq_refl eq_refl))
              codeUnitCompare sampleFS "rankings" "2025" "Tigers" "Male"
              "7th grade" result entry Hres Hin)
    as (picks & Hev & _ & _ & Hsorted).
  exists result, entry, picks. auto.
Defined.

(* ----------------------------------------------------------------- *)
(** ** First name and last name *)

Lemma splitSpace_nonempty s : splitSpace s <> [].
Proof.
  destruct s as [|c rest]; cbn [splitSpace]; [discriminate|].
  destruct (Ascii.eqb c " "%char); [discriminate|].
  destruct (splitSpace rest); discriminate.
Qed.

Lemma concat_space_cons w ws :
  ws <> [] ->
  String.concat " " (w :: ws) = (w ++ " " ++ String.concat " " ws)%string.
Proof. destruct ws; [congruence | reflexivity]. Qed.

Lemma joinSpace_splitSpace s : joinSpace (splitSpace s) = s.
Proof.
  unfold joinSpace. induction s as [|c rest IH]; cbn [splitSpace]; trivial.
  destruct (Ascii.eqb_spec c " "%char) as [->|Hc].
  - rewrite concat_space_cons by apply splitSpace_nonempty.
    now rewrite IH.
  - destruct (splitSpace rest) as [|w ws] eqn:S.
    + now apply splitSpace_nonempty in S.
    + rewrite <- IH. destruct ws; reflexivity.
Qed.

Lemma splitSpace_first s w ws :
  splitSpace s = w :: ws ->
  hasSpace w = false /\ (hasSpace s = false <-> ws = []).
Proof.
  revert w ws. induction s as [|c rest IH]; intros w ws;
    cbn [splitSpace hasSpace].
  - intros H. inversion H. split; [reflexivity | tauto].
  - destruct (Ascii.eqb c " "%char) eqn:E; cbn [orb].
    + intros H. inversion H; subst. split; [reflexivity|].
      split; [discriminate|]. intros S.
      now apply splitSpace_nonempty in S.
    + destruct (splitSpace rest) as [|w' ws'] eqn:S.
      * now apply splitSpace_nonempty in S.
      * intros H. inversion H; subst.
        destruct (IH w' ws eq_refl) as [Hw Hs].
        cbn [hasSpace]. rewrite E, Hw. split; [reflexivity | exact Hs].
Qed.

Lemma entryOf_name a picks :
  let entry := entryOf a picks in
  hasSpace (firstName entry) = false /\
  athlete entry =
  (if hasSpace (athlete entry)
   then (firstName entry ++ " " ++ lastName entry)%string
   else firstName entry) /\
  (hasSpace (athlete entry) = false -> lastName entry = EmptyString).
Proof.
  cbn [entryOf athlete firstName lastName].
  pose proof (joinSpace_splitSpace a) as Hjoin.
  destruct (splitSpace a) as [|w ws] eqn:S;
    [now apply splitSpace_nonempty in S|].
  destruct (splitSpace_first a w ws S) as [Hw Hs].
  cbn [firstAndRest fst snd]. split; trivial.
  destruct (hasSpace a) eqn:Ha.
  - assert (Hne : ws <> []).
    { intros E. apply Hs in E. discriminate. }
    split; [|discriminate].
    unfold joinSpace in *. now rewrite concat_space_cons in Hjoin.
  - assert (E : ws = []) by now apply Hs.
    subst ws. cbn in Hjoin. split; [congruence | reflexivity].
Qed.

(** X20. The first name and last name of an entry are the athlete's name
    cut at its first space: the first name holds no space; a name with a
    space is the first name, a space and the last name; a name without a
    space is the first name, with an empty last name. *)
Theorem entry_name_split :
  forall loadRankings optimize,
    isOptimizer loadRankings optimize ->
    forall localeCompare fs rankingsDir season teamName gender grade
           result entry,
      optimize localeCompare fs rankingsDir season teamName gender grade
      = Ok result ->
      In entry (athleteEntries result) ->
      hasSpace (firstName entry) = false /\
      athlete entry =
      (if hasSpace (athlete entry)
       then (firstName entry ++ " " ++ lastName entry)%string
       else firstName entry) /\
      (hasSpace (athlete entry) = false -> lastName entry = EmptyString).
Proof.
  intros load optimize Hopt lc fs dir season teamName gender grade result
         entry Hres Hentry.
  destruct (load fs dir season gender grade) as [allRankings|e] eqn:Hload.
  - destruct (result_anatomy_ordered load optimize Hopt lc fs dir season
                teamName gender grade allRankings Hload)
      as (aps & Hret & Hpicks).
    rewrite Hret in Hres. apply Ok_inj in Hres. subst result.
    destruct (result_shape lc teamName gender grade allRankings aps
                (fun a picks H => proj1 (Hpicks a picks H)))
      as (Hperm & _).
    apply (Permutation_in _ Hperm) in Hentry.
    apply in_map_iff in Hentry as ([a picks] & <- & Hin).
    apply entryOf_name.
  - exfalso.
    assert (Hthrow : optimize lc fs dir season teamName gender grade
                     = Throw e).
    { destruct Hopt as [[-> ->]|[-> ->]].
      - unfold SimpleTeamEntryOptimizer.optimize. now rewrite Hload.
      - unfold AdvancedTeamEntryOptimizer.optimize. now rewrite Hload. }
    congruence.
Qed.

Lemma entry_name_split_witness :
  exists result entry,
    AdvancedTeamEntryOptimizer.optimize codeUnitCompare sampleFS
      "rankings" "2025" "Tigers" "Male" "7th grade" = Ok result /\
    In entry (athleteEntries result) /\
    hasSpace (athlete entry) = true /\
    athlete entry =
    (if hasSpace (athlete entry)
     then (firstName entry ++ " " ++ lastName entry)%string
     else firstName entry).
Proof.
  eexists. eexists.
  split; [vm_compute; reflexivity|].
  split; [left; reflexivity|].
  split; [reflexivity|].
  eapply (entry_name_split
            AdvancedTeamEntryOptimizer.loadRankings
            AdvancedTeamEntryOptimizer.optimize
            (or_intror (conj eq_refl eq_refl))
            codeUnitCompare sampleFS "rankings" "2025" "Tigers" "Male"
            "7th grade").
  - vm_compute. reflexivity.
  - left. reflexivity.
Defined.
